(** * video-to-ascii-converter: the frame codec, the binary format and the
    pixel-to-symbol conversion, embedded from the TypeScript sources.

    Conventions of the embedding.
    - A JavaScript string is the list of its UTF-16 code units ([jsstring]).
    - A [Uint8Array] is a list of integers; every store into one goes
      through [u8] (the store wraps modulo 256).
    - [undefined] read from an array is [None].
    - A JavaScript number that holds a count, an index or a byte is a [Z];
      the places where the source computes with fractions (grid geometry,
      the delta threshold, the duration) use IEEE-754 binary64 through the
      Standard Library's [spec_float] operations.
    - A cursor [offset] into a byte array is carried as the unread suffix
      [drop offset bytes]; a read past the end gives [undefined] in the
      source and [None] here.
    - The limits the language leaves to the engine (the number of
      arguments of a call, the length of a buffer) are the fields of a
      [JS.Engine], a parameter of the functions that can run into them. *)

From Stdlib Require Import ZArith Lia Bool String Ascii.
From Stdlib Require Import Floats.SpecFloat.
From stdpp Require Import base tactics option list pretty gmap.
From Equations Require Import Equations.

Local Open Scope Z_scope.

(** ** JavaScript values *)

Module JS.

Definition jsstring := list Z.

(** Code units of an ASCII literal. *)
Definition codes (s : string) : jsstring :=
  map (fun a => Z.of_N (N_of_ascii a)) (list_ascii_of_string s).

(** Conversions applied by typed-array stores, DataView writes and the
    bitwise operators. *)
Definition u8 (z : Z) : Z := z mod 256.
Definition u16 (z : Z) : Z := z mod 65536.
Definition toUint32 (z : Z) : Z := z mod 2 ^ 32.
Definition toInt32 (z : Z) : Z := (z + 2 ^ 31) mod 2 ^ 32 - 2 ^ 31.

(** [x << s] on numbers: the count is taken modulo 32, the result is an
    int32. *)
Definition shl32 (x s : Z) : Z := toInt32 (toInt32 x * 2 ^ (s mod 32)).

(** [a ?? b] *)
Definition nullish (a : option Z) (b : Z) : Z := default b a.

(** [a !== b] on values that are code units, bytes or [undefined]. *)
Definition strictNe (a b : option Z) : bool := bool_decide (a <> b).

(** [arr[i]] at a numeric index. *)
Definition at_ {A} (arr : list A) (i : Z) : option A :=
  if i <? 0 then None else arr !! Z.to_nat i.

(** [arr[i] = v] on a typed array: a store outside the array is dropped. *)
Definition typedSet (buf : list Z) (i v : Z) : list Z :=
  if (0 <=? i) && (i <? Z.of_nat (length buf))
  then <[Z.to_nat i := u8 v]> buf else buf.

(** [arr[i] = v] on an ordinary array (a list of slots, [None] for a hole):
    a store past the end extends the array with holes.  The array indices
    are the integers from 0 to 2^32 - 2: a negative key, and a key of
    2^32 - 1 or more, is a property and not an element, and leaves the
    elements alone (an array has fewer than 2^32 elements, so such a key
    is never below its length). *)
Definition arraySet (arr : list (option Z)) (i v : Z) : list (option Z) :=
  if i <? 0 then arr
  else if i <? Z.of_nat (length arr) then <[Z.to_nat i := Some v]> arr
  else if i <? 2 ^ 32 - 1
       then arr ++ replicate (Z.to_nat i - length arr) None ++ [Some v]
  else arr.

(** [arr.join('')] on an array of one-unit strings: holes and [undefined]
    contribute nothing. *)
Definition join (arr : list (option Z)) : jsstring := omap id arr.

(** [s.split('')] *)
Definition split (s : jsstring) : list (option Z) := map Some s.

(** Outcome of a call that may throw. *)
Inductive error := BadMagic | RangeError.
Inductive outcome (A : Type) := Returned (a : A) | Thrown (e : error).
Arguments Returned {A} a.
Arguments Thrown {A} e.

Definition bind {A B} (o : outcome A) (k : A -> outcome B) : outcome B :=
  match o with Returned a => k a | Thrown e => Thrown e end.

Definition throws {A} (o : outcome A) : Prop := exists e, o = Thrown e.

(** What the language leaves to the engine the code runs on: the number
    of arguments one call accepts, and the length of the longest buffer it
    allocates. *)
Record Engine := {
  maxArguments : Z;
  maxByteLength : Z
}.

(** [String.fromCharCode(...units)] on the elements of a typed array: the
    spread passes one argument per element, and a call with more arguments
    than the engine accepts throws a RangeError. *)
Definition fromCharCodeSpread (E : Engine) (units : list Z)
    : outcome jsstring :=
  if Z.of_nat (length units) <=? maxArguments E then Returned units
  else Thrown RangeError.

(** [new Uint8Array(length)] for an integer [length]: a RangeError for a
    negative length and for one the engine does not allocate. *)
Definition newUint8Array (E : Engine) (length : Z) : outcome (list Z) :=
  if (0 <=? length) && (length <=? maxByteLength E)
  then Returned (replicate (Z.to_nat length) 0)
  else Thrown RangeError.

(** [buf.subarray(begin, end)] on a typed array: a negative position
    counts from the end, and both positions are clamped to the array. *)
Definition subarray (buf : list Z) (begin end_ : Z) : list Z :=
  let len := Z.of_nat (length buf) in
  let rel k := if k <? 0 then Z.max (len + k) 0 else Z.min k len in
  take (Z.to_nat (rel end_ - rel begin)) (drop (Z.to_nat (rel begin)) buf).

(** [s.replace(/c/g, t)] for a pattern of the one character [c] and a
    replacement [t] that holds no [$]. *)
Definition replaceAll (c : Z) (t : jsstring) (s : jsstring) : jsstring :=
  x ← s; if x =? c then t else [x].

(** A string used as a condition: the empty string is falsy. *)
Definition truthy (s : jsstring) : bool :=
  match s with [] => false | _ => true end.

End JS.

Notation "'try' x <- a ; b" := (JS.bind a (fun x => b))
  (at level 10, x name, a at level 100, b at level 200, only parsing).

(** ** binary64 numbers *)

Module Num.

Definition num := spec_float.
Definition prec : Z := 53.
Definition emax : Z := 1024.

(** An integer as a number.  The mantissa is left unnormalised (exponent
    0): the operations of [spec_float] round their result from the exact
    value of the operands, so they do not need the canonical form; the
    comparisons below are on exact values for the same reason.  Integers
    of magnitude up to 2^53 are represented exactly. *)
Definition ofZ (z : Z) : num :=
  match z with
  | Z0 => S754_zero false
  | Zpos p => S754_finite false p 0
  | Zneg p => S754_finite true p 0
  end.

Definition mul : num -> num -> num := SFmul prec emax.
Definition div : num -> num -> num := SFdiv prec emax.
Definition add : num -> num -> num := SFadd prec emax.
Definition sqrt : num -> num := SFsqrt prec emax.

(** [Math.floor x] when the result is a finite number, [None] for NaN and
    the infinities.  [Z.shiftl] by a negative count rounds towards minus
    infinity, which is the floor. *)
Definition floor (x : num) : option Z :=
  match x with
  | S754_zero _ => Some 0
  | S754_finite s m e => Some (Z.shiftl (cond_Zopp s (Zpos m)) e)
  | _ => None
  end.

(** [Math.floor x] as a number: NaN and the infinities are kept. *)
Definition floorN (x : num) : num :=
  match floor x with Some z => ofZ z | None => x end.

(** The number truncated towards zero, for a finite one. *)
Definition trunc (x : num) : option Z :=
  match x with
  | S754_zero _ => Some 0
  | S754_finite s m e => Some (cond_Zopp s (Z.shiftl (Zpos m) e))
  | _ => None
  end.

(** [x | 0]: NaN and the infinities give 0, a finite number its
    truncation wrapped to an int32. *)
Definition toInt32 (x : num) : Z :=
  match trunc x with
  | Some z => (z + 2 ^ 31) mod 2 ^ 32 - 2 ^ 31
  | None => 0
  end.

(** The length [new Uint8Array(x)] allocates, [None] for a RangeError. *)
Definition toIndex (x : num) : option Z :=
  match x with
  | S754_nan => Some 0
  | S754_infinity _ => None
  | _ =>
      z ← trunc x;
      if (0 <=? z) && (z <=? 2 ^ 53 - 1) then Some z else None
  end.

(** [x > k] for an integer [k]. *)
Definition gtZ (x : num) (k : Z) : bool :=
  match x with
  | S754_nan => false
  | S754_infinity s => negb s
  | S754_zero _ => 0 >? k
  | S754_finite s m e =>
      if 0 <=? e then cond_Zopp s (Zpos m) * 2 ^ e >? k
      else cond_Zopp s (Zpos m) >? k * 2 ^ (- e)
  end.

(** [k > x] for an integer [k]: the comparison of the two real values. *)
Definition Zgt (k : Z) (x : num) : bool :=
  match x with
  | S754_nan => false
  | S754_infinity s => s
  | S754_zero _ => k >? 0
  | S754_finite s m e =>
      if 0 <=? e then k >? cond_Zopp s (Zpos m) * 2 ^ e
      else k * 2 ^ (- e) >? cond_Zopp s (Zpos m)
  end.

(** The literals of the sources. *)
Definition lit_0_4 : num := S754_finite false 7205759403792794 (-54).
Definition lit_0_5 : num := S754_finite false 1 (-1).

(** Whether the number is an integer (NaN and the infinities are not). *)
Definition isInteger (x : num) : bool :=
  match x with
  | S754_zero _ => true
  | S754_finite _ m e => (0 <=? e) || (Zpos m mod 2 ^ (- e) =? 0)
  | _ => false
  end.

(** The length [new Array(x)] allocates: [x] when it is an integer in
    [0, 2^32 - 1], [None] for the RangeError thrown otherwise. *)
Definition arrayLength (x : num) : option Z :=
  if isInteger x then
    z ← floor x; if (0 <=? z) && (z <? 2 ^ 32) then Some z else None
  else None.

Definition sub : num -> num -> num := SFsub prec emax.

(** The order of two numbers by their exact values; [None] when one of
    them is NaN. *)
Definition compare (x y : num) : option comparison :=
  match x, y with
  | S754_nan, _ | _, S754_nan => None
  | S754_infinity sx, S754_infinity sy =>
      Some (if sx then (if sy then Eq else Lt) else (if sy then Gt else Eq))
  | S754_infinity sx, _ => Some (if sx then Lt else Gt)
  | _, S754_infinity sy => Some (if sy then Gt else Lt)
  | _, _ =>
      let parts (z : num) :=
        match z with
        | S754_finite s m e => (cond_Zopp s (Zpos m), e)
        | _ => (0, 0)
        end in
      let '(mx, ex) := parts x in
      let '(my, ey) := parts y in
      let e := Z.min ex ey in
      Some (mx * 2 ^ (ex - e) ?= my * 2 ^ (ey - e))
  end.

(** [x < y], [x > y] and [x >= y]: false when an operand is NaN. *)
Definition ltb (x y : num) : bool :=
  match compare x y with Some Lt => true | _ => false end.
Definition gtb (x y : num) : bool :=
  match compare x y with Some Gt => true | _ => false end.
Definition geb (x y : num) : bool :=
  match compare x y with Some Gt | Some Eq => true | _ => false end.

(** [Math.max(x, y)] and [Math.min(x, y)]: NaN when an operand is NaN;
    of the two zeros the positive one is the larger. *)
Definition max (x y : num) : num :=
  match compare x y with
  | None => S754_nan
  | Some Lt => y
  | Some Gt => x
  | Some Eq => match x with S754_zero true => y | _ => x end
  end.
Definition min (x y : num) : num :=
  match compare x y with
  | None => S754_nan
  | Some Lt => x
  | Some Gt => y
  | Some Eq => match y with S754_zero true => y | _ => x end
  end.

(** [Math.round x]: the nearest integer, a tie going up; NaN, the
    infinities and the zeros are kept, and a result of zero has the sign
    of [x]. *)
Definition round (x : num) : num :=
  match x with
  | S754_finite s m e =>
      if 0 <=? e then x
      else
        match Z.shiftl (2 * cond_Zopp s (Zpos m) + 2 ^ (- e)) (e - 1) with
        | Z0 => S754_zero s
        | z => ofZ z
        end
  | _ => x
  end.

Definition lit_0_7 : num := S754_finite false 6305039478318694 (-53).
Definition lit_0_8 : num := S754_finite false 7205759403792794 (-53).
Definition lit_1_3 : num := S754_finite false 5854679515581645 (-52).

End Num.

(** ** types.ts *)

Module Types.
Import JS.

Inductive ColorMode := Mono | Rgb | Palette.

Record ASCIIAnimationMeta := {
  version : Z;
  cols : Z;
  rows : Z;
  fps : Z;
  frameCount : Z;
  duration : Num.num;
  colorMode : ColorMode;
  palette : option (list jsstring);
  ramp : jsstring
}.

(** [char] is a string of one code unit. *)
Record DeltaChange := {
  index : Z;
  char : Z;
  colorR : option Z;
  colorG : option Z;
  colorB : option Z
}.

Inductive ASCIIFrame :=
| FrameFull (chars : jsstring) (colors : option (list Z))
| FrameDelta (changes : list DeltaChange).

Record ASCIIAnimation := {
  meta : ASCIIAnimationMeta;
  frames : list ASCIIFrame
}.

Definition includeColors (m : ASCIIAnimationMeta) : bool :=
  match colorMode m with Mono => false | _ => true end.

End Types.

(** ** asciiConverter.ts: the frame handed to the codec, and the raster *)

Record ImageData := {
  data : list Z;
  width : Z;
  height : Z
}.

Record ConvertedFrame := {
  chars : JS.jsstring;
  colors : list Z;
  rows : Z;
  cols : Z
}.

(** ** compress.ts *)

Module Compress.
Import JS Types.

Definition DELTA_THRESHOLD : Num.num := Num.lit_0_4.

(** The body of the scan loop at index [i]. *)
Definition cellChanged (prev curr : ConvertedFrame) (includeColors : bool)
    (i : Z) : bool :=
  let charChanged := strictNe (at_ (chars curr) i) (at_ (chars prev) i) in
  let colorChanged :=
    includeColors &&
    (strictNe (at_ (colors curr) (i * 3)) (at_ (colors prev) (i * 3)) ||
     strictNe (at_ (colors curr) (i * 3 + 1)) (at_ (colors prev) (i * 3 + 1)) ||
     strictNe (at_ (colors curr) (i * 3 + 2)) (at_ (colors prev) (i * 3 + 2))) in
  charChanged || colorChanged.

Definition makeChange (curr : ConvertedFrame) (includeColors : bool)
    (i : Z) : DeltaChange :=
  {| index := i;
     char := default 0 (at_ (chars curr) i);
     colorR := if includeColors then at_ (colors curr) (i * 3) else None;
     colorG := if includeColors then at_ (colors curr) (i * 3 + 1) else None;
     colorB := if includeColors then at_ (colors curr) (i * 3 + 2) else None |}.

(** [for (let i = ...; i < curr.chars.length; i++)], with [todo] cells
    left to visit; the result is what the loop pushes, in order. *)
Fixpoint scanChanges (prev curr : ConvertedFrame) (includeColors : bool)
    (i : Z) (todo : nat) : list DeltaChange :=
  match todo with
  | O => []
  | S todo' =>
      (if cellChanged prev curr includeColors i
       then [makeChange curr includeColors i] else [])
      ++ scanChanges prev curr includeColors (i + 1) todo'
  end.

(** [changes.length > curr.chars.length * DELTA_THRESHOLD] *)
Definition tooManyChanges (changes total : Z) : bool :=
  Num.Zgt changes (Num.mul (Num.ofZ total) DELTA_THRESHOLD).

Definition computeDelta (prev curr : ConvertedFrame)
    (includeColors : bool) : ASCIIFrame :=
  let changes := scanChanges prev curr includeColors 0 (length (chars curr)) in
  if tooManyChanges (Z.of_nat (length changes)) (Z.of_nat (length (chars curr)))
  then FrameFull (chars curr)
         (if includeColors then Some (colors curr) else None)
  else FrameDelta changes.

Definition createFullFrame (frame : ConvertedFrame)
    (includeColors : bool) : ASCIIFrame :=
  FrameFull (chars frame)
    (if includeColors then Some (colors frame) else None).

(** [while (n > 127) { bytes.push((n & 0x7f) | 0x80); n >>>= 7 }
    bytes.push(n)] *)
Equations? encodeVarInt (n : Z) : list Z by wf (Z.to_nat (Z.log2 n)) lt :=
  encodeVarInt n with Z_gt_dec n 127 := {
    | left _ =>
        Z.lor (Z.land n 127) 128 :: encodeVarInt (Z.shiftr (toUint32 n) 7)
    | right _ => [n] }.
Proof.
  unfold toUint32. rewrite Z.shiftr_div_pow2 by lia.
  assert (0 <= n mod 2 ^ 32 <= n)
    by (split; [apply Z.mod_pos_bound; lia | apply Z.mod_le; lia]).
  assert (7 <= Z.log2 n) by (apply Z.log2_le_pow2; lia).
  assert (Z.log2 ((n mod 2 ^ 32) / 2 ^ 7) <= Z.log2 (n / 2 ^ 7))
    by (apply Z.log2_le_mono, Z.div_le_mono; lia).
  assert (Z.log2 (n / 2 ^ 7) = Z.log2 n - 7)
    by (rewrite <- Z.shiftr_div_pow2, Z.log2_shiftr by lia; lia).
  pose proof (Z.log2_nonneg ((n mod 2 ^ 32) / 2 ^ 7)). lia.
Qed.

(** index.ts, the conversion loop of [main]: the first frame is stored
    whole, every later one against its predecessor. *)
Fixpoint encodeFrames (includeColors : bool) (prevFrame : option ConvertedFrame)
    (converted : list ConvertedFrame) : list ASCIIFrame :=
  match converted with
  | [] => []
  | c :: rest =>
      match prevFrame with
      | None => createFullFrame c includeColors
      | Some p => computeDelta p c includeColors
      end :: encodeFrames includeColors (Some c) rest
  end.

End Compress.

(** ** player.ts *)

Module Player.
Import JS Types.

Record DecodedFrame := {
  text : jsstring;
  colors : option (list Z)
}.

(** The running buffers [currentChars] and [currentColors] of
    [preDecodeFrames].  [currentColors] is mutated in place by the delta
    branch, but every value that leaves the loop is a [slice()] copy and a
    full frame installs a copy as well, so no two buffers alias and the
    buffers are passed as values. *)
Definition Buffers : Type := jsstring * option (list Z).

Definition initialBuffers (E : Engine) (m : ASCIIAnimationMeta)
    : outcome Buffers :=
  if includeColors m then
    try currentColors <- newUint8Array E (rows m * cols m * 3);
    Returned ([], Some currentColors)
  else Returned ([], None).

(** One iteration of [for (const change of deltaFrame.changes)]. *)
Definition applyChange (includeColors : bool)
    (st : list (option Z) * option (list Z)) (change : DeltaChange)
    : list (option Z) * option (list Z) :=
  let chars := arraySet st.1 (index change) (char change) in
  match st.2 with
  | Some currentColors =>
      if includeColors then
        let c1 := typedSet currentColors (index change * 3)
                    (nullish (colorR change) 0) in
        let c2 := typedSet c1 (index change * 3 + 1)
                    (nullish (colorG change) 0) in
        let c3 := typedSet c2 (index change * 3 + 2)
                    (nullish (colorB change) 0) in
        (chars, Some c3)
      else (chars, Some currentColors)
  | None => (chars, None)
  end.

(** The update of the buffers by one frame record (the first half of the
    loop body). *)
Definition applyFrame (includeColors : bool) (st : Buffers)
    (frame : ASCIIFrame) : Buffers :=
  match frame with
  | FrameFull chars colors =>
      (chars,
       match colors with
       | Some cs => if includeColors then Some (map u8 cs) else st.2
       | None => st.2
       end)
  | FrameDelta changes =>
      let st' := fold_left (applyChange includeColors) changes
                   (split st.1, st.2) in
      (join st'.1, st'.2)
  end.

(** [for (let i = 0; i < currentChars.length; i += meta.cols)
      lines.push(currentChars.slice(i, i + meta.cols))], with [fuel]
    bounding the number of lines. *)
Fixpoint sliceLines (fuel : nat) (cols : nat) (s : jsstring)
    : list jsstring :=
  match fuel with
  | O => []
  | S fuel' =>
      match s with
      | [] => []
      | _ => take cols s :: sliceLines fuel' cols (drop cols s)
      end
  end.

(** [lines.join('\n')] *)
Fixpoint joinLines (lines : list jsstring) : jsstring :=
  match lines with
  | [] => []
  | [l] => l
  | l :: ls => l ++ 10 :: joinLines ls
  end.

(** The lines of a buffer, [cols] symbols each, joined by newlines. *)
Definition linesText (cols : Z) (currentChars : jsstring) : jsstring :=
  joinLines (sliceLines (length currentChars) (Z.to_nat cols) currentChars).

(** The text of a frame; [None] when the line loop does not terminate
    (a non-empty buffer with [meta.cols <= 0] never advances [i]). *)
Definition formatText (cols : Z) (currentChars : jsstring)
    : option jsstring :=
  match currentChars with
  | [] => Some []
  | _ => if cols <=? 0 then None else Some (linesText cols currentChars)
  end.

Fixpoint preDecodeLoop (includeColors : bool) (cols : Z) (st : Buffers)
    (frames : list ASCIIFrame) : option (list DecodedFrame) :=
  match frames with
  | [] => Some []
  | frame :: rest =>
      let st' := applyFrame includeColors st frame in
      match formatText cols st'.1 with
      | None => None
      | Some t =>
          match preDecodeLoop includeColors cols st' rest with
          | None => None
          | Some ds => Some ({| text := t; colors := st'.2 |} :: ds)
          end
      end
  end.

(** [preDecodeFrames]: the [decodedFrames] it leaves, or the RangeError
    of the allocation of [currentColors]; [None] when the line loop does
    not terminate. *)
Definition preDecodeFrames (E : Engine) (a : ASCIIAnimation)
    : option (outcome (list DecodedFrame)) :=
  match initialBuffers E (meta a) with
  | Thrown e => Some (Thrown e)
  | Returned st =>
      decoded ← preDecodeLoop (includeColors (meta a)) (Types.cols (meta a))
                  st (frames a);
      Some (Returned decoded)
  end.

(** The buffers after each frame, in order: the resolved frames. *)
Fixpoint resolveFrames (includeColors : bool) (st : Buffers)
    (frames : list ASCIIFrame) : list Buffers :=
  match frames with
  | [] => []
  | frame :: rest =>
      let st' := applyFrame includeColors st frame in
      st' :: resolveFrames includeColors st' rest
  end.

Definition resolve (E : Engine) (a : ASCIIAnimation)
    : outcome (list Buffers) :=
  try st <- initialBuffers E (meta a);
  Returned (resolveFrames (includeColors (meta a)) st (frames a)).

(** *** Playback *)

(** What the player last assigned to its container: [textContent] or
    [innerHTML]. *)
Inductive Content := TextContent (s : jsstring) | InnerHTML (html : jsstring).

(** The fields of the class that showing a frame reads or writes; [loops]
    counts the wraps of [frameIndex], where [options.onLoop] is called.
    The timing fields ([lastFrameTime], [frameDuration], [rafId]) only
    decide when [tick] shows the next frame. *)
Record ASCIIPlayer := {
  animation : ASCIIAnimation;
  frameIndex : Z;
  decodedFrames : list DecodedFrame;
  container : Content;
  isDestroyed : bool;
  loops : nat
}.

(** A call either completes or throws the TypeError of a property read on
    [undefined]. *)
Inductive completion := Normal (p : ASCIIPlayer) | TypeError.

(** The constructor, for a container that holds [container]: the player,
    or what [preDecodeFrames] throws; [None] when [preDecodeFrames] does
    not terminate. *)
Definition construct (E : Engine) (animation : ASCIIAnimation)
    (container : Content) : option (outcome ASCIIPlayer) :=
  match preDecodeFrames E animation with
  | None => None
  | Some (Thrown e) => Some (Thrown e)
  | Some (Returned decoded) =>
      Some (Returned
              {| animation := animation; frameIndex := 0;
                 decodedFrames := decoded; container := container;
                 isDestroyed := false; loops := 0 |})
  end.

Definition setContainer (p : ASCIIPlayer) (c : Content) : ASCIIPlayer :=
  {| animation := animation p; frameIndex := frameIndex p;
     decodedFrames := decodedFrames p; container := c;
     isDestroyed := isDestroyed p; loops := loops p |}.

Definition setFrameIndex (p : ASCIIPlayer) (i : Z) (wrapped : bool)
    : ASCIIPlayer :=
  {| animation := animation p; frameIndex := i;
     decodedFrames := decodedFrames p; container := container p;
     isDestroyed := isDestroyed p;
     loops := if wrapped then S (loops p) else loops p |}.

(** [`${v}`] for an element read from a [Uint8Array]. *)
Definition showByte (v : option Z) : jsstring :=
  match v with
  | Some z => codes (pretty z)
  | None => codes "undefined"
  end.

(** [`rgb(${r},${g},${b})`] *)
Definition rgb (r g b : option Z) : jsstring :=
  codes "rgb(" ++ showByte r ++ codes "," ++ showByte g ++ codes ","
  ++ showByte b ++ codes ")".

(** [`<span style="color:${color}">`] *)
Definition spanOpen (color : jsstring) : jsstring :=
  codes "<span style=" ++ [34] ++ codes "color:" ++ color ++ [34; 62].

Definition spanClose : jsstring := codes "</span>".

(** [char === '<' ? '&lt;' : char === '>' ? '&gt;' : char === '&' ?
    '&amp;' : char] *)
Definition escapeChar (char : Z) : jsstring :=
  if char =? 60 then codes "&lt;"
  else if char =? 62 then codes "&gt;"
  else if char =? 38 then codes "&amp;"
  else [char].

(** [i % cols === 0] for [i > 0]: the remainder by 0 is NaN. *)
Definition rowStart (i cols : Z) : bool :=
  if cols =? 0 then false else Z.rem i cols =? 0.

(** The loop of [renderColoredFrame] from index [i] on, over the
    characters [chars] still to visit. *)
Fixpoint colorLoop (cols : Z) (colors : list Z) (i : Z) (chars : jsstring)
    (html prevColor : jsstring) : jsstring * jsstring :=
  match chars with
  | [] => (html, prevColor)
  | char :: rest =>
      let html := if (0 <? i) && rowStart i cols then html ++ [10] else html in
      let color := rgb (at_ colors (i * 3)) (at_ colors (i * 3 + 1))
                     (at_ colors (i * 3 + 2)) in
      let changed := bool_decide (color <> prevColor) in
      let html :=
        if changed
        then (if truthy prevColor then html ++ spanClose else html)
             ++ spanOpen color
        else html in
      let prevColor := if changed then color else prevColor in
      colorLoop cols colors (i + 1) rest (html ++ escapeChar char) prevColor
  end.

Definition renderColoredFrame (cols : Z) (frame : DecodedFrame) : Content :=
  match colors frame with
  | None => TextContent (text frame)
  | Some colors =>
      let chars := replaceAll 10 [] (text frame) in
      let '(html, prevColor) := colorLoop cols colors 0 chars [] [] in
      InnerHTML (if truthy prevColor then html ++ spanClose else html)
  end.

(** [renderFrame]: [frame.text] on a missing frame is a TypeError. *)
Definition renderFrame (p : ASCIIPlayer) : completion :=
  match at_ (decodedFrames p) (frameIndex p) with
  | None => TypeError
  | Some frame =>
      Normal
        (setContainer p
           match colorMode (meta (animation p)) with
           | Mono => TextContent (text frame)
           | _ => renderColoredFrame (Types.cols (meta (animation p))) frame
           end)
  end.

Definition seek (p : ASCIIPlayer) (frameIndex : Z) : completion :=
  renderFrame
    (setFrameIndex p
       (Z.max 0 (Z.min frameIndex (Z.of_nat (length (decodedFrames p)) - 1)))
       false).

(** [tick] at a time when a frame is due ([elapsed >= frameDuration]): the
    current frame is shown and the index advances, wrapping to 0. *)
Definition tickDue (p : ASCIIPlayer) : completion :=
  if isDestroyed p then Normal p
  else
    match renderFrame p with
    | TypeError => TypeError
    | Normal p =>
        let i := frameIndex p + 1 in
        if Z.of_nat (length (decodedFrames p)) <=? i
        then Normal (setFrameIndex p 0 true)
        else Normal (setFrameIndex p i false)
    end.

Definition destroy (p : ASCIIPlayer) : ASCIIPlayer :=
  {| animation := animation p; frameIndex := frameIndex p;
     decodedFrames := []; container := TextContent [];
     isDestroyed := true; loops := loops p |}.

End Player.

(** ** outputFormats.ts *)

Module OutputFormats.
Import JS Types.

Definition colorModeByte (c : ColorMode) : Z :=
  match c with Mono => 0 | Rgb => 1 | Palette => 2 end.

(** [headerView.setUint16(off, v, true)]: the value modulo 2^16, low byte
    first. *)
Definition uint16LE (v : Z) : list Z := [u16 v mod 256; u16 v / 256].

(** The 32 header bytes: magic, version, colour mode, cols, rows, fps,
    frame count, ramp length, 18 reserved zero bytes. *)
Definition header (m : ASCIIAnimationMeta) : list Z :=
  [65; 83; 67; 73; u8 (version m); colorModeByte (colorMode m)]
  ++ uint16LE (Types.cols m) ++ uint16LE (Types.rows m)
  ++ [u8 (fps m)] ++ uint16LE (frameCount m)
  ++ [u8 (Z.of_nat (length (ramp m)))]
  ++ replicate 18 0.

Definition changeBytes (includeColors : bool) (change : DeltaChange)
    : list Z :=
  map u8 (Compress.encodeVarInt (index change))
  ++ [u8 (char change)]
  ++ (if includeColors
      then [u8 (nullish (colorR change) 0);
            u8 (nullish (colorG change) 0);
            u8 (nullish (colorB change) 0)]
      else []).

Definition frameBytes (includeColors : bool) (frame : ASCIIFrame) : list Z :=
  match frame with
  | FrameFull chars colors =>
      [0] ++ map u8 chars
      ++ match colors with
         | Some cs => if includeColors then map u8 cs else []
         | None => []
         end
  | FrameDelta changes =>
      [1] ++ map u8 (Compress.encodeVarInt (Z.of_nat (length changes)))
      ++ concat (map (changeBytes includeColors) changes)
  end.

(** The bytes handed to [writeFileSync]. *)
Definition writeBinaryBytes (animation : ASCIIAnimation) : list Z :=
  header (meta animation)
  ++ map u8 (ramp (meta animation))
  ++ concat (map (frameBytes (includeColors (meta animation)))
               (frames animation)).

(** [writeBinary] has no [throw] and no check on the way to the write. *)
Definition writeBinary (animation : ASCIIAnimation) : outcome (list Z) :=
  Returned (writeBinaryBytes animation).

End OutputFormats.

(** ** The binary decoder (decoder.ts) *)

Module Decoder.
Import JS Types.

(** The loop of [decodeVarInt], reading from the unread suffix [rest];
    [value] is an int32 throughout.  At the end of the input [byte] is
    [undefined]: [undefined & 0x7f] and [undefined & 0x80] are both 0, so
    the loop leaves with [value] unchanged. *)
Fixpoint decodeVarIntLoop (rest : list Z) (value shift : Z) (bytesRead : nat)
    : Z * nat :=
  match rest with
  | [] => (toInt32 (Z.lor value (shl32 0 shift)), S bytesRead)
  | byte :: rest' =>
      let value := toInt32 (Z.lor value (shl32 (Z.land byte 127) shift)) in
      if Z.land byte 128 =? 0 then (value, S bytesRead)
      else decodeVarIntLoop rest' value (shift + 7) (S bytesRead)
  end.

(** [decodeVarInt(bytes, offset)] with [rest = drop offset bytes]; the
    result is [(value, bytesRead)]. *)
Definition decodeVarInt (rest : list Z) : Z * nat :=
  decodeVarIntLoop rest 0 0 0.

(** [view.getUint16(off, true)]: throws a RangeError outside the buffer. *)
Definition getUint16 (bytes : list Z) (off : nat) : outcome Z :=
  match bytes !! off, bytes !! S off with
  | Some lo, Some hi => Returned (lo + 256 * hi)
  | _, _ => Thrown RangeError
  end.

(** [bytes[i]] where the value is used as a number. *)
Definition byteAt (bytes : list Z) (i : nat) : Z := default 0 (bytes !! i).

Definition magicOK (bytes : list Z) : bool :=
  bool_decide (take 4 bytes = [65; 83; 67; 73]).

(** [for (let j = 0; j < changeCount; j++)], with [count] iterations left;
    returns the changes and the suffix left unread. *)
Fixpoint decodeChanges (includeColors : bool) (count : nat) (rest : list Z)
    : list DeltaChange * list Z :=
  match count with
  | O => ([], rest)
  | S count' =>
      let '(index, indexBytes) := decodeVarInt rest in
      let rest := drop indexBytes rest in
      let char := default 0 (head rest) in
      let rest := tail rest in
      let change :=
        if includeColors
        then {| index := index; char := char;
                colorR := rest !! 0%nat; colorG := rest !! 1%nat;
                colorB := rest !! 2%nat |}
        else {| index := index; char := char;
                colorR := None; colorG := None; colorB := None |} in
      let rest := if includeColors then drop 3 rest else rest in
      let '(changes, rest) := decodeChanges includeColors count' rest in
      (change :: changes, rest)
  end.

(** One iteration of the frame loop: the frame and the suffix left
    unread.  The symbols of a full frame are spread into one call of
    [String.fromCharCode]. *)
Definition decodeFrame (E : Engine) (includeColors : bool) (totalChars : Z)
    (rest : list Z) : outcome (ASCIIFrame * list Z) :=
  let frameType := head rest in
  let rest := tail rest in
  match frameType with
  | Some 0 =>
      try chars <- fromCharCodeSpread E (take (Z.to_nat totalChars) rest);
      let rest := drop (Z.to_nat totalChars) rest in
      if includeColors
      then Returned
             (FrameFull chars (Some (take (Z.to_nat (totalChars * 3)) rest)),
              drop (Z.to_nat (totalChars * 3)) rest)
      else Returned (FrameFull chars None, rest)
  | _ =>
      let '(changeCount, countBytes) := decodeVarInt rest in
      let rest := drop countBytes rest in
      let '(changes, rest) :=
        decodeChanges includeColors (Z.to_nat changeCount) rest in
      Returned (FrameDelta changes, rest)
  end.

Fixpoint decodeFrames (E : Engine) (includeColors : bool) (totalChars : Z)
    (frameCount : nat) (rest : list Z) : outcome (list ASCIIFrame) :=
  match frameCount with
  | O => Returned []
  | S frameCount' =>
      try decoded <- decodeFrame E includeColors totalChars rest;
      try frames <-
        decodeFrames E includeColors totalChars frameCount' decoded.2;
      Returned (decoded.1 :: frames)
  end.

(** [decodeBinary].  When the buffer has exactly 13 bytes [bytes[13]] is
    [undefined]: the ramp slice is empty and [offset] becomes NaN, so every
    later read is [undefined]; the suffix [drop 32 bytes] is empty in that
    case and reads the same way, so [rampLen] is taken as 0 there. *)
Definition decodeBinary (E : Engine) (bytes : list Z)
    : outcome ASCIIAnimation :=
  if negb (magicOK bytes) then Thrown BadMagic
  else
    let version := byteAt bytes 4 in
    let colorModeNum := byteAt bytes 5 in
    let colorMode :=
      if colorModeNum =? 0 then Mono
      else if colorModeNum =? 1 then Rgb else Palette in
    try cols <- getUint16 bytes 6;
    try rows <- getUint16 bytes 8;
    let fps := byteAt bytes 10 in
    try frameCount <- getUint16 bytes 11;
    let rampLen := byteAt bytes 13 in
    let rest := drop 32 bytes in
    try ramp <- fromCharCodeSpread E (take (Z.to_nat rampLen) rest);
    let rest := drop (Z.to_nat rampLen) rest in
    let totalChars := rows * cols in
    let includeColors := match colorMode with Mono => false | _ => true end in
    try frames <-
      decodeFrames E includeColors totalChars (Z.to_nat frameCount) rest;
    Returned
      {| meta := {| version := version; Types.cols := cols;
                    Types.rows := rows; fps := fps;
                    frameCount := frameCount;
                    duration := Num.div (Num.ofZ frameCount) (Num.ofZ fps);
                    colorMode := colorMode; palette := None;
                    ramp := ramp |};
         frames := frames |}.

End Decoder.

(** ** index.ts: the animation [main] assembles *)

Module Index.

Record ProcessOptions := {
  cols : Z;
  fps : Z;
  colorMode : Types.ColorMode;
  ramp : JS.jsstring
}.

(** [rows] after the conversion loop: 0, overwritten by [converted.rows]
    of every frame in turn. *)
Definition finalRows (converted : list ConvertedFrame) : Z :=
  fold_left (fun _ c => rows c) converted 0.

(** The [animation] object handed to the writers, for the frames the
    conversion loop got from [convertToASCII]. *)
Definition buildAnimation (options : ProcessOptions)
    (converted : list ConvertedFrame) : Types.ASCIIAnimation :=
  let includeColors :=
    match colorMode options with Types.Mono => false | _ => true end in
  let frames := Compress.encodeFrames includeColors None converted in
  {| Types.meta :=
       {| Types.version := 1;
          Types.cols := cols options;
          Types.rows := finalRows converted;
          Types.fps := fps options;
          Types.frameCount := Z.of_nat (length frames);
          Types.duration :=
            Num.div (Num.ofZ (Z.of_nat (length frames)))
              (Num.ofZ (fps options));
          Types.colorMode := colorMode options;
          Types.palette := None;
          Types.ramp := ramp options |};
     Types.frames := frames |}.

End Index.

(** ** asciiConverter.ts *)

Module AsciiConverter.
Import JS.

Definition LUMA_R : Z := 54.
Definition LUMA_G : Z := 183.
Definition LUMA_B : Z := 19.

Record ConvertOptions := {
  optCols : Z;
  optRamp : jsstring;
  optColorMode : Types.ColorMode
}.

(** [lumToChar]: a [Uint8Array(256)] filled with
    [Math.min(Math.floor((lum * rampLen) / 256), rampLen - 1)].  The
    product is an integer below 2^53 and the division by 256 is exact in
    binary64, so the floor is the integer quotient. *)
Definition buildLumToChar (rampLen : Z) : list Z :=
  map (fun lum => u8 (Z.min ((lum * rampLen) / 256) (rampLen - 1)))
    (seqZ 0 256).

(** The values a loop [for (let v = start; v < stop; v += step)] runs
    through.  [step] is [None] when it is NaN: [v] is NaN after the first
    round and the loop ends.  [fuel] bounds the rounds; [stop - start]
    rounds are enough because a step that is a number is at least 1. *)
Fixpoint loopValues (fuel : nat) (v : option Z) (stop : Z) (step : option Z)
    : list Z :=
  match fuel with
  | O => []
  | S fuel' =>
      match v with
      | Some z =>
          if z <? stop
          then z :: loopValues fuel' (s ← step; Some (z + s)) stop step
          else []
      | None => []
      end
  end.

(** Sum of one channel over the sampled pixels; [None] is NaN (a read
    outside [data] gives [undefined]). *)
Definition addSample (total : option Z) (v : option Z) : option Z :=
  t ← total; x ← v; Some (t + x).

Definition channelTotal (data : list Z) (offsets : list Z) (channel : Z)
    : option Z :=
  fold_left (fun total i => addSample total (at_ data (i + channel)))
    offsets (Some 0).

(** The pixel rectangle of a cell and its sampling step. *)
Record CellRect := {
  baseX : Z; endX : Z; baseY : Z; endY : Z; step : option Z
}.

(** [Math.floor] of a number that is finite where this is used: inside the
    row and column loops [rows >= 1] and [cols >= 1], so [cellH] and
    [cellW] are finite and every product and sum below is bounded by the
    raster size. *)
Definition floorZ (x : Num.num) : Z := default 0 (Num.floor x).

Definition cellRect (width height : Z) (cellW cellH : Num.num)
    (row col : Z) : CellRect :=
  let baseY := floorZ (Num.mul (Num.ofZ row) cellH) in
  let endY := Z.min (floorZ (Num.add (Num.ofZ baseY) cellH)) height in
  let baseX := floorZ (Num.mul (Num.ofZ col) cellW) in
  let endX := Z.min (floorZ (Num.add (Num.ofZ baseX) cellW)) width in
  let step :=
    s ← Num.floor
          (Num.sqrt (Num.div (Num.ofZ ((endX - baseX) * (endY - baseY)))
                       (Num.ofZ 16)));
    Some (Z.max 1 s) in
  {| baseX := baseX; endX := endX; baseY := baseY; endY := endY;
     step := step |}.

(** The offsets [i = (y * width + x) * 4] visited by the two sampling
    loops, in the order they are visited. *)
Definition sampleOffsets (width : Z) (r : CellRect) : list Z :=
  let ys := loopValues (Z.to_nat (endY r - baseY r)) (Some (baseY r))
              (endY r) (step r) in
  let xs := loopValues (Z.to_nat (endX r - baseX r)) (Some (baseX r))
              (endX r) (step r) in
  y ← ys; x ← xs; [(y * width + x) * 4].

(** [Math.floor(total / sampleCount)]: both are integers, the total below
    2^53, so the rounded quotient has the floor of the exact one. *)
Definition average (total : option Z) (sampleCount : Z) : option Z :=
  t ← total; Some (t / sampleCount).

(** [(LUMA_R * avgR + LUMA_G * avgG + LUMA_B * avgB) >> 8]; a NaN operand
    makes the sum NaN, which [>>] reads as 0. *)
Definition luminance (avgR avgG avgB : option Z) : Z :=
  match avgR, avgG, avgB with
  | Some r, Some g, Some b =>
      Z.shiftr (toInt32 (LUMA_R * r + LUMA_G * g + LUMA_B * b)) 8
  | _, _, _ => 0
  end.

(** What one cell contributes: the entry of [chars] ([None] when the ramp
    lookup is [undefined]) and its three colour bytes. *)
Record CellOut := {
  symbol : option Z;
  red : Z; green : Z; blue : Z
}.

Definition convertCell (imageData : ImageData) (ramp : jsstring)
    (lumToChar : list Z) (r : CellRect) : CellOut :=
  let offsets := sampleOffsets (width imageData) r in
  let totalR := channelTotal (data imageData) offsets 0 in
  let totalG := channelTotal (data imageData) offsets 1 in
  let totalB := channelTotal (data imageData) offsets 2 in
  let sampleCount := Z.of_nat (length offsets) in
  let sampleCount := if sampleCount =? 0 then 1 else sampleCount in
  let avgR := average totalR sampleCount in
  let avgG := average totalG sampleCount in
  let avgB := average totalB sampleCount in
  let lum := luminance avgR avgG avgB in
  let charIndex := at_ lumToChar lum in
  {| symbol := i ← charIndex; at_ ramp i;
     red := u8 (default 0 avgR);
     green := u8 (default 0 avgG);
     blue := u8 (default 0 avgB) |}.

(** The cells in the order the loops visit them. *)
Definition gridCells (rows cols : Z) : list (Z * Z) :=
  row ← seqZ 0 rows; col ← seqZ 0 cols; [(row, col)].

(** [convertToASCII].  [rows] is [Math.floor(height / cellH)], NaN or
    infinite when [Num.floor] gives [None]; [new Array(rows * cols)] throws
    a RangeError unless the product is an integer in [0, 2^32 - 1], which
    excludes the products of NaN and of the infinities. *)
Definition convertToASCII (imageData : ImageData) (options : ConvertOptions)
    : outcome ConvertedFrame :=
  let cols := optCols options in
  let ramp := optRamp options in
  let charAspect := Num.lit_0_5 in
  let cellW := Num.div (Num.ofZ (width imageData)) (Num.ofZ cols) in
  let cellH := Num.div cellW charAspect in
  match Num.floor (Num.div (Num.ofZ (height imageData)) cellH) with
  | None => Thrown RangeError
  | Some rows =>
      let totalChars := rows * cols in
      if (0 <=? totalChars) && (totalChars <? 2 ^ 32) then
        let lumToChar := buildLumToChar (Z.of_nat (length ramp)) in
        let outs :=
          map (fun rc => convertCell imageData ramp lumToChar
                           (cellRect (width imageData) (height imageData)
                              cellW cellH rc.1 rc.2))
            (gridCells rows cols) in
        let written := o ← outs; [red o; green o; blue o] in
        Returned
          {| chars := join (map symbol outs);
             colors :=
               written ++
               replicate (Z.to_nat (totalChars * 3) - length written) 0;
             rows := rows;
             cols := cols |}
      else Thrown RangeError
  end.

End AsciiConverter.

(** ** aspectRatio.ts *)

Module AspectRatio.

Definition CHAR_ASPECT_RATIO : Num.num := Num.lit_0_5.

Record SamplingGrid := {
  cols : Z;
  rows : Num.num;
  cellW : Num.num;
  cellH : Num.num
}.

Definition calculateSamplingGrid (videoWidth videoHeight targetCols : Z)
    : SamplingGrid :=
  let cellW := Num.div (Num.ofZ videoWidth) (Num.ofZ targetCols) in
  let cellH := Num.div cellW CHAR_ASPECT_RATIO in
  let rows := Num.floorN (Num.div (Num.ofZ videoHeight) cellH) in
  {| cols := targetCols; rows := rows; cellW := cellW; cellH := cellH |}.

End AspectRatio.

(** ** ASCIIRenderer.ts *)

Module ASCIIRenderer.
Import JS.

Inductive RampType := minimal | standard | detailed | blocks | binary.

(** [ASCII_RAMPS] *)
Definition ASCII_RAMPS (r : RampType) : jsstring :=
  match r with
  | minimal => codes " .:+*#@"
  | standard => codes " .:-=+*#%@"
  | detailed =>
      codes " .'`^" ++ [34]
      ++ codes ",:;Il!i><~+_-?][}{1)(|\/tfjrxnuvczXYUJCLQ0OZmwqpdbkhao*#MW&8%B@$"
  | blocks => [32; 9617; 9618; 9619; 9608]
  | binary => codes "01"
  end.

Inductive ColorMode := mono | color | palette.

Record ASCIIFrame := {
  rows : Num.num;
  cols : Z;
  charCodes : list Z;
  colors : list Z
}.

Definition LUMA_R : Z := 54.
Definition LUMA_G : Z := 183.
Definition LUMA_B : Z := 19.

(** The fields of the class that conversion reads or writes, in the
    states in which [ramp] holds a string and [cols] an integer.  The two
    reusable buffers only save allocations: every cell of a returned frame
    is written before [render] returns, so they are not part of the state
    here. *)
Record Renderer := {
  ramp : jsstring;
  rampCodes : list Z;
  colorMode : ColorMode;
  invert : bool;
  rcols : Z;
  lumToCharLUT : list Z
}.

(** The table [buildLumLUT] leaves in [lumToCharLUT]; as in the
    preprocessor the division by 256 is exact and the floor is the integer
    quotient. *)
Definition lumTable (rampLen : Z) (invert : bool) : list Z :=
  map (fun lum =>
         let adjusted := if invert then 255 - lum else lum in
         u8 (Z.min ((adjusted * rampLen) / 256) (rampLen - 1)))
    (seqZ 0 256).

Definition buildLumLUT (r : Renderer) : Renderer :=
  {| ramp := ramp r; rampCodes := rampCodes r; colorMode := colorMode r;
     invert := invert r; rcols := rcols r;
     lumToCharLUT := lumTable (Z.of_nat (length (ramp r))) (invert r) |}.

Definition updateRampCodes (r : Renderer) : Renderer :=
  buildLumLUT
    {| ramp := ramp r; rampCodes := map u8 (ramp r);
       colorMode := colorMode r; invert := invert r; rcols := rcols r;
       lumToCharLUT := lumToCharLUT r |}.

(** The renderer after the field initialisers and the constructor. *)
Definition create : Renderer :=
  buildLumLUT
    (updateRampCodes
       {| ramp := ASCII_RAMPS minimal; rampCodes := [];
          colorMode := mono; invert := false; rcols := 80;
          lumToCharLUT := replicate 256 0 |}).

(** [Math.max(20, Math.min(200, options.cols))], the number [setOptions]
    stores in [this.cols] for an [options.cols] that is not undefined. *)
Definition clampedCols (cols : Num.num) : Num.num :=
  Num.max (Num.ofZ 20) (Num.min (Num.ofZ 200) cols).

(** The assignments [this.cols = c], [this.ramp = s] and
    [this.invert = b]. *)
Definition setCols (r : Renderer) (c : Z) : Renderer :=
  {| ramp := ramp r; rampCodes := rampCodes r; colorMode := colorMode r;
     invert := invert r; rcols := c; lumToCharLUT := lumToCharLUT r |}.
Definition setRamp (r : Renderer) (s : jsstring) : Renderer :=
  {| ramp := s; rampCodes := rampCodes r; colorMode := colorMode r;
     invert := invert r; rcols := rcols r; lumToCharLUT := lumToCharLUT r |}.
Definition setInvert (r : Renderer) (b : bool) : Renderer :=
  {| ramp := ramp r; rampCodes := rampCodes r; colorMode := colorMode r;
     invert := b; rcols := rcols r; lumToCharLUT := lumToCharLUT r |}.

(** The pixel rectangle of a cell in [render]: [| 0] takes the int32 of
    the number. *)
Definition cellRect (width height : Z) (cellW cellH : Num.num)
    (row col : Z) : Z * Z * Z * Z :=
  let baseY := Num.toInt32 (Num.mul (Num.ofZ row) cellH) in
  let endY := Z.min (baseY + Num.toInt32 cellH) height in
  let baseX := Num.toInt32 (Num.mul (Num.ofZ col) cellW) in
  let endX := Z.min (baseX + Num.toInt32 cellW) width in
  (baseX, endX, baseY, endY).

Definition sampleOffsets (width step : Z) (rect : Z * Z * Z * Z) : list Z :=
  let '(baseX, endX, baseY, endY) := rect in
  let ys := AsciiConverter.loopValues (Z.to_nat (endY - baseY)) (Some baseY)
              endY (Some step) in
  let xs := AsciiConverter.loopValues (Z.to_nat (endX - baseX)) (Some baseX)
              endX (Some step) in
  y ← ys; x ← xs; [shl32 (y * width + x) 2].

(** [(total / sampleCount) | 0]: 0 for NaN, else the quotient truncated
    towards zero (the total is an integer below 2^53, so rounding the
    quotient does not change its integer part). *)
Definition average (total : option Z) (sampleCount : Z) : Z :=
  match total with
  | Some t => toInt32 (Z.quot t sampleCount)
  | None => 0
  end.

Definition luminance (avgR avgG avgB : Z) : Z :=
  Z.shiftr (toInt32 (LUMA_R * avgR + LUMA_G * avgG + LUMA_B * avgB)) 8.

(** [this.rampCodes[this.lumToCharLUT[lum]]] *)
Definition symbolCode (r : Renderer) (lum : Z) : option Z :=
  charIndex ← at_ (lumToCharLUT r) lum; at_ (rampCodes r) charIndex.

(** The four bytes a cell stores: its character code and its colour. *)
Definition renderCell (r : Renderer) (imageData : ImageData) (step : Z)
    (rect : Z * Z * Z * Z) : list Z * list Z :=
  let offsets := sampleOffsets (width imageData) step rect in
  let totalR := AsciiConverter.channelTotal (data imageData) offsets 0 in
  let totalG := AsciiConverter.channelTotal (data imageData) offsets 1 in
  let totalB := AsciiConverter.channelTotal (data imageData) offsets 2 in
  let sampleCount := Z.of_nat (length offsets) in
  let sampleCount := if sampleCount =? 0 then 1 else sampleCount in
  let avgR := average totalR sampleCount in
  let avgG := average totalG sampleCount in
  let avgB := average totalB sampleCount in
  let lum := luminance avgR avgG avgB in
  ([u8 (default 0 (symbolCode r lum))], [u8 avgR; u8 avgG; u8 avgB]).

(** [render].  [new Uint8Array(rows * cols)] throws a RangeError for a
    negative or infinite length and takes NaN as 0.  An infinite [rows]
    comes from [cellH = 0], which needs [cols <> 0], so the length is
    infinite with it; for a NaN [rows] no loop body runs. *)
Definition render (r : Renderer) (imageData : ImageData)
    : outcome ASCIIFrame :=
  let grid := AspectRatio.calculateSamplingGrid
                (width imageData) (height imageData) (rcols r) in
  let totalChars :=
    Num.mul (AspectRatio.rows grid) (Num.ofZ (AspectRatio.cols grid)) in
  match Num.toIndex totalChars with
  | None => Thrown RangeError
  | Some total =>
      let cellW := AspectRatio.cellW grid in
      let cellH := AspectRatio.cellH grid in
      let cellArea := Num.mul (Num.floorN cellW) (Num.floorN cellH) in
      let step :=
        if Num.gtZ cellArea 200 then 4
        else if Num.gtZ cellArea 100 then 3
        else if Num.gtZ cellArea 50 then 2 else 1 in
      let cells :=
        match Num.floor (AspectRatio.rows grid) with
        | Some rows =>
            AsciiConverter.gridCells rows (AspectRatio.cols grid)
        | None => []
        end in
      let outs :=
        map (fun rc => renderCell r imageData step
                         (cellRect (width imageData) (height imageData)
                            cellW cellH rc.1 rc.2))
          cells in
      let codes := o ← outs; o.1 in
      let rgbs := o ← outs; o.2 in
      Returned
        {| rows := AspectRatio.rows grid;
           cols := AspectRatio.cols grid;
           charCodes :=
             codes ++ replicate (Z.to_nat total - length codes) 0;
           colors :=
             rgbs ++ replicate (Z.to_nat (total * 3) - length rgbs) 0 |}
  end.

(** [frameToText].  [new Array(rows)] throws a RangeError unless [rows] is
    an integer in [0, 2^32 - 1]; every line is the string of the codes in
    [charCodes.subarray(start, start + cols)]. *)
Definition frameToText (frame : ASCIIFrame) : outcome jsstring :=
  match Num.arrayLength (rows frame) with
  | None => Thrown RangeError
  | Some nrows =>
      Returned
        (Player.joinLines
           (map (fun row =>
                   let start := row * cols frame in
                   subarray (charCodes frame) start (start + cols frame))
              (seqZ 0 nrows)))
  end.

(** [str.replace(/&/g, '&amp;').replace(/</g, '&lt;').replace(/>/g, '&gt;')] *)
Definition escapeHTML (str : jsstring) : jsstring :=
  replaceAll 62 (codes "&gt;")
    (replaceAll 60 (codes "&lt;") (replaceAll 38 (codes "&amp;") str)).

Definition frameToColoredHTML (r : Renderer) (frame : ASCIIFrame)
    : outcome jsstring :=
  match colorMode r with
  | mono => try t <- frameToText frame; Returned (escapeHTML t)
  | _ => frameToText frame
  end.

End ASCIIRenderer.

(** ** The render worker (ascii.worker.ts) *)

Module Worker.
Import JS.

Definition LUMA_R : Z := 54.
Definition LUMA_G : Z := 183.
Definition LUMA_B : Z := 19.

(** [currentOptions] *)
Record Options := {
  cols : Z;
  rampCodes : list Z;
  rampLength : Z;
  invert : bool
}.

(** The [options] of a [setOptions] message. *)
Record OptionsMessage := {
  msgCols : Z;
  msgRampCodes : list Z;
  msgInvert : bool
}.

Definition initialOptions : Options :=
  {| cols := 80; rampCodes := [32; 46; 58; 43; 42; 35; 64];
     rampLength := 7; invert := false |}.

(** The [setOptions] branch of [onmessage]. *)
Definition setOptions (options : OptionsMessage) : Options :=
  {| cols := msgCols options;
     rampCodes := map u8 (msgRampCodes options);
     rampLength := Z.of_nat (length (msgRampCodes options));
     invert := msgInvert options |}.

Definition fastLuminance (r g b : Z) : Z :=
  Z.shiftr (toInt32 (LUMA_R * r + LUMA_G * g + LUMA_B * b)) 8.

Definition getCharIndex (currentOptions : Options) (lum : Z) : Z :=
  let adjusted := if invert currentOptions then 255 - lum else lum in
  Z.min (Z.shiftr (toInt32 (adjusted * rampLength currentOptions)) 8)
    (rampLength currentOptions - 1).

(** [currentOptions.rampCodes[getCharIndex(lum)]] *)
Definition symbolCode (currentOptions : Options) (lum : Z) : option Z :=
  at_ (rampCodes currentOptions) (getCharIndex currentOptions lum).

End Worker.

(** ** PerformanceManager.ts *)

Module PerformanceManager.
Import JS.

(** The fields of the class.  The FPS callback only receives
    [currentFPS] and [lastFrameTimestamp] is never used: they are left
    out.  Column counts, the target FPS and the frame counter are
    integers; times are numbers. *)
Record Manager := {
  frameTimes : list Num.num;
  targetFPS : Z;
  currentCols : Z;
  minCols : Z;
  maxCols : Z;
  frameCount : Z;
  lastFPSUpdate : Num.num;
  currentFPS : Num.num;
  isLowEndDevice : bool
}.

(** What [detectDeviceCapability] reads from [navigator]: whether the
    user agent matches the mobile pattern, [deviceMemory] (undefined where
    the browser does not have it) and [hardwareConcurrency]. *)
Record Device := {
  isMobile : bool;
  deviceMemory : option Num.num;
  hardwareConcurrency : option Z
}.

Definition isLowEnd (d : Device) : bool :=
  let isLowMemory :=
    match deviceMemory d with
    | Some memory => Num.ltb memory (Num.ofZ 4)
    | None => false
    end in
  let cores :=
    match hardwareConcurrency d with
    | Some c => if c =? 0 then 2 else c
    | None => 2
    end in
  let isLowCores := cores <? 4 in
  isMobile d || isLowMemory || isLowCores.

(** The field initialisers followed by the constructor. *)
Definition construct (d : Device) : Manager :=
  let low := isLowEnd d in
  {| frameTimes := [];
     targetFPS := if low then 24 else 30;
     currentCols := if low then 60 else 80;
     minCols := 40;
     maxCols := if low then 100 else 160;
     frameCount := 0;
     lastFPSUpdate := Num.ofZ 0;
     currentFPS := Num.ofZ 0;
     isLowEndDevice := low |}.

Definition setFrameTimes (m : Manager) (ts : list Num.num) : Manager :=
  {| frameTimes := ts; targetFPS := targetFPS m;
     currentCols := currentCols m; minCols := minCols m;
     maxCols := maxCols m; frameCount := frameCount m;
     lastFPSUpdate := lastFPSUpdate m; currentFPS := currentFPS m;
     isLowEndDevice := isLowEndDevice m |}.

Definition setCurrentCols (m : Manager) (c : Z) : Manager :=
  {| frameTimes := frameTimes m; targetFPS := targetFPS m;
     currentCols := c; minCols := minCols m;
     maxCols := maxCols m; frameCount := frameCount m;
     lastFPSUpdate := lastFPSUpdate m; currentFPS := currentFPS m;
     isLowEndDevice := isLowEndDevice m |}.

(** [measureFrame]: [push], then [shift] when more than 60 are held. *)
Definition measureFrame (m : Manager) (duration : Num.num) : Manager :=
  let pushed := frameTimes m ++ [duration] in
  setFrameTimes m
    (if (60 <? length pushed)%nat then drop 1 pushed else pushed).

(** [frameEnd(startTime)], where [performance.now()] returns [now]. *)
Definition frameEnd (m : Manager) (now startTime : Num.num) : Manager :=
  let duration := Num.sub now startTime in
  let m := measureFrame m duration in
  let count := frameCount m + 1 in
  if Num.geb (Num.sub now (lastFPSUpdate m)) (Num.ofZ 500) then
    let elapsed := Num.sub now (lastFPSUpdate m) in
    {| frameTimes := frameTimes m; targetFPS := targetFPS m;
       currentCols := currentCols m; minCols := minCols m;
       maxCols := maxCols m; frameCount := 0;
       lastFPSUpdate := now;
       currentFPS :=
         Num.round (Num.mul (Num.div (Num.ofZ count) elapsed)
                      (Num.ofZ 1000));
       isLowEndDevice := isLowEndDevice m |}
  else
    {| frameTimes := frameTimes m; targetFPS := targetFPS m;
       currentCols := currentCols m; minCols := minCols m;
       maxCols := maxCols m; frameCount := count;
       lastFPSUpdate := lastFPSUpdate m; currentFPS := currentFPS m;
       isLowEndDevice := isLowEndDevice m |}.

(** [frameTimes.reduce((a, b) => a + b, 0) / frameTimes.length] *)
Definition average (ts : list Num.num) : Num.num :=
  Num.div (fold_left Num.add ts (Num.ofZ 0)) (Num.ofZ (Z.of_nat (length ts))).

(** [getRecommendedCols]: the manager after the call and the value
    returned. *)
Definition getRecommendedCols (m : Manager) : Manager * Z :=
  if (length (frameTimes m) <? 10)%nat then (m, currentCols m)
  else
    let avgFrameTime := average (frameTimes m) in
    let estimatedFPS := Num.div (Num.ofZ 1000) avgFrameTime in
    let m :=
      if Num.ltb estimatedFPS (Num.mul (Num.ofZ (targetFPS m)) Num.lit_0_7)
      then setCurrentCols m (Z.max (minCols m) (currentCols m - 10))
      else if Num.gtb estimatedFPS
                (Num.mul (Num.ofZ (targetFPS m)) Num.lit_1_3)
      then setCurrentCols m (Z.min (maxCols m) (currentCols m + 5))
      else m in
    (m, currentCols m).

Definition setCols (m : Manager) (cols : Z) : Manager :=
  setCurrentCols m (Z.max (minCols m) (Z.min (maxCols m) cols)).

Definition setTargetFPS (m : Manager) (fps : Z) : Manager :=
  {| frameTimes := frameTimes m; targetFPS := Z.max 15 (Z.min 60 fps);
     currentCols := currentCols m; minCols := minCols m;
     maxCols := maxCols m; frameCount := frameCount m;
     lastFPSUpdate := lastFPSUpdate m; currentFPS := currentFPS m;
     isLowEndDevice := isLowEndDevice m |}.

Record PerformanceMetrics := {
  fps : Num.num;
  avgFrameTime : Num.num;
  recommendedCols : Z;
  isThrottled : bool
}.

Definition getMetrics (m : Manager) : PerformanceMetrics :=
  let avgFrameTime :=
    if (0 <? length (frameTimes m))%nat then average (frameTimes m)
    else Num.ofZ 0 in
  let estimatedFPS :=
    if Num.gtb avgFrameTime (Num.ofZ 0)
    then Num.div (Num.ofZ 1000) avgFrameTime else Num.ofZ 0 in
  {| fps := currentFPS m;
     avgFrameTime := avgFrameTime;
     recommendedCols := currentCols m;
     isThrottled :=
       Num.ltb estimatedFPS (Num.mul (Num.ofZ (targetFPS m)) Num.lit_0_8) |}.

(** [reset], where [performance.now()] returns [now]. *)
Definition reset (m : Manager) (now : Num.num) : Manager :=
  {| frameTimes := []; targetFPS := targetFPS m;
     currentCols := currentCols m; minCols := minCols m;
     maxCols := maxCols m; frameCount := 0;
     lastFPSUpdate := now; currentFPS := Num.ofZ 0;
     isLowEndDevice := isLowEndDevice m |}.

End PerformanceManager.

(** ** ColorQuantizer.ts *)

Module ColorQuantizer.
Import JS.

(** An [RGB] object.  A channel the object does not have reads as
    [undefined]; the others are integers, and the integer arithmetic of
    [colorDistance] is exact on them as long as the sums stay below 2^53
    (they do for bytes). *)
Record RGB := { r : option Z; g : option Z; b : option Z }.

Definition rgb (r g b : Z) : RGB := {| r := Some r; g := Some g; b := Some b |}.

Definition DEFAULT_PALETTE : list RGB :=
  [ rgb 0 0 0; rgb 255 255 255; rgb 255 85 85; rgb 85 255 85;
    rgb 85 85 255; rgb 255 255 85; rgb 255 85 255; rgb 85 255 255;
    rgb 255 170 85; rgb 170 85 255; rgb 128 128 128; rgb 85 85 85;
    rgb 170 170 170; rgb 170 85 85; rgb 85 170 85; rgb 85 85 170 ].

Definition ANSI_PALETTE : list RGB :=
  [ rgb 0 0 0; rgb 128 0 0; rgb 0 128 0; rgb 128 128 0;
    rgb 0 0 128; rgb 128 0 128; rgb 0 128 128; rgb 192 192 192;
    rgb 128 128 128; rgb 255 0 0; rgb 0 255 0; rgb 255 255 0;
    rgb 0 0 255; rgb 255 0 255; rgb 0 255 255; rgb 255 255 255 ].

(** The fields of the class: the palette and the [Map] from keys to the
    colours found for them (a stored [undefined] is [None]). *)
Record Quantizer := {
  palette : list RGB;
  cache : gmap jsstring (option RGB)
}.

Definition construct : Quantizer :=
  {| palette := DEFAULT_PALETTE; cache := ∅ |}.

Definition setPalette (q : Quantizer) (palette : list RGB) : Quantizer :=
  {| palette := palette; cache := ∅ |}.

Definition useANSIPalette (q : Quantizer) : Quantizer :=
  setPalette q ANSI_PALETTE.

Definition useDefaultPalette (q : Quantizer) : Quantizer :=
  setPalette q DEFAULT_PALETTE.

(** [colorDistance]: an [undefined] channel makes every term it enters
    NaN, and with it the sum and the root. *)
Definition colorDistance (c1 c2 : RGB) : Num.num :=
  match r c1, g c1, b c1, r c2, g c2, b c2 with
  | Some r1, Some g1, Some b1, Some r2, Some g2, Some b2 =>
      let rMean := Num.div (Num.ofZ (r1 + r2)) (Num.ofZ 2) in
      let dR := r1 - r2 in
      let dG := g1 - g2 in
      let dB := b1 - b2 in
      let rWeight := if Num.ltb rMean (Num.ofZ 128) then 2 else 3 in
      let bWeight := if Num.ltb rMean (Num.ofZ 128) then 3 else 2 in
      Num.sqrt
        (Num.ofZ (rWeight * dR * dR + 4 * dG * dG + bWeight * dB * dB))
  | _, _, _, _, _, _ => S754_nan
  end.

(** [`${v}`] for a channel. *)
Definition showChannel (v : option Z) : jsstring :=
  match v with
  | Some z => codes (pretty z)
  | None => codes "undefined"
  end.

(** [`${color.r},${color.g},${color.b}`] *)
Definition key (color : RGB) : jsstring :=
  showChannel (r color) ++ [44] ++ showChannel (g color) ++ [44]
  ++ showChannel (b color).

(** [for (const p of this.palette)] of [snapToPalette], with the running
    [minDist] and [closest]. *)
Fixpoint nearestLoop (color : RGB) (ps : list RGB) (minDist : Num.num)
    (closest : option RGB) : option RGB :=
  match ps with
  | [] => closest
  | p :: rest =>
      let dist := colorDistance color p in
      if Num.ltb dist minDist then nearestLoop color rest dist (Some p)
      else nearestLoop color rest minDist closest
  end.

(** The search of [snapToPalette] when the cache has no answer. *)
Definition nearest (palette : list RGB) (color : RGB) : option RGB :=
  nearestLoop color palette (S754_infinity false) (head palette).

(** [snapToPalette]: the quantizer after the call and the value returned
    ([None] for [undefined], which an empty palette gives). *)
Definition snapToPalette (q : Quantizer) (color : RGB)
    : Quantizer * option RGB :=
  match cache q !! key color with
  | Some (Some cached) => (q, Some cached)
  | _ =>
      let closest := nearest (palette q) color in
      let kept :=
        if 10000 <? Z.of_nat (size (cache q)) then ∅ else cache q in
      ({| palette := palette q; cache := <[key color := closest]> kept |},
       closest)
  end.

(** [colors.map((c) => this.snapToPalette(c))] *)
Fixpoint quantizeColors (q : Quantizer) (colors : list RGB)
    : Quantizer * list (option RGB) :=
  match colors with
  | [] => (q, [])
  | c :: rest =>
      let '(q, x) := snapToPalette q c in
      let '(q, xs) := quantizeColors q rest in
      (q, x :: xs)
  end.

Definition getPalette (q : Quantizer) : list RGB := palette q.

End ColorQuantizer.

(** ** main.ts *)

Module Main.
Import JS.

(** The loop of [applyPaletteQuantization] from index [i] on, over the
    colour buffer of the current frame; [None] is the TypeError of reading
    a channel of [undefined], which [snapToPalette] returns when the
    palette is empty; a channel that is [undefined] is stored as 0.
    [fuel] bounds the number of iterations. *)
Fixpoint quantizeLoop (fuel : nat) (q : ColorQuantizer.Quantizer)
    (colors : list Z) (i : Z)
    : option (ColorQuantizer.Quantizer * list Z) :=
  match fuel with
  | O => Some (q, colors)
  | S fuel =>
      if i <? Z.of_nat (length colors) then
        let '(q, quantized) :=
          ColorQuantizer.snapToPalette q
            {| ColorQuantizer.r := at_ colors i;
               ColorQuantizer.g := at_ colors (i + 1);
               ColorQuantizer.b := at_ colors (i + 2) |} in
        match quantized with
        | None => None
        | Some quantized =>
            let colors :=
              typedSet colors i (default 0 (ColorQuantizer.r quantized)) in
            let colors :=
              typedSet colors (i + 1)
                (default 0 (ColorQuantizer.g quantized)) in
            let colors :=
              typedSet colors (i + 2)
                (default 0 (ColorQuantizer.b quantized)) in
            quantizeLoop fuel q colors (i + 3)
        end
      else Some (q, colors)
  end.

(** [applyPaletteQuantization] on the colours of the current frame. *)
Definition applyPaletteQuantization (q : ColorQuantizer.Quantizer)
    (colors : list Z) : option (ColorQuantizer.Quantizer * list Z) :=
  quantizeLoop (length colors) q colors 0.

End Main.

(** * Vocabulary of the statements *)

Section Vocabulary.
Import JS Types.

Definition isByte (z : Z) : Prop := 0 <= z < 256.

(** A grid of [n] cells as the converter makes them: [n] symbols and the
    [3 * n] bytes of their colours. *)
Definition grid (n : nat) (g : ConvertedFrame) : Prop :=
  length (chars g) = n /\ length (colors g) = (3 * n)%nat /\
  Forall isByte (colors g).

(** The player's buffers when they hold the grid [g]. *)
Definition buffersOf (includeColors : bool) (g : ConvertedFrame)
    : Player.Buffers :=
  (chars g, if includeColors then Some (colors g) else None).

(** The buffers midway through the replay of a delta: the cells before [j]
    already hold [curr], the others still hold [prev]. *)
Definition mixChars (prev curr : ConvertedFrame) (j : nat)
    : list (option Z) :=
  split (take j (chars curr) ++ drop j (chars prev)).

Definition mixColors (prev curr : ConvertedFrame) (includeColors : bool)
    (j : nat) : option (list Z) :=
  if includeColors
  then Some (take (3 * j) (colors curr) ++ drop (3 * j) (colors prev))
  else None.

(** The decoded frame the player stores for given buffers. *)
Definition snapshotOf (cols : Z) (b : Player.Buffers) : Player.DecodedFrame :=
  {| Player.text := Player.linesText cols b.1; Player.colors := b.2 |}.

(** The number of cells of [curr] that differ from [prev]. *)
Definition changedCells (prev curr : ConvertedFrame) (includeColors : bool)
    : Z :=
  Z.of_nat
    (length (filter (fun i => Compress.cellChanged prev curr includeColors i = true)
               (seqZ 0 (Z.of_nat (length (chars curr)))))).

(** What a frame record looks like after a trip through the binary
    format: colours are bytes, present exactly when the colour mode has
    them. *)
Definition normChange (includeColors : bool) (c : DeltaChange) : DeltaChange :=
  if includeColors
  then {| index := index c; char := char c;
          colorR := Some (u8 (nullish (colorR c) 0));
          colorG := Some (u8 (nullish (colorG c) 0));
          colorB := Some (u8 (nullish (colorB c) 0)) |}
  else {| index := index c; char := char c;
          colorR := None; colorG := None; colorB := None |}.

Definition normFrame (includeColors : bool) (f : ASCIIFrame) : ASCIIFrame :=
  match f with
  | FrameFull chars colors =>
      FrameFull chars
        (if includeColors then Some (map u8 (default [] colors)) else None)
  | FrameDelta changes => FrameDelta (map (normChange includeColors) changes)
  end.

(** Well-formed animations: the invariants of the data model, and the
    ranges in which the fixed-width fields and the int32 arithmetic of the
    varint decoder are exact. *)
Definition wfChange (c : DeltaChange) : Prop :=
  0 <= index c < 2 ^ 31 /\ isByte (char c).

Definition wfFrame (m : ASCIIAnimationMeta) (f : ASCIIFrame) : Prop :=
  match f with
  | FrameFull chars colors =>
      length chars = Z.to_nat (Types.rows m * Types.cols m) /\
      Forall isByte chars /\
      (includeColors m = true ->
       exists cs, colors = Some cs /\
         length cs = Z.to_nat (Types.rows m * Types.cols m * 3))
  | FrameDelta changes =>
      Z.of_nat (length changes) < 2 ^ 31 /\ Forall wfChange changes
  end.

Definition wfMeta (m : ASCIIAnimationMeta) (frameTotal : nat) : Prop :=
  0 <= version m <= 255 /\ 0 <= Types.cols m <= 65535 /\
  0 <= Types.rows m <= 65535 /\ 0 <= fps m <= 255 /\
  frameCount m = Z.of_nat frameTotal /\ frameCount m <= 65535 /\
  (length (ramp m) <= 255)%nat /\ Forall isByte (ramp m) /\
  duration m = Num.div (Num.ofZ (frameCount m)) (Num.ofZ (fps m)).

Definition wfAnimation (a : ASCIIAnimation) : Prop :=
  wfMeta (meta a) (length (frames a)) /\ Forall (wfFrame (meta a)) (frames a).

(** The slices the decoder spreads into [String.fromCharCode] hold no
    more elements than the engine accepts as arguments: the symbols of a
    full frame, and the ramp. *)
Definition frameSpreads (E : Engine) (f : ASCIIFrame) : Prop :=
  match f with
  | FrameFull chars _ => Z.of_nat (length chars) <= maxArguments E
  | FrameDelta _ => True
  end.

Definition spreadable (E : Engine) (a : ASCIIAnimation) : Prop :=
  Z.of_nat (length (ramp (meta a))) <= maxArguments E /\
  Forall (frameSpreads E) (frames a).

Definition withoutPalette (m : ASCIIAnimationMeta) : ASCIIAnimationMeta :=
  {| version := version m; Types.cols := Types.cols m;
     Types.rows := Types.rows m; fps := fps m; frameCount := frameCount m;
     duration := duration m; colorMode := colorMode m; palette := None;
     ramp := ramp m |}.

(** [k] right shifts of a mantissa, as the rounding of [spec_float] does
    them. *)
Definition shrN (m : Z) (k : nat) : shr_record :=
  Nat.iter k shr_1 {| shr_m := m; shr_r := false; shr_s := false |}.

(** The mantissa of the literal 0.4. *)
Definition mantissa_0_4 : positive := 7205759403792794.

End Vocabulary.

(** An engine for the examples: 65535 arguments in a call, buffers of up
    to 2^31 - 1 bytes. *)
Definition sampleEngine : JS.Engine :=
  {| JS.maxArguments := 65535; JS.maxByteLength := 2 ^ 31 - 1 |}.

(** Animations and streams the statements are tried on. *)
Definition sampleAnimation : Types.ASCIIAnimation :=
  {| Types.meta :=
       {| Types.version := 1; Types.cols := 2; Types.rows := 1;
          Types.fps := 24; Types.frameCount := 3;
          Types.duration := Num.div (Num.ofZ 3) (Num.ofZ 24);
          Types.colorMode := Types.Rgb; Types.palette := None;
          Types.ramp := JS.codes " .:+*#@" |};
     Types.frames :=
       [Types.FrameFull (JS.codes "+@") (Some [10; 20; 30; 40; 50; 60]);
        Types.FrameDelta
          [{| Types.index := 1; Types.char := 35;
              Types.colorR := Some 7; Types.colorG := None;
              Types.colorB := Some 9 |}];
        Types.FrameDelta []] |}.

Definition paletteAnimation : Types.ASCIIAnimation :=
  {| Types.meta :=
       {| Types.version := 1; Types.cols := 1; Types.rows := 1;
          Types.fps := 24; Types.frameCount := 1;
          Types.duration := Num.div (Num.ofZ 1) (Num.ofZ 24);
          Types.colorMode := Types.Palette;
          Types.palette := Some [JS.codes "#000000"; JS.codes "#ffffff"];
          Types.ramp := JS.codes " .:+*#@" |};
     Types.frames := [Types.FrameFull (JS.codes "+") (Some [0; 0; 0])] |}.

(** A header that declares [rampLength = 10] and one frame, followed by
    five bytes. *)
Definition truncatedRampStream : list Z :=
  [65; 83; 67; 73; 1; 0; 2; 0; 1; 0; 24; 1; 0; 10]
  ++ replicate 18 0 ++ [32; 46; 58; 43; 42].

(** A mono animation of one full frame of 500 by 260 symbols. *)
Definition wideAnimation : Types.ASCIIAnimation :=
  {| Types.meta :=
       {| Types.version := 1; Types.cols := 500; Types.rows := 260;
          Types.fps := 24; Types.frameCount := 1;
          Types.duration := Num.div (Num.ofZ 1) (Num.ofZ 24);
          Types.colorMode := Types.Mono; Types.palette := None;
          Types.ramp := JS.codes " .:+*#@" |};
     Types.frames :=
       [Types.FrameFull (replicate (Z.to_nat (260 * 500)) 46) None] |}.

Definition longRampAnimation : Types.ASCIIAnimation :=
  {| Types.meta :=
       {| Types.version := 1; Types.cols := 1; Types.rows := 1;
          Types.fps := 24; Types.frameCount := 0;
          Types.duration := Num.div (Num.ofZ 0) (Num.ofZ 24);
          Types.colorMode := Types.Mono; Types.palette := None;
          Types.ramp := replicate 256 46 |};
     Types.frames := [] |}.

(** The grid [convertToASCII] gives when no cell is visited. *)
Definition emptyFrame (cols : Z) : ConvertedFrame :=
  {| chars := []; colors := []; rows := 0; cols := cols |}.

(** Every pixel of the raster is (128, 128, 128), whatever its alpha. *)
Definition uniformGray (imageData : ImageData) : Prop :=
  forall x y, 0 <= x < width imageData -> 0 <= y < height imageData ->
    let i := (y * width imageData + x) * 4 in
    JS.at_ (data imageData) i = Some 128 /\
    JS.at_ (data imageData) (i + 1) = Some 128 /\
    JS.at_ (data imageData) (i + 2) = Some 128.

(** The raster of [w] by [h] opaque mid-gray pixels. *)
Definition grayImage (w h : Z) : ImageData :=
  {| data := mjoin (replicate (Z.to_nat (w * h)) [128; 128; 128; 255]);
     width := w; height := h |}.

(** The pixel rectangle of the cell holds at least one pixel and lies in
    the raster. *)
Definition cellInside (imageData : ImageData)
    (r : AsciiConverter.CellRect) : Prop :=
  0 <= AsciiConverter.baseX r < AsciiConverter.endX r /\
  AsciiConverter.endX r <= width imageData /\
  0 <= AsciiConverter.baseY r < AsciiConverter.endY r /\
  AsciiConverter.endY r <= height imageData /\
  (forall s, AsciiConverter.step r = Some s -> 1 <= s).

Definition minimalRamp : JS.jsstring := JS.codes " .:+*#@".

Definition minimalOptions (cols : Z) : AsciiConverter.ConvertOptions :=
  {| AsciiConverter.optCols := cols;
     AsciiConverter.optRamp := minimalRamp;
     AsciiConverter.optColorMode := Types.Mono |}.

(** The cell of a mid-gray rectangle: '+' in mid-gray. *)
Definition grayCell : AsciiConverter.CellOut :=
  {| AsciiConverter.symbol := Some 43; AsciiConverter.red := 128;
     AsciiConverter.green := 128; AsciiConverter.blue := 128 |}.

(** The tables agree with the ramp and the invert flag. *)
Definition tablesBuilt (r : ASCIIRenderer.Renderer) : Prop :=
  ASCIIRenderer.rampCodes r = map JS.u8 (ASCIIRenderer.ramp r) /\
  ASCIIRenderer.lumToCharLUT r
  = ASCIIRenderer.lumTable (Z.of_nat (length (ASCIIRenderer.ramp r)))
      (ASCIIRenderer.invert r).

Definition adjusted (invert : bool) (lum : Z) : Z :=
  if invert then 255 - lum else lum.

(** Grids for the delta statements. *)
Definition gridA : ConvertedFrame :=
  {| chars := JS.codes "+@.:+"; rows := 1; cols := 5;
     colors := [1; 2; 3; 4; 5; 6; 7; 8; 9; 10; 11; 12; 13; 14; 15] |}.
Definition gridB : ConvertedFrame :=
  {| chars := JS.codes "+@.:#"; rows := 1; cols := 5;
     colors := [1; 2; 3; 4; 5; 6; 7; 8; 9; 10; 11; 12; 13; 14; 200] |}.
Definition gridC : ConvertedFrame :=
  {| chars := JS.codes "##@:#"; rows := 1; cols := 5;
     colors := [1; 2; 3; 4; 5; 6; 0; 0; 0; 10; 11; 12; 13; 14; 200] |}.
Definition rgbMeta : Types.ASCIIAnimationMeta :=
  {| Types.version := 1; Types.cols := 5; Types.rows := 1; Types.fps := 24;
     Types.frameCount := 3;
     Types.duration := Num.div (Num.ofZ 3) (Num.ofZ 24);
     Types.colorMode := Types.Rgb; Types.palette := None;
     Types.ramp := JS.codes " .:+*#@" |}.

(** Calls made on a player, and their effect in sequence. *)
Inductive PlayerOp := Seek (frameIndex : Z) | Tick.

Definition runOp (p : Player.ASCIIPlayer) (op : PlayerOp)
    : Player.completion :=
  match op with
  | Seek i => Player.seek p i
  | Tick => Player.tickDue p
  end.

Fixpoint runOps (ops : list PlayerOp) (p : Player.ASCIIPlayer)
    : Player.completion :=
  match ops with
  | [] => Player.Normal p
  | op :: rest =>
      match runOp p op with
      | Player.Normal p' => runOps rest p'
      | Player.TypeError => Player.TypeError
      end
  end.

(** The escaped characters of a frame from index [i] on, with the line
    break the colour loop puts before every row but the first. *)
Fixpoint withBreaks (cols : Z) (i : Z) (chars : JS.jsstring) : JS.jsstring :=
  match chars with
  | [] => []
  | char :: rest =>
      (if (0 <? i) && Player.rowStart i cols then [10] else [])
      ++ Player.escapeChar char ++ withBreaks cols (i + 1) rest
  end.

(** Every cell of the buffer [colors] up to [n] holds the colour
    [(r, g, b)]. *)
Definition uniformColor (colors : list Z) (n : nat) (r g b : Z) : Prop :=
  forall i, 0 <= i < Z.of_nat n ->
    JS.at_ colors (i * 3) = Some r /\ JS.at_ colors (i * 3 + 1) = Some g /\
    JS.at_ colors (i * 3 + 2) = Some b.

(** Inputs the further properties are tried on. *)
Definition sampleOptions : Index.ProcessOptions :=
  {| Index.cols := 5; Index.fps := 24; Index.colorMode := Types.Rgb;
     Index.ramp := JS.codes " .:+*#@" |}.

Definition monoOptions : Index.ProcessOptions :=
  {| Index.cols := 5; Index.fps := 24; Index.colorMode := Types.Mono;
     Index.ramp := JS.codes " .:+*#@" |}.

(** The frame [render] returns for a mid-gray raster of 40 by 8 pixels at
    20 columns. *)
Definition grayFrame : ASCIIRenderer.ASCIIFrame :=
  {| ASCIIRenderer.rows := Num.ofZ 2; ASCIIRenderer.cols := 20;
     ASCIIRenderer.charCodes := replicate 40 43;
     ASCIIRenderer.colors := replicate 120 128 |}.

(** A frame of the symbols "<&>" and "a b". *)
Definition markupFrame : ASCIIRenderer.ASCIIFrame :=
  {| ASCIIRenderer.rows := Num.ofZ 2; ASCIIRenderer.cols := 3;
     ASCIIRenderer.charCodes := JS.codes "<&>a b";
     ASCIIRenderer.colors := replicate 18 0 |}.

(** The first sample grid with two of its five cells changed. *)
Definition gridD : ConvertedFrame :=
  {| chars := JS.codes "+@.##"; rows := 1; cols := 5;
     colors := [1; 2; 3; 4; 5; 6; 7; 8; 9; 10; 11; 12; 13; 14; 15] |}.

Definition outOfRangeChange : Types.DeltaChange :=
  {| Types.index := 7; Types.char := 35; Types.colorR := Some 1;
     Types.colorG := Some 2; Types.colorB := Some 3 |}.

Definition negativeChange : Types.DeltaChange :=
  {| Types.index := -1; Types.char := 35; Types.colorR := Some 1;
     Types.colorG := Some 2; Types.colorB := Some 3 |}.

(** A player on the three sample grids, and one on an animation without
    frames. *)
Definition samplePlayer : Player.ASCIIPlayer :=
  {| Player.animation :=
       {| Types.meta := rgbMeta;
          Types.frames := Compress.encodeFrames true None [gridA; gridB; gridC] |};
     Player.frameIndex := 0;
     Player.decodedFrames :=
       map (fun g => snapshotOf 5 (buffersOf true g)) [gridA; gridB; gridC];
     Player.container := Player.TextContent [];
     Player.isDestroyed := false;
     Player.loops := 0 |}.

Definition emptyAnimation : Types.ASCIIAnimation :=
  {| Types.meta :=
       {| Types.version := 1; Types.cols := 5; Types.rows := 1;
          Types.fps := 24; Types.frameCount := 0;
          Types.duration := Num.div (Num.ofZ 0) (Num.ofZ 24);
          Types.colorMode := Types.Mono; Types.palette := None;
          Types.ramp := JS.codes " .:+*#@" |};
     Types.frames := [] |}.

(** Calls made on a performance manager, and their effect in sequence. *)
Inductive ManagerCall :=
  | MeasureFrame (duration : Num.num)
  | FrameEnd (now startTime : Num.num)
  | GetRecommendedCols
  | SetCols (cols : Z)
  | SetTargetFPS (fps : Z)
  | GetMetrics
  | Reset (now : Num.num).

Definition managerCall (m : PerformanceManager.Manager) (c : ManagerCall)
    : PerformanceManager.Manager :=
  match c with
  | MeasureFrame duration => PerformanceManager.measureFrame m duration
  | FrameEnd now startTime => PerformanceManager.frameEnd m now startTime
  | GetRecommendedCols => (PerformanceManager.getRecommendedCols m).1
  | SetCols cols => PerformanceManager.setCols m cols
  | SetTargetFPS fps => PerformanceManager.setTargetFPS m fps
  | GetMetrics => m
  | Reset now => PerformanceManager.reset m now
  end.

Definition managerCalls (cs : list ManagerCall)
    (m : PerformanceManager.Manager) : PerformanceManager.Manager :=
  fold_left managerCall cs m.

(** What a manager keeps true of its fields. *)
Definition managerOk (low : bool) (m : PerformanceManager.Manager) : Prop :=
  PerformanceManager.minCols m = 40 /\
  PerformanceManager.maxCols m = (if low then 100 else 160) /\
  PerformanceManager.minCols m <= PerformanceManager.currentCols m
    <= PerformanceManager.maxCols m /\
  15 <= PerformanceManager.targetFPS m <= 60 /\
  (length (PerformanceManager.frameTimes m) <= 60)%nat.

(** The last [n] elements of a list. *)
Definition lastN {A} (n : nat) (l : list A) : list A :=
  drop (length l - n) l.

(** Calls made on a colour quantizer, and their effect in sequence. *)
Inductive QuantizerCall :=
  | SetPalette (palette : list ColorQuantizer.RGB)
  | UseANSIPalette
  | UseDefaultPalette
  | SnapToPalette (color : ColorQuantizer.RGB)
  | QuantizeColors (colors : list ColorQuantizer.RGB).

Definition quantizerCall (q : ColorQuantizer.Quantizer) (c : QuantizerCall)
    : ColorQuantizer.Quantizer :=
  match c with
  | SetPalette palette => ColorQuantizer.setPalette q palette
  | UseANSIPalette => ColorQuantizer.useANSIPalette q
  | UseDefaultPalette => ColorQuantizer.useDefaultPalette q
  | SnapToPalette color => (ColorQuantizer.snapToPalette q color).1
  | QuantizeColors colors => (ColorQuantizer.quantizeColors q colors).1
  end.

Definition quantizerCalls (cs : list QuantizerCall)
    (q : ColorQuantizer.Quantizer) : ColorQuantizer.Quantizer :=
  fold_left quantizerCall cs q.

(** Every answer in the cache is the one the search gives on the current
    palette. *)
Definition cacheOk (q : ColorQuantizer.Quantizer) : Prop :=
  forall color v,
    ColorQuantizer.cache q !! ColorQuantizer.key color = Some v ->
    v = ColorQuantizer.nearest (ColorQuantizer.palette q) color.

(** A colour whose three channels are bytes. *)
Definition byteColor (c : ColorQuantizer.RGB) : Prop :=
  exists r g b, c = ColorQuantizer.rgb r g b /\
    isByte r /\ isByte g /\ isByte b.

(** The cells of a colour buffer, three entries each, and back. *)
Fixpoint cellColors (colors : list Z) : list ColorQuantizer.RGB :=
  match colors with
  | r :: g :: b :: rest => ColorQuantizer.rgb r g b :: cellColors rest
  | _ => []
  end.

Definition channels (c : ColorQuantizer.RGB) : list Z :=
  [default 0 (ColorQuantizer.r c); default 0 (ColorQuantizer.g c);
   default 0 (ColorQuantizer.b c)].

(** A code unit that is a decimal digit or the minus sign. *)
Definition numeral (c : Z) : Prop := c = 45 \/ 48 <= c <= 57.

(** A finite number is [mant * 2^expo]; [scaled E] is its mantissa at the
    exponent [E]. *)
Definition isFinite (x : Num.num) : bool :=
  match x with S754_zero _ | S754_finite _ _ _ => true | _ => false end.
Definition mant (x : Num.num) : Z :=
  match x with S754_finite s m _ => cond_Zopp s (Zpos m) | _ => 0 end.
Definition expo (x : Num.num) : Z :=
  match x with S754_finite _ _ e => e | _ => 0 end.
Definition scaled (E : Z) (x : Num.num) : Z := mant x * 2 ^ (expo x - E).

(** The three bytes [applyPaletteQuantization] stores for a cell. *)
Definition snapCell (palette : list ColorQuantizer.RGB)
    (c : ColorQuantizer.RGB) : list Z :=
  match ColorQuantizer.nearest palette c with
  | Some p => channels p
  | None => []
  end.

(** A desktop machine, as [detectDeviceCapability] sees it. *)
Definition desktop : PerformanceManager.Device :=
  {| PerformanceManager.isMobile := false;
     PerformanceManager.deviceMemory := None;
     PerformanceManager.hardwareConcurrency := Some 8 |}.

(** * Properties *)

(** ** Lists as arrays *)

Section ArrayFacts.
Context {A : Type}.
Implicit Types l k : list A.

Lemma mix_insert l k j x :
  l !! j = Some x -> (j < length k)%nat ->
  <[j := x]> (take j l ++ drop j k) = take (S j) l ++ drop (S j) k.
Proof.
  intros Hl Hk.
  destruct (lookup_lt_is_Some_2 k j Hk) as [y Hy].
  assert (length (take j l) = j) as Hlen
    by (rewrite length_take; apply lookup_lt_Some in Hl; lia).
  rewrite (drop_S k y j Hy), (take_S_r l j x Hl), <- app_assoc. simpl.
  rewrite <- (Nat.add_0_r j) at 1.
  rewrite <- Hlen at 1. rewrite insert_app_r. reflexivity.
Qed.

Lemma mix_same l k j :
  l !! j = k !! j -> (j < length k)%nat ->
  take j l ++ drop j k = take (S j) l ++ drop (S j) k.
Proof.
  intros Hl Hk.
  destruct (lookup_lt_is_Some_2 k j Hk) as [y Hy].
  rewrite Hy in Hl.
  rewrite (drop_S k y j Hy), (take_S_r l j y Hl), <- app_assoc. reflexivity.
Qed.

Lemma mix_all l k : length l = length k -> take (length l) l ++ drop (length l) k = l.
Proof.
  intros H. rewrite firstn_all, H, drop_all. apply app_nil_r.
Qed.

End ArrayFacts.

(** ** Bytes and array reads *)

Section JSFacts.
Import JS.

Lemma at_of_nat {A} (l : list A) (j : nat) : at_ l (Z.of_nat j) = l !! j.
Proof. unfold at_. destruct (Z.ltb_spec (Z.of_nat j) 0); [lia|]. by rewrite Nat2Z.id. Qed.

Lemma join_split s : join (split s) = s.
Proof. unfold join, split. induction s as [|c s IH]; [done|]. cbn. by rewrite IH. Qed.


Lemma u8_byte z : isByte z -> u8 z = z.
Proof. unfold isByte, u8. intros. apply Z.mod_small. lia. Qed.

Lemma map_u8_bytes l : Forall isByte l -> map u8 l = l.
Proof. induction 1; simpl; [done|]. rewrite u8_byte by done. congruence. Qed.

Lemma strictNe_false a b : strictNe a b = false -> a = b.
Proof. unfold strictNe. intros H. apply bool_decide_eq_false in H. destruct (decide (a = b)); tauto. Qed.

Lemma arraySet_mix (l k : list Z) (j : nat) x :
  l !! j = Some x -> (j < length k)%nat ->
  arraySet (split (take j l ++ drop j k)) (Z.of_nat j) x
  = split (take (S j) l ++ drop (S j) k).
Proof.
  intros Hl Hk. unfold arraySet, split.
  destruct (Z.ltb_spec (Z.of_nat j) 0); [lia|].
  assert (length (take j l ++ drop j k) = length k) as Hlen.
  { rewrite length_app, length_take, length_drop. apply lookup_lt_Some in Hl. lia. }
  rewrite length_map, Hlen.
  destruct (Z.ltb_spec (Z.of_nat j) (Z.of_nat (length k))); [|lia].
  rewrite Nat2Z.id. rewrite <- (mix_insert l k j x Hl Hk).
  symmetry. apply list_fmap_insert.
Qed.

Lemma typedSet_mix (l k : list Z) (j : nat) x :
  l !! j = Some x -> isByte x -> (j < length k)%nat ->
  typedSet (take j l ++ drop j k) (Z.of_nat j) x
  = take (S j) l ++ drop (S j) k.
Proof.
  intros Hl Hx Hk. unfold typedSet.
  assert (length (take j l ++ drop j k) = length k) as Hlen.
  { rewrite length_app, length_take, length_drop. apply lookup_lt_Some in Hl. lia. }
  rewrite Hlen.
  destruct (Z.leb_spec 0 (Z.of_nat j)); [|lia].
  destruct (Z.ltb_spec (Z.of_nat j) (Z.of_nat (length k))); [|lia].
  simpl. rewrite Nat2Z.id, u8_byte by done. by apply mix_insert.
Qed.

Lemma u8_idemp z : u8 (u8 z) = u8 z.
Proof. unfold u8. apply Z.mod_mod. lia. Qed.

Lemma map_u8_idemp l : map u8 (map u8 l) = map u8 l.
Proof. rewrite map_map. apply map_ext. intros; apply u8_idemp. Qed.

End JSFacts.

(** ** Delta frames replay to the grids they encode *)

Section DeltaReplay.
Import JS Types.

Section Scan.
Variables (n : nat) (prev curr : ConvertedFrame).
Hypothesis Hprev : grid n prev.
Hypothesis Hcurr : grid n curr.

Lemma curr_color_byte j x : colors curr !! j = Some x -> isByte x.
Proof.
  destruct Hcurr as (_ & _ & Hb). intros H.
  eapply Forall_lookup_1; eauto.
Qed.

Lemma step_changed ic j :
  (j < n)%nat ->
  Player.applyChange ic (mixChars prev curr j, mixColors prev curr ic j)
    (Compress.makeChange curr ic (Z.of_nat j))
  = (mixChars prev curr (S j), mixColors prev curr ic (S j)).
Proof.
  intros Hj. destruct Hprev as (Hp1 & Hp2 & _), Hcurr as (Hc1 & Hc2 & Hc3).
  destruct (lookup_lt_is_Some_2 (chars curr) j ltac:(lia)) as [x Hx].
  unfold Player.applyChange, Compress.makeChange, mixChars; simpl.
  rewrite at_of_nat, Hx. simpl.
  rewrite (arraySet_mix _ _ _ _ Hx) by lia.
  destruct ic; simpl; [|done].
  replace (Z.of_nat j * 3) with (Z.of_nat (3 * j)) by lia.
  replace (Z.of_nat (3 * j) + 1) with (Z.of_nat (S (3 * j))) by lia.
  replace (Z.of_nat (3 * j) + 2) with (Z.of_nat (S (S (3 * j)))) by lia.
  rewrite !at_of_nat.
  destruct (lookup_lt_is_Some_2 (colors curr) (3 * j) ltac:(lia)) as [r Hr].
  destruct (lookup_lt_is_Some_2 (colors curr) (S (3 * j)) ltac:(lia)) as [g Hg].
  destruct (lookup_lt_is_Some_2 (colors curr) (S (S (3 * j))) ltac:(lia)) as [b Hb].
  rewrite Hr, Hg, Hb. simpl.
  rewrite (typedSet_mix _ _ _ _ Hr) by (eauto using curr_color_byte || lia).
  rewrite (typedSet_mix _ _ _ _ Hg) by (eauto using curr_color_byte || lia).
  rewrite (typedSet_mix _ _ _ _ Hb) by (eauto using curr_color_byte || lia).
  do 3 f_equal; f_equal; lia.
Qed.

Lemma step_unchanged ic j :
  (j < n)%nat ->
  Compress.cellChanged prev curr ic (Z.of_nat j) = false ->
  (mixChars prev curr j, mixColors prev curr ic j) = (mixChars prev curr (S j), mixColors prev curr ic (S j)).
Proof.
  intros Hj Hc. destruct Hprev as (Hp1 & Hp2 & _), Hcurr as (Hc1 & Hc2 & Hc3).
  unfold Compress.cellChanged in Hc.
  apply orb_false_iff in Hc as [Hch Hco].
  apply strictNe_false in Hch. rewrite !at_of_nat in Hch.
  unfold mixChars. rewrite (mix_same _ _ _ Hch) by lia. f_equal.
  destruct ic; [|done]. simpl in Hco. unfold mixColors.
  apply orb_false_iff in Hco as [Hco Hb].
  apply orb_false_iff in Hco as [Hr Hg].
  apply strictNe_false in Hr, Hg, Hb.
  replace (Z.of_nat j * 3) with (Z.of_nat (3 * j)) in * by lia.
  replace (Z.of_nat (3 * j) + 1) with (Z.of_nat (S (3 * j))) in * by lia.
  replace (Z.of_nat (3 * j) + 2) with (Z.of_nat (S (S (3 * j)))) in * by lia.
  rewrite !at_of_nat in *.
  rewrite (mix_same _ _ _ Hr) by lia.
  rewrite (mix_same _ _ _ Hg) by lia.
  rewrite (mix_same _ _ _ Hb) by lia.
  do 2 f_equal; f_equal; lia.
Qed.

Lemma scan_replays ic todo : forall j,
  (j + todo = n)%nat ->
  fold_left (Player.applyChange ic)
    (Compress.scanChanges prev curr ic (Z.of_nat j) todo)
    (mixChars prev curr j, mixColors prev curr ic j)
  = (mixChars prev curr n, mixColors prev curr ic n).
Proof.
  induction todo as [|todo IH]; intros j Hj; simpl.
  - by replace j with n by lia.
  - rewrite fold_left_app.
    replace (Z.of_nat j + 1) with (Z.of_nat (S j)) by lia.
    destruct (Compress.cellChanged prev curr ic (Z.of_nat j)) eqn:Hc; simpl.
    + rewrite step_changed by lia. apply IH. lia.
    + rewrite (step_unchanged ic j) by (lia || done). apply IH. lia.
Qed.

Lemma mix_start ic :
  (mixChars prev curr 0, mixColors prev curr ic 0) = (split (chars prev), (buffersOf ic prev).2).
Proof. unfold mixChars, mixColors, buffersOf. rewrite Nat.mul_0_r. by destruct ic. Qed.

Lemma mix_end ic :
  (mixChars prev curr n, mixColors prev curr ic n) = (split (chars curr), (buffersOf ic curr).2).
Proof.
  destruct Hprev as (Hp1 & Hp2 & _), Hcurr as (Hc1 & Hc2 & Hc3).
  unfold mixChars, mixColors, buffersOf. cbn [snd].
  rewrite <- Hc1 at 1 2. rewrite mix_all by lia.
  destruct ic; [|done]. rewrite <- Hc2. rewrite mix_all by lia. done.
Qed.

Lemma delta_reproduces ic :
  Player.applyFrame ic (buffersOf ic prev) (Compress.computeDelta prev curr ic)
  = buffersOf ic curr.
Proof.
  unfold Compress.computeDelta.
  destruct (Compress.tooManyChanges _ _).
  - unfold Player.applyFrame, buffersOf. destruct ic; simpl; [|done].
    destruct Hcurr as (_ & _ & Hb). by rewrite map_u8_bytes.
  - unfold Player.applyFrame.
    change (split (buffersOf ic prev).1) with (split (chars prev)).
    rewrite <- mix_start.
    destruct Hcurr as (Hc1 & _).
    rewrite Hc1.
    change 0 with (Z.of_nat 0).
    rewrite (scan_replays ic n 0%nat) by lia.
    rewrite mix_end. cbn [fst snd]. by rewrite join_split.
Qed.

End Scan.

Lemma full_reproduces n ic st g :
  grid n g -> (ic = false -> st.2 = None) ->
  Player.applyFrame ic st (Compress.createFullFrame g ic) = buffersOf ic g.
Proof.
  intros (_ & _ & Hb) Hst. unfold Player.applyFrame, Compress.createFullFrame, buffersOf.
  destruct ic; [by rewrite map_u8_bytes | by rewrite Hst].
Qed.

Lemma encode_resolves n ic grids : forall prev,
  grid n prev -> Forall (grid n) grids ->
  Player.resolveFrames ic (buffersOf ic prev)
    (Compress.encodeFrames ic (Some prev) grids)
  = map (buffersOf ic) grids.
Proof.
  induction grids as [|g grids IH]; intros prev Hp Hg; [done|].
  inversion Hg as [|? ? Hg1 Hg2]; subst.
  cbn [Compress.encodeFrames Player.resolveFrames].
  rewrite (delta_reproduces n) by done. cbn [map]. f_equal. by apply IH.
Qed.

Lemma encode_resolves_from_start n ic st grids :
  Forall (grid n) grids -> (ic = false -> st.2 = None) ->
  Player.resolveFrames ic st (Compress.encodeFrames ic None grids)
  = map (buffersOf ic) grids.
Proof.
  destruct grids as [|g grids]; [done|]. intros Hg Hst.
  inversion Hg as [|? ? Hg1 Hg2]; subst.
  cbn [Compress.encodeFrames Player.resolveFrames].
  rewrite (full_reproduces n) by done.
  cbn [map]. f_equal. by apply (encode_resolves n).
Qed.

Lemma initialBuffers_returns E m :
  (includeColors m = true ->
   0 <= Types.rows m * Types.cols m * 3 <= maxByteLength E) ->
  exists st,
    Player.initialBuffers E m = Returned st /\
    (includeColors m = false -> st.2 = None).
Proof.
  intros H. unfold Player.initialBuffers, newUint8Array.
  destruct (includeColors m); [|by eexists].
  destruct (H eq_refl) as [H0 H1].
  destruct (Z.leb_spec 0 (Types.rows m * Types.cols m * 3)); [|lia].
  destruct (Z.leb_spec (Types.rows m * Types.cols m * 3) (maxByteLength E));
    [|lia].
  cbn. by eexists.
Qed.

Lemma initialBuffers_negative E m :
  includeColors m = true -> Types.rows m * Types.cols m * 3 < 0 ->
  Player.initialBuffers E m = Thrown RangeError.
Proof.
  intros Hic H. unfold Player.initialBuffers, newUint8Array. rewrite Hic.
  by destruct (Z.leb_spec 0 (Types.rows m * Types.cols m * 3)); [lia|].
Qed.

Lemma formatText_pos cols s :
  0 < cols -> Player.formatText cols s = Some (Player.linesText cols s).
Proof.
  intros H. unfold Player.formatText. destruct s; [done|].
  destruct (Z.leb_spec cols 0); [lia | done].
Qed.

Lemma preDecodeLoop_resolve ic cols frames : forall st,
  0 < cols ->
  Player.preDecodeLoop ic cols st frames
  = Some (map (snapshotOf cols) (Player.resolveFrames ic st frames)).
Proof.
  induction frames as [|f frames IH]; intros st H; [done|]. simpl.
  rewrite formatText_pos, IH by done. done.
Qed.


(** C1.  Delta correctness.  For grids of one size [n] (symbols and the
    matching [3 * n] colour bytes), applying the record that [computeDelta]
    makes for [prev] and [curr] to buffers holding [prev] gives buffers
    holding [curr], in the symbols and, when colours are included, in the
    colours.  Hence the records the encode loop makes for a sequence of
    grids, replayed in order by the player from its initial buffers, give
    back every grid: as the running buffers, and as the decoded frames the
    player stores (the text is the grid cut into lines of [cols]).  The
    player is given a meta that describes the grids ([rows * cols = n]),
    on an engine that allocates the [3 * n] bytes of its colour buffer. *)
Theorem C1_delta_replay_reproduces_grids
    (E : Engine) (n : nat) (prev curr : ConvertedFrame)
    (grids : list ConvertedFrame) (m : ASCIIAnimationMeta) :
  grid n prev -> grid n curr -> Forall (grid n) grids ->
  Types.rows m * Types.cols m = Z.of_nat n ->
  (includeColors m = true -> 3 * Z.of_nat n <= maxByteLength E) ->
  let ic := includeColors m in
  let a := {| meta := m; frames := Compress.encodeFrames ic None grids |} in
  Player.applyFrame ic (buffersOf ic prev) (Compress.computeDelta prev curr ic)
    = buffersOf ic curr
  /\ Player.resolve E a = Returned (map (buffersOf ic) grids)
  /\ (0 < Types.cols m ->
      Player.preDecodeFrames E a
      = Some (Returned
                (map (fun g => snapshotOf (Types.cols m) (buffersOf ic g))
                   grids))).
Proof.
  intros Hp Hc Hg Hn Hmax ic a. split; [by apply (delta_reproduces n)|].
  destruct (initialBuffers_returns E m) as (st & Hst & Hnone);
    [intros Hic; specialize (Hmax Hic); lia|].
  assert (Player.resolveFrames ic st (frames a) = map (buffersOf ic) grids)
    as Hr by (by apply (encode_resolves_from_start n)).
  unfold Player.resolve, Player.preDecodeFrames. subst a.
  cbn [meta frames] in *. rewrite Hst. cbn [JS.bind]. fold ic. rewrite Hr.
  split; [done|]. intros Hcols.
  rewrite preDecodeLoop_resolve by done. cbn [mbind option_bind].
  by rewrite Hr, map_map.
Qed.

End DeltaReplay.

(** ** Rounding of a binary64 product *)

Section Rounding.
Import JS Types.

Lemma digits2_bounds p :
  2 ^ (Zpos (digits2_pos p) - 1) <= Zpos p < 2 ^ Zpos (digits2_pos p).
Proof.
  induction p as [p IH|p IH|]; cbn [digits2_pos]; [| |cbn; lia].
  all: rewrite Pos2Z.inj_succ;
    replace (Z.succ (Zpos (digits2_pos p)) - 1) with (Z.succ (Zpos (digits2_pos p) - 1)) by lia;
    rewrite !Z.pow_succ_r by lia; lia.
Qed.

Lemma iter_pos_nat {A} (f : A -> A) p x :
  SpecFloat.iter_pos f p x = Nat.iter (Pos.to_nat p) f x.
Proof.
  revert x. induction p as [p IH|p IH|]; intros x; cbn [SpecFloat.iter_pos]; [| |done].
  - rewrite !IH, Pos2Nat.inj_xI.
    replace (S (2 * Pos.to_nat p)) with (Pos.to_nat p + (Pos.to_nat p + 1))%nat by lia.
    by rewrite !Nat.iter_add.
  - rewrite !IH, Pos2Nat.inj_xO.
    replace (2 * Pos.to_nat p)%nat with (Pos.to_nat p + Pos.to_nat p)%nat by lia.
    by rewrite Nat.iter_add.
Qed.

Lemma shr_1_spec mrs :
  0 <= shr_m mrs ->
  shr_m (shr_1 mrs) = shr_m mrs / 2 /\ shr_r (shr_1 mrs) = Z.odd (shr_m mrs).
Proof.
  destruct mrs as [m r s]. cbn [shr_m]. intros Hm.
  destruct m as [|[p|p|]|p]; cbn [shr_1 shr_m shr_r]; try lia; split; try done.
  - rewrite Pos2Z.inj_xI. apply Z.div_unique with 1; lia.
  - rewrite Pos2Z.inj_xO. apply Z.div_unique with 0; lia.
Qed.

Lemma shr_iter_spec m k :
  0 <= m ->
  shr_m (shrN m k) = m / 2 ^ Z.of_nat k /\
  (shr_r (shrN m k) = true -> 2 ^ Z.of_nat k <= 2 * (m mod 2 ^ Z.of_nat k)).
Proof.
  intros Hm. induction k as [|k IH].
  - cbn. rewrite Z.div_1_r. split; [done|discriminate].
  - unfold shrN in *. rewrite Nat.iter_succ. destruct IH as [IHm IHr].
    set (mrs := Nat.iter k shr_1 _) in *.
    assert (0 < 2 ^ Z.of_nat k) as Hp by (apply Z.pow_pos_nonneg; lia).
    assert (0 <= shr_m mrs) as Hnn by (rewrite IHm; apply Z.div_pos; lia).
    destruct (shr_1_spec mrs Hnn) as [H1 H2].
    rewrite H1, H2, IHm, Nat2Z.inj_succ, Z.pow_succ_r by lia.
    split.
    + rewrite Z.div_div by lia. f_equal. lia.
    + intros Hodd. rewrite Z.odd_spec in Hodd. destruct Hodd as [j Hj].
      pose proof (Z.div_mod m (2 ^ Z.of_nat k) ltac:(lia)) as Hdm.
      pose proof (Z.mod_pos_bound m (2 ^ Z.of_nat k) Hp) as Hmb.
      assert (2 ^ Z.of_nat k + m mod 2 ^ Z.of_nat k
              = m mod (2 * 2 ^ Z.of_nat k)) as <-
        by (apply Z.mod_unique with j; [left; lia | nia]).
      lia.
Qed.

Lemma round_up_only_if_r mrs :
  let q := round_nearest_even (shr_m mrs) (loc_of_shr_record mrs) in
  shr_m mrs <= q /\ q <= shr_m mrs + 1 /\ (shr_r mrs = false -> q = shr_m mrs).
Proof.
  destruct mrs as [m [|] [|]]; cbn; try destruct (Z.even m); lia.
Qed.

Lemma shr_exact m e n :
  shr {| shr_m := m; shr_r := false; shr_s := false |} e n
  = (shrN m (Z.to_nat n), e + Z.max n 0).
Proof.
  destruct n as [|p|p]; cbn [shr Z.to_nat Z.max]; unfold shrN.
  - by rewrite Z.add_0_r.
  - by rewrite iter_pos_nat, Z.max_l by lia.
  - by rewrite Z.max_r, Z.add_0_r by lia.
Qed.

Lemma digits2_le p k : Zpos p < 2 ^ k -> 0 <= k -> Zpos (digits2_pos p) <= k.
Proof.
  intros Hp Hk. pose proof (digits2_bounds p) as [Hlo _].
  destruct (Z.le_gt_cases (Zpos (digits2_pos p)) k) as [|Hgt]; [done|].
  assert (2 ^ k <= 2 ^ (Zpos (digits2_pos p) - 1))
    by (apply Z.pow_le_mono_r; lia). lia.
Qed.

Lemma digits2_ge p k : 2 ^ (k - 1) <= Zpos p -> Zpos (digits2_pos p) >= k.
Proof.
  intros Hp. pose proof (digits2_bounds p) as [_ Hhi].
  destruct (Z.le_gt_cases k (Zpos (digits2_pos p))) as [|Hgt]; [lia|].
  assert (2 ^ Zpos (digits2_pos p) <= 2 ^ (k - 1))
    by (apply Z.pow_le_mono_r; lia). lia.
Qed.

(** Rounding to nearest of an exact value [m * 2^e] whose mantissa has at
    least 53 digits: the result does not exceed the value by more than half
    a unit of the last place kept. *)
Lemma binary_round_upper (m : positive) (e : Z) :
  let d := Zpos (digits2_pos m) in
  53 <= d -> -1074 <= e -> e + (d - 53) + 1 <= 971 ->
  binary_round_aux 53 1024 false (Zpos m) e loc_Exact = S754_zero false \/
  exists m' e',
    binary_round_aux 53 1024 false (Zpos m) e loc_Exact
    = S754_finite false m' e' /\
    e <= e' /\
    2 * (Zpos m' * 2 ^ (e' - e)) <= 2 * Zpos m + 2 ^ (d - 53).
Proof.
  intros d Hd He Hmax.
  set (s := d - 53).
  assert (0 < 2 ^ s) as Hps by (apply Z.pow_pos_nonneg; lia).
  remember (binary_round_aux 53 1024 false (Zpos m) e loc_Exact) as x eqn:Ex.
  unfold binary_round_aux, shr_fexp in Ex.
  cbn [shr_record_of_loc Zdigits2] in Ex. fold d in Ex.
  replace (fexp 53 1024 (d + e) - e) with s in Ex
    by (unfold fexp, emin; lia).
  rewrite shr_exact, Z.max_l in Ex by lia.
  destruct (shr_iter_spec (Zpos m) (Z.to_nat s) ltac:(lia)) as [Hq Hr].
  rewrite Z2Nat.id in Hq, Hr by lia.
  pose proof (round_up_only_if_r (shrN (Zpos m) (Z.to_nat s))) as Hround.
  cbv zeta in Hround.
  set (q' := round_nearest_even _ _) in *.
  rewrite Hq in Hround. destruct Hround as (Hlo & Hhi & Hsame).
  pose proof (digits2_bounds m) as [Hdlo Hdhi]. fold d in Hdlo, Hdhi.
  pose proof (Z.div_mod (Zpos m) (2 ^ s) ltac:(lia)) as Hdm.
  pose proof (Z.mod_pos_bound (Zpos m) (2 ^ s) Hps) as Hmb.
  assert (2 ^ d = 2 ^ s * 2 ^ 53) as Hsplit
    by (rewrite <- Z.pow_add_r by lia; f_equal; lia).
  assert (2 ^ (d - 1) = 2 ^ s * 2 ^ 52) as Hsplit'
    by (rewrite <- Z.pow_add_r by lia; f_equal; lia).
  assert (2 ^ 52 <= Zpos m / 2 ^ s < 2 ^ 53) as Hqb.
  { split; [apply Z.div_le_lower_bound | apply Z.div_lt_upper_bound]; lia. }
  assert (2 * (q' * 2 ^ s) <= 2 * Zpos m + 2 ^ s) as Hbound.
  { destruct (shr_r (shrN (Zpos m) (Z.to_nat s))) eqn:Er.
    - specialize (Hr eq_refl). nia.
    - rewrite Hsame by done. nia. }
  assert (0 < q' <= 2 ^ 53) as Hq' by lia.
  clearbody q'. clear Hlo Hhi Hsame Hq Hr.
  destruct q' as [|pq|pq]; [lia| |lia].
  cbn [Zdigits2] in Ex.
  set (n2 := fexp 53 1024 (Zpos (digits2_pos pq) + (e + s)) - (e + s)) in *.
  assert (Zpos (digits2_pos pq) <= 54) as Hdq
    by (apply digits2_le; lia).
  assert (n2 <= 1) as Hn2 by (unfold n2, fexp, emin; lia).
  rewrite shr_exact in Ex.
  destruct (shr_iter_spec (Zpos pq) (Z.to_nat n2) ltac:(lia)) as [Hq2 _].
  set (k2 := Z.max n2 0) in *.
  assert (Z.of_nat (Z.to_nat n2) = k2) as Hk2 by (unfold k2; lia).
  rewrite Hk2 in Hq2.
  assert (0 < 2 ^ k2) as Hpk by (apply Z.pow_pos_nonneg; lia).
  rewrite Hq2 in Ex.
  pose proof (Z.div_mod (Zpos pq) (2 ^ k2) ltac:(lia)) as Hdm2.
  pose proof (Z.mod_pos_bound (Zpos pq) (2 ^ k2) Hpk) as Hmb2.
  assert (0 <= Zpos pq / 2 ^ k2) as Hnn by (apply Z.div_pos; lia).
  destruct (Zpos pq / 2 ^ k2) as [|m'|m'] eqn:Em'; [by left| |lia].
  right. exists m', (e + s + k2).
  destruct (Z.leb_spec (e + s + k2) (1024 - 53)) as [_|Hbad];
    [|unfold k2 in Hbad; lia].
  split; [done|]. split; [lia|].
  replace (e + s + k2 - e) with (k2 + s) by lia.
  rewrite Z.pow_add_r by lia. nia.
Qed.

Lemma tooManyChanges_above (k n : Z) :
  0 <= n < 2 ^ 50 -> 2 * n < 5 * k ->
  Compress.tooManyChanges k n = true.
Proof.
  intros Hn Hk. unfold Compress.tooManyChanges, Compress.DELTA_THRESHOLD,
    Num.lit_0_4, Num.mul, Num.prec, Num.emax.
  destruct n as [|p|p]; [cbn; lia| |lia].
  cbn [Num.ofZ SFmul xorb Z.add]. fold mantissa_0_4.
  set (m := (p * mantissa_0_4)%positive).
  assert (Zpos m = Zpos p * Zpos mantissa_0_4) as Hm by done.
  pose proof (digits2_bounds m) as [Hdlo Hdhi].
  assert (53 <= Zpos (digits2_pos m)) as Hd53.
  { pose proof (digits2_ge m 53). unfold mantissa_0_4 in Hm. lia. }
  assert (Zpos (digits2_pos m) <= 103) as Hd103.
  { apply digits2_le; [|lia]. unfold mantissa_0_4 in Hm. lia. }
  set (d := Zpos (digits2_pos m)) in *.
  assert (0 < 2 ^ (d - 53)) as Hps by (apply Z.pow_pos_nonneg; lia).
  assert (2 ^ (d - 1) = 2 ^ (d - 53) * 2 ^ 52) as Hsplit
    by (rewrite <- Z.pow_add_r by lia; f_equal; lia).
  assert (2 ^ (d - 53) < 2 * Zpos p) as Hulp by (unfold mantissa_0_4 in Hm; nia).
  change (0 + -54) with (-54).
  destruct (binary_round_upper m (-54)) as [->|(m' & e' & -> & He' & Hb)];
    [fold d; lia..| cbn; lia |].
  fold d in Hb. unfold Num.Zgt. cbn [cond_Zopp].
  assert (0 < 2 ^ (e' - -54)) as Hpe by (apply Z.pow_pos_nonneg; lia).
  assert (Zpos m' * 2 ^ (e' - -54) < k * 2 ^ 54) as Hlt
    by (unfold mantissa_0_4 in Hm; lia).
  destruct (Z.leb_spec 0 e') as [Hpos|Hneg].
  - apply Z.gtb_lt.
    replace (e' - -54) with (e' + 54) in Hlt by lia.
    rewrite Z.pow_add_r in Hlt by lia.
    assert (0 < 2 ^ e') by (apply Z.pow_pos_nonneg; lia). nia.
  - apply Z.gtb_lt.
    assert (2 ^ 54 = 2 ^ (- e') * 2 ^ (e' - -54)) as Hs54
      by (rewrite <- Z.pow_add_r by lia; f_equal; lia).
    assert (0 < 2 ^ (- e')) by (apply Z.pow_pos_nonneg; lia). nia.
Qed.

Lemma scanChanges_count prev curr ic todo : forall i,
  length (Compress.scanChanges prev curr ic i todo)
  = length (filter (fun j => Compress.cellChanged prev curr ic j = true)
              (seqZ i (Z.of_nat todo))).
Proof.
  induction todo as [|todo IH]; intros i; [done|].
  cbn [Compress.scanChanges]. rewrite seqZ_cons by lia.
  replace (Z.pred (Z.of_nat (S todo))) with (Z.of_nat todo) by lia.
  rewrite length_app, IH, filter_cons.
  replace (Z.succ i) with (i + 1) by lia.
  destruct (Compress.cellChanged prev curr ic i); by case_decide.
Qed.

End Rounding.

(** C3.  Threshold policy.  When the number of changed cells exceeds 0.4
    times the number of cells ([2 * n < 5 * changed] in integers),
    [computeDelta] returns the full frame of [curr], whichever cells
    changed.  The comparison in the source is between binary64 numbers; it
    agrees with the exact one for every grid of fewer than 2^50 cells
    (strings are shorter than that). *)
Theorem C3_threshold_gives_full
    (prev curr : ConvertedFrame) (includeColors : bool) :
  Z.of_nat (length (chars curr)) < 2 ^ 50 ->
  2 * Z.of_nat (length (chars curr))
    < 5 * changedCells prev curr includeColors ->
  Compress.computeDelta prev curr includeColors
  = Types.FrameFull (chars curr)
      (if includeColors then Some (colors curr) else None).
Proof.
  intros Hn Hk. unfold Compress.computeDelta.
  rewrite scanChanges_count. fold (changedCells prev curr includeColors).
  rewrite tooManyChanges_above by lia. done.
Qed.


(** ** The binary format *)

Section BinaryFormat.
Import JS Types.

(** ** Variable-length integers *)

Lemma encodeVarInt_eq n :
  Compress.encodeVarInt n =
  if n >? 127
  then Z.lor (Z.land n 127) 128 :: Compress.encodeVarInt (Z.shiftr (toUint32 n) 7)
  else [n].
Proof.
  rewrite Compress.encodeVarInt_equation_1.
  unfold Compress.encodeVarInt_unfold_clause_1.
  destruct (Z_gt_dec n 127), (Z.gtb_spec n 127); (done || lia).
Qed.

Lemma toInt32_small z : - 2 ^ 31 <= z < 2 ^ 31 -> toInt32 z = z.
Proof. intros H. unfold toInt32. rewrite Z.mod_small by lia. lia. Qed.

Lemma lor_disjoint_add v x s :
  0 <= s -> 0 <= v < 2 ^ s -> 0 <= x ->
  Z.lor v (x * 2 ^ s) = v + x * 2 ^ s.
Proof.
  intros Hs Hv Hx.
  rewrite <- (Z.add_lor_land v (x * 2 ^ s)).
  assert (Z.land v (x * 2 ^ s) = 0) as ->; [|lia].
  apply Z.bits_inj'. intros k Hk. rewrite Z.land_spec, Z.bits_0.
  destruct (Z.lt_ge_cases k s).
  - rewrite Z.mul_pow2_bits_low by lia. apply andb_false_r.
  - destruct (Z.eq_dec v 0) as [->|]; [by rewrite Z.bits_0|].
    rewrite (Z.bits_above_log2 v k); [done|lia|].
    apply Z.lt_le_trans with s; [|lia]. apply Z.log2_lt_pow2; lia.
Qed.

Lemma low7 n : Z.land n 127 = n mod 128.
Proof. change 127 with (Z.ones 7). rewrite Z.land_ones by lia. done. Qed.

Lemma bit7_clear n : 0 <= n < 128 -> Z.land n 128 = 0.
Proof.
  intros H. apply Z.bits_inj'. intros k Hk. rewrite Z.land_spec, Z.bits_0.
  change 128 with (2 ^ 7). rewrite Z.pow2_bits_eqb by lia.
  destruct (Z.eqb_spec 7 k) as [<-|]; [|apply andb_false_r].
  destruct (Z.eq_dec n 0) as [->|]; [done|].
  rewrite (Z.bits_above_log2 n 7); [done|lia|].
  apply Z.log2_lt_pow2; lia.
Qed.

Lemma bit7_set x : 0 <= x < 128 -> Z.lor x 128 = x + 128.
Proof.
  intros H. change 128 with (1 * 2 ^ 7). apply lor_disjoint_add; lia.
Qed.

Lemma continuation_byte x :
  0 <= x < 128 -> Z.land (x + 128) 127 = x /\ Z.land (x + 128) 128 <> 0.
Proof.
  intros H. split.
  - rewrite low7. change 128 with (1 * 128) at 1. rewrite Z.mod_add by lia.
    apply Z.mod_small; lia.
  - intros Hc. assert (Z.testbit (Z.land (x + 128) 128) 7 = false) as Hb
      by (rewrite Hc; apply Z.bits_0).
    rewrite Z.land_spec in Hb. change 128 with (2 ^ 7) in Hb at 2.
    rewrite Z.pow2_bits_true, andb_true_r in Hb by lia.
    rewrite Z.testbit_false in Hb by lia.
    replace ((x + 128) / 2 ^ 7) with 1 in Hb; [done|].
    apply Z.div_unique with x; lia.
Qed.

Lemma shl32_small x s :
  0 <= s < 32 -> 0 <= x -> x * 2 ^ s < 2 ^ 31 -> shl32 x s = x * 2 ^ s.
Proof.
  intros Hs Hx Hb. unfold shl32.
  assert (0 < 2 ^ s) by (apply Z.pow_pos_nonneg; lia).
  rewrite (Z.mod_small s) by lia.
  rewrite (toInt32_small x) by nia. apply toInt32_small. nia.
Qed.

Lemma shiftr7 n : 0 <= n < 2 ^ 32 -> Z.shiftr (toUint32 n) 7 = n / 128.
Proof.
  intros H. unfold toUint32. rewrite Z.mod_small by lia.
  by rewrite Z.shiftr_div_pow2 by lia.
Qed.

(** The decoder loop undoes [encodeVarInt] as long as the accumulated value
    stays below 2^31, where the int32 arithmetic of [<<] and [|=] is exact. *)
Lemma decodeVarIntLoop_encode n : 0 <= n ->
  forall rest value shift bytesRead,
  0 <= n -> 0 <= shift < 32 -> 0 <= value < 2 ^ shift ->
  value + n * 2 ^ shift < 2 ^ 31 ->
  Decoder.decodeVarIntLoop (map u8 (Compress.encodeVarInt n) ++ rest)
    value shift bytesRead
  = (value + n * 2 ^ shift,
     (bytesRead + length (Compress.encodeVarInt n))%nat).
Proof.
  intros Hn0. pattern n. apply Z_lt_induction; [|done].
  clear n Hn0. intros n IH rest value shift bytesRead Hn Hs Hv Hb.
  assert (0 < 2 ^ shift) as Hp by (apply Z.pow_pos_nonneg; lia).
  rewrite encodeVarInt_eq. destruct (Z.gtb_spec n 127) as [Hbig|Hsmall].
  - assert (n < 2 ^ 31) as Hn31 by nia.
    pose proof (Z.mod_pos_bound n 128 ltac:(lia)) as Hm.
    rewrite low7, bit7_set, shiftr7 by lia.
    cbn [map app Decoder.decodeVarIntLoop length].
    rewrite (u8_byte (n mod 128 + 128)) by (unfold isByte; lia).
    destruct (continuation_byte (n mod 128) Hm) as [-> Hc].
    destruct (Z.eqb_spec (Z.land (n mod 128 + 128) 128) 0) as [|_]; [done|].
    pose proof (Z.div_mod n 128 ltac:(lia)) as Hdm.
    assert (0 <= n / 128 < n) as Hq by (split; [apply Z.div_pos|apply Z.div_lt]; lia).
    assert (shift + 7 < 32) as Hs7.
    { destruct (Z.lt_ge_cases (shift + 7) 32); [done|].
      assert (2 ^ 25 <= 2 ^ shift) by (apply Z.pow_le_mono_r; lia). nia. }
    assert (2 ^ (shift + 7) = 2 ^ shift * 128) as Hpow
      by (rewrite Z.pow_add_r by lia; done).
    rewrite shl32_small by nia.
    rewrite lor_disjoint_add by lia.
    rewrite toInt32_small by nia.
    rewrite IH; [f_equal; [nia|lia] | lia | lia | lia | nia | nia].
  - cbn [map app Decoder.decodeVarIntLoop length].
    rewrite (u8_byte n) by (unfold isByte; lia).
    rewrite low7, (Z.mod_small n 128), bit7_clear by lia. cbn [Z.eqb].
    rewrite shl32_small by nia.
    rewrite lor_disjoint_add by lia.
    rewrite toInt32_small by nia. f_equal; lia.
Qed.

Lemma decodeVarInt_encode n rest :
  0 <= n < 2 ^ 31 ->
  Decoder.decodeVarInt (map u8 (Compress.encodeVarInt n) ++ rest)
  = (n, length (Compress.encodeVarInt n)).
Proof.
  intros H. unfold Decoder.decodeVarInt.
  rewrite decodeVarIntLoop_encode by lia. f_equal. lia.
Qed.

(** ** Frame records *)

Lemma decodeChanges_encode ic changes rest :
  Forall wfChange changes ->
  Decoder.decodeChanges ic (length changes)
    (concat (map (OutputFormats.changeBytes ic) changes) ++ rest)
  = (map (normChange ic) changes, rest).
Proof.
  induction 1 as [|c changes [Hi Hc] _ IH]; [done|].
  cbn [map concat length Decoder.decodeChanges].
  rewrite <- app_assoc.
  set (tl := concat (map (OutputFormats.changeBytes ic) changes) ++ rest) in *.
  unfold OutputFormats.changeBytes. rewrite <- !app_assoc.
  rewrite decodeVarInt_encode by done.
  rewrite drop_app_length' by (by rewrite length_map).
  cbn [app head tail default]. rewrite (u8_byte (char c)) by done.
  destruct ic; cbn [app skipn lookup list_lookup]; rewrite ?drop_0, IH; done.
Qed.

Lemma fromCharCodeSpread_fits E units :
  Z.of_nat (length units) <= maxArguments E ->
  fromCharCodeSpread E units = Returned units.
Proof.
  intros H. unfold fromCharCodeSpread.
  by destruct (Z.leb_spec (Z.of_nat (length units)) (maxArguments E)); [|lia].
Qed.

Lemma fromCharCodeSpread_over E units :
  maxArguments E < Z.of_nat (length units) ->
  fromCharCodeSpread E units = Thrown RangeError.
Proof.
  intros H. unfold fromCharCodeSpread.
  by destruct (Z.leb_spec (Z.of_nat (length units)) (maxArguments E)); [lia|].
Qed.

(** The decoding of a written frame, whatever follows it: the frame back
    when its symbols can be spread, the RangeError of the spread if not. *)
Lemma decodeFrame_encode E m f rest :
  wfFrame m f -> frameSpreads E f ->
  Decoder.decodeFrame E (includeColors m) (Types.rows m * Types.cols m)
    (OutputFormats.frameBytes (includeColors m) f ++ rest)
  = Returned (normFrame (includeColors m) f, rest).
Proof.
  destruct f as [chars colors|changes]; cbn [wfFrame frameSpreads].
  - intros (Hlen & Hb & Hcol) Hfit.
    unfold Decoder.decodeFrame, OutputFormats.frameBytes, normFrame.
    rewrite <- !app_assoc. cbn [app head tail].
    rewrite (map_u8_bytes chars) by done.
    rewrite take_app_length', drop_app_length' by done.
    rewrite fromCharCodeSpread_fits by done. cbn [JS.bind].
    destruct (includeColors m).
    + destruct Hcol as (cs & -> & Hcs); [done|]. cbn [default].
      rewrite take_app_length', drop_app_length' by (by rewrite length_map).
      done.
    + by destruct colors.
  - intros (Hlen & Hc) _.
    unfold Decoder.decodeFrame, OutputFormats.frameBytes, normFrame.
    rewrite <- !app_assoc. cbn [app head tail].
    rewrite decodeVarInt_encode by lia.
    rewrite drop_app_length' by (by rewrite length_map).
    rewrite Nat2Z.id, decodeChanges_encode by done. done.
Qed.

Lemma decodeFrame_encode_over E m f rest :
  wfFrame m f -> ~ frameSpreads E f ->
  Decoder.decodeFrame E (includeColors m) (Types.rows m * Types.cols m)
    (OutputFormats.frameBytes (includeColors m) f ++ rest)
  = Thrown RangeError.
Proof.
  destruct f as [chars colors|changes]; cbn [wfFrame frameSpreads];
    [|by intros _ []].
  intros (Hlen & Hb & Hcol) Hover.
  unfold Decoder.decodeFrame, OutputFormats.frameBytes.
  rewrite <- !app_assoc. cbn [app head tail].
  rewrite (map_u8_bytes chars) by done.
  rewrite take_app_length' by done.
  by rewrite fromCharCodeSpread_over by lia.
Qed.

Lemma decodeFrames_encode E m frames rest :
  Forall (wfFrame m) frames -> Forall (frameSpreads E) frames ->
  Decoder.decodeFrames E (includeColors m) (Types.rows m * Types.cols m)
    (length frames)
    (concat (map (OutputFormats.frameBytes (includeColors m)) frames) ++ rest)
  = Returned (map (normFrame (includeColors m)) frames).
Proof.
  induction 1 as [|f frames Hf _ IH]; intros Hfit; [done|].
  inversion Hfit as [|? ? Hf1 Hf2]; subst.
  cbn [map concat length Decoder.decodeFrames]. rewrite <- app_assoc.
  rewrite decodeFrame_encode by done. cbn [JS.bind fst snd].
  by rewrite IH.
Qed.

(** The first frame that cannot be spread stops the decoding. *)
Lemma decodeFrames_encode_over E m frames rest :
  Forall (wfFrame m) frames -> ~ Forall (frameSpreads E) frames ->
  Decoder.decodeFrames E (includeColors m) (Types.rows m * Types.cols m)
    (length frames)
    (concat (map (OutputFormats.frameBytes (includeColors m)) frames) ++ rest)
  = Thrown RangeError.
Proof.
  induction 1 as [|f frames Hf _ IH]; intros Hover; [by destruct Hover|].
  cbn [map concat length Decoder.decodeFrames]. rewrite <- app_assoc.
  assert (frameSpreads E f \/ ~ frameSpreads E f) as [Hfit|Hno].
  { destruct f as [chars colors|changes]; cbn [frameSpreads]; [lia|by left]. }
  - rewrite decodeFrame_encode by done. cbn [JS.bind fst snd].
    rewrite IH; [done|]. intros Hall. apply Hover. by constructor.
  - by rewrite decodeFrame_encode_over.
Qed.

(** ** Resolving normalised frames *)

Lemma typedSet_u8 buf i v : typedSet buf i (u8 v) = typedSet buf i v.
Proof. unfold typedSet. by rewrite u8_idemp. Qed.

Lemma applyChange_norm ic st c :
  Player.applyChange ic st (normChange ic c) = Player.applyChange ic st c.
Proof.
  unfold Player.applyChange, normChange.
  destruct ic, st as [cs [cc|]]; cbn; by rewrite ?typedSet_u8.
Qed.

Lemma fold_applyChange_norm ic changes : forall st,
  fold_left (Player.applyChange ic) (map (normChange ic) changes) st
  = fold_left (Player.applyChange ic) changes st.
Proof.
  induction changes as [|c changes IH]; intros st; [done|].
  cbn [map fold_left]. by rewrite applyChange_norm, IH.
Qed.

Lemma applyFrame_norm m st f :
  wfFrame m f ->
  Player.applyFrame (includeColors m) st (normFrame (includeColors m) f)
  = Player.applyFrame (includeColors m) st f.
Proof.
  destruct f as [chars colors|changes]; cbn [wfFrame normFrame Player.applyFrame].
  - intros (_ & _ & Hcol). destruct (includeColors m).
    + destruct Hcol as (cs & -> & _); [done|]. cbn. by rewrite map_u8_idemp.
    + by destruct colors.
  - intros _. by rewrite fold_applyChange_norm.
Qed.

Lemma resolveFrames_norm m frames : forall st,
  Forall (wfFrame m) frames ->
  Player.resolveFrames (includeColors m) st
    (map (normFrame (includeColors m)) frames)
  = Player.resolveFrames (includeColors m) st frames.
Proof.
  induction frames as [|f frames IH]; intros st Hf; [done|].
  inversion Hf; subst. cbn [map Player.resolveFrames].
  rewrite applyFrame_norm by done. by rewrite IH.
Qed.

Lemma preDecodeLoop_norm m cols frames : forall st,
  Forall (wfFrame m) frames ->
  Player.preDecodeLoop (includeColors m) cols st
    (map (normFrame (includeColors m)) frames)
  = Player.preDecodeLoop (includeColors m) cols st frames.
Proof.
  induction frames as [|f frames IH]; intros st Hf; [done|].
  inversion Hf; subst. cbn [map Player.preDecodeLoop].
  rewrite applyFrame_norm by done. by rewrite IH.
Qed.

(** ** The header *)

Lemma uint16LE_value v :
  0 <= v <= 65535 -> u16 v mod 256 + 256 * (u16 v / 256) = v.
Proof.
  intros H. unfold u16. rewrite (Z.mod_small v 65536) by lia.
  pose proof (Z.div_mod v 256 ltac:(lia)). lia.
Qed.

(** The decoding of a written stream up to the frames, whatever follows
    the stream. *)
Lemma decode_write_frames E a rest :
  wfAnimation a ->
  Decoder.decodeBinary E (OutputFormats.writeBinaryBytes a ++ rest)
  = try ramp <- fromCharCodeSpread E (ramp (meta a));
    try fs <-
      Decoder.decodeFrames E (includeColors (meta a))
        (Types.rows (meta a) * Types.cols (meta a)) (length (frames a))
        (concat (map (OutputFormats.frameBytes (includeColors (meta a)))
                   (frames a)) ++ rest);
    Returned {| meta := withoutPalette (meta a); frames := fs |}.
Proof.
  destruct a as [m fs]. unfold wfAnimation. cbn [meta frames].
  intros [(Hv & Hc & Hr & Hf & Hn & Hn' & Hl & Hb & Hd) Hfs].
  unfold OutputFormats.writeBinaryBytes, OutputFormats.header,
    OutputFormats.uint16LE, Decoder.decodeBinary. cbn [meta frames].
  rewrite <- !app_assoc. cbn [app replicate].
  unfold Decoder.magicOK, Decoder.getUint16, Decoder.byteAt.
  cbn [take firstn lookup list_lookup default skipn negb JS.bind id].
  rewrite bool_decide_eq_true_2 by done. cbn [negb]. unfold id.
  rewrite !uint16LE_value by lia.
  rewrite !u8_byte by (unfold isByte; lia).
  rewrite Nat2Z.id, (map_u8_bytes (ramp m)) by done.
  rewrite drop_0, take_app_length, drop_app_length.
  assert ((if OutputFormats.colorModeByte (colorMode m) =? 0 then Mono
           else if OutputFormats.colorModeByte (colorMode m) =? 1 then Rgb else Palette)
          = colorMode m) as -> by (by destruct (colorMode m)).
  fold (includeColors m).
  rewrite Hn, Nat2Z.id.
  destruct (fromCharCodeSpread E (ramp m)) as [rp|e] eqn:Hrp; [|done].
  cbn [JS.bind].
  assert (rp = ramp m) as ->.
  { unfold fromCharCodeSpread in Hrp. destruct (_ <=? _); congruence. }
  destruct (Decoder.decodeFrames _ _ _ _ _) as [fs'|e]; [|done].
  cbn [JS.bind]. unfold withoutPalette. by rewrite Hd, Hn.
Qed.

Lemma decode_write E a :
  wfAnimation a -> spreadable E a ->
  Decoder.decodeBinary E (OutputFormats.writeBinaryBytes a)
  = Returned {| meta := withoutPalette (meta a);
                frames := map (normFrame (includeColors (meta a))) (frames a) |}.
Proof.
  intros Hwf [Hramp Hfit].
  rewrite <- (app_nil_r (OutputFormats.writeBinaryBytes a)).
  rewrite decode_write_frames by done.
  rewrite fromCharCodeSpread_fits by done. cbn [JS.bind].
  destruct Hwf as [_ Hfs]. by rewrite decodeFrames_encode.
Qed.

(** A full frame the engine cannot spread makes the decoder throw. *)
Lemma decode_write_over E a :
  wfAnimation a -> ~ Forall (frameSpreads E) (frames a) ->
  Decoder.decodeBinary E (OutputFormats.writeBinaryBytes a)
  = Thrown RangeError.
Proof.
  intros Hwf Hover.
  rewrite <- (app_nil_r (OutputFormats.writeBinaryBytes a)).
  rewrite decode_write_frames by done.
  destruct (fromCharCodeSpread E (ramp (meta a))) as [rp|e] eqn:Hrp.
  - cbn [JS.bind]. destruct Hwf as [_ Hfs].
    by rewrite decodeFrames_encode_over.
  - cbn [JS.bind]. unfold fromCharCodeSpread in Hrp.
    destruct (_ <=? _); [done|]. by injection Hrp as <-.
Qed.

Lemma tail_length_le {A} (l : list A) : (length (tail l) <= length l)%nat.
Proof. destruct l; cbn; lia. Qed.

Lemma decodeChanges_rest ic count : forall rest,
  (length (Decoder.decodeChanges ic count rest).2 <= length rest)%nat.
Proof.
  induction count as [|count IH]; intros rest; [done|].
  cbn [Decoder.decodeChanges].
  destruct (Decoder.decodeVarInt rest) as [index indexBytes].
  set (rest1 := if ic then drop 3 (tail (drop indexBytes rest))
                else tail (drop indexBytes rest)).
  specialize (IH rest1).
  destruct (Decoder.decodeChanges ic count rest1) as [changes rest2].
  cbn [snd] in *.
  assert (length rest1 <= length rest)%nat; [|lia].
  pose proof (tail_length_le (drop indexBytes rest)) as Ht.
  rewrite length_drop in Ht.
  unfold rest1. destruct ic; rewrite ?length_drop; lia.
Qed.

(** One frame read from any bytes: a frame and a suffix no longer than
    the bytes, or the RangeError of a spread, which needs more bytes than
    the engine accepts arguments. *)
Lemma decodeFrame_any E ic total rest :
  match Decoder.decodeFrame E ic total rest with
  | Returned (f, rest') => (length rest' <= length rest)%nat
  | Thrown e => e = RangeError /\ maxArguments E < Z.of_nat (length rest)
  end.
Proof.
  unfold Decoder.decodeFrame.
  destruct (head rest) as [[|p|p]|] eqn:Hh.
  2-4: destruct (Decoder.decodeVarInt (tail rest)) as [changeCount countBytes];
    pose proof (decodeChanges_rest ic (Z.to_nat changeCount)
                  (drop countBytes (tail rest))) as Hle;
    destruct (Decoder.decodeChanges ic (Z.to_nat changeCount)
                (drop countBytes (tail rest))) as [changes rest'];
    cbn [snd] in Hle; rewrite length_drop in Hle;
    pose proof (tail_length_le rest); lia.
  unfold fromCharCodeSpread.
  destruct (Z.leb_spec (Z.of_nat (length (take (Z.to_nat total) (tail rest))))
              (maxArguments E)) as [Hle|Hgt]; cbn [JS.bind].
  - pose proof (tail_length_le rest).
    destruct ic; rewrite ?length_drop; lia.
  - split; [done|]. pose proof (tail_length_le rest).
    rewrite length_take in Hgt. lia.
Qed.

Lemma decodeFrames_any E ic total n : forall rest,
  match Decoder.decodeFrames E ic total n rest with
  | Returned fs => length fs = n
  | Thrown e => e = RangeError /\ maxArguments E < Z.of_nat (length rest)
  end.
Proof.
  induction n as [|n IH]; intros rest; [done|].
  cbn [Decoder.decodeFrames].
  pose proof (decodeFrame_any E ic total rest) as Hf.
  destruct (Decoder.decodeFrame E ic total rest) as [[f rest']|e];
    cbn [JS.bind fst snd]; [|done].
  specialize (IH rest').
  destruct (Decoder.decodeFrames E ic total n rest') as [fs|e];
    cbn [JS.bind]; [cbn; lia|].
  destruct IH as [-> IH]. split; [done|lia].
Qed.

Lemma decodeBinary_bad_magic E bytes :
  Decoder.magicOK bytes = false ->
  Decoder.decodeBinary E bytes = Thrown BadMagic.
Proof. intros H. unfold Decoder.decodeBinary. by rewrite H. Qed.

Lemma getUint16_inside bytes off :
  (S off < length bytes)%nat ->
  exists v, Decoder.getUint16 bytes off = Returned v.
Proof.
  intros H. unfold Decoder.getUint16.
  destruct (lookup_lt_is_Some_2 bytes off ltac:(lia)) as [lo ->].
  destruct (lookup_lt_is_Some_2 bytes (S off) ltac:(lia)) as [hi ->].
  by eexists.
Qed.

Lemma decodeBinary_short_header E bytes :
  Decoder.magicOK bytes = true -> (length bytes < 13)%nat ->
  Decoder.decodeBinary E bytes = Thrown RangeError.
Proof.
  intros Hm Hl. unfold Decoder.decodeBinary. rewrite Hm. cbn [negb].
  unfold Decoder.getUint16.
  destruct (bytes !! 6%nat), (bytes !! 7%nat); try done. cbn [JS.bind].
  destruct (bytes !! 8%nat), (bytes !! 9%nat); try done. cbn [JS.bind].
  destruct (bytes !! 11%nat); try done.
  rewrite (lookup_ge_None_2 bytes 12) by lia. done.
Qed.

(** Any stream with the magic and the 13 header bytes. *)
Lemma decodeBinary_any E bytes :
  Decoder.magicOK bytes = true -> (13 <= length bytes)%nat ->
  match Decoder.decodeBinary E bytes with
  | Returned a =>
      length (frames a) = Z.to_nat (frameCount (meta a)) /\
      ramp (meta a) = take (Z.to_nat (Decoder.byteAt bytes 13)) (drop 32 bytes)
  | Thrown e => e = RangeError /\ maxArguments E < Z.of_nat (length bytes)
  end.
Proof.
  intros Hm Hl. unfold Decoder.decodeBinary. rewrite Hm. cbn [negb].
  destruct (getUint16_inside bytes 6 ltac:(lia)) as [c ->].
  destruct (getUint16_inside bytes 8 ltac:(lia)) as [r ->].
  destruct (getUint16_inside bytes 11 ltac:(lia)) as [n ->].
  cbn [JS.bind].
  set (rampLen := Z.to_nat (Decoder.byteAt bytes 13)).
  unfold fromCharCodeSpread at 1.
  destruct (Z.leb_spec (Z.of_nat (length (take rampLen (drop 32 bytes))))
              (maxArguments E)) as [Hle|Hgt]; cbn [JS.bind].
  - match goal with |- context [Decoder.decodeFrames E ?ic ?t ?k ?rest] =>
      pose proof (decodeFrames_any E ic t k rest) as Hf;
      destruct (Decoder.decodeFrames E ic t k rest) as [fs|e] end;
      cbn [JS.bind meta frames frameCount ramp].
    + done.
    + destruct Hf as [-> Hf]. split; [done|].
      rewrite !length_drop in Hf. lia.
  - split; [done|]. rewrite length_take, length_drop in Hgt. lia.
Qed.

Lemma sampleAnimation_wf : wfAnimation sampleAnimation.
Proof.
  repeat split; cbn; try lia; try done;
    repeat (constructor; unfold isByte, wfChange; cbn; try lia).
  intros _. eexists. split; reflexivity.
Qed.

Lemma paletteAnimation_wf : wfAnimation paletteAnimation.
Proof.
  repeat split; cbn; try lia; try done;
    repeat (constructor; unfold isByte, wfChange; cbn; try lia).
  intros _. eexists. split; reflexivity.
Qed.

Lemma sampleAnimation_spreadable : spreadable sampleEngine sampleAnimation.
Proof.
  split; [vm_compute; discriminate|].
  repeat constructor; vm_compute; discriminate.
Qed.

Lemma wideAnimation_wf : wfAnimation wideAnimation.
Proof.
  split.
  - repeat split; cbn; try lia; try done.
    repeat (constructor; [unfold isByte; lia|]). constructor.
  - constructor; [|constructor]. cbn [wfFrame wideAnimation meta].
    split; [by rewrite length_replicate|].
    split; [|done]. apply Forall_replicate. unfold isByte. lia.
Qed.

End BinaryFormat.

(** C2 (as amended).  Binary round trip.  For a well-formed animation
    (header fields within their widths, single-byte symbols, [frameCount]
    frames, full frames of [rows * cols] symbols with their colours when
    the mode has colours, change counts and indices below 2^31), on an
    engine that accepts the ramp and the symbols of every full frame as
    the arguments of one call and allocates the player's colour buffer,
    the writer returns a stream that the decoder reads back with the same
    meta except for the palette, which the format does not carry, and with
    frames that resolve to the same buffers, one per frame, and to the
    same decoded frames. *)
Theorem C2_binary_roundtrip (E : JS.Engine) (a : Types.ASCIIAnimation) :
  wfAnimation a -> spreadable E a ->
  (Types.includeColors (Types.meta a) = true ->
   Types.rows (Types.meta a) * Types.cols (Types.meta a) * 3
   <= JS.maxByteLength E) ->
  exists bytes a' resolved,
    OutputFormats.writeBinary a = JS.Returned bytes /\
    Decoder.decodeBinary E bytes = JS.Returned a' /\
    Types.meta a' = withoutPalette (Types.meta a) /\
    Player.resolve E a = JS.Returned resolved /\
    Player.resolve E a' = JS.Returned resolved /\
    length resolved = length (Types.frames a) /\
    Player.preDecodeFrames E a' = Player.preDecodeFrames E a.
Proof.
  intros Hwf Hfit Hmax.
  destruct (initialBuffers_returns E (Types.meta a)) as (st & Hst & _).
  { intros Hic. destruct Hwf as [(_ & ? & ? & _) _]. split; [nia|auto]. }
  eexists _, _, _. split; [reflexivity|].
  split; [by apply decode_write|]. split; [done|].
  destruct Hwf as [_ Hfs].
  unfold Player.resolve, Player.preDecodeFrames. cbn [Types.meta Types.frames].
  change (Types.includeColors (withoutPalette (Types.meta a)))
    with (Types.includeColors (Types.meta a)).
  change (Player.initialBuffers E (withoutPalette (Types.meta a)))
    with (Player.initialBuffers E (Types.meta a)).
  rewrite Hst. cbn [JS.bind].
  rewrite resolveFrames_norm, preDecodeLoop_norm by done.
  split; [reflexivity|]. split; [reflexivity|]. split; [|reflexivity].
  clear. generalize st. induction (Types.frames a) as [|f fs IH]; intros st0;
    [done|]. cbn. by rewrite IH.
Qed.

Lemma C2_roundtrip_witness :
  wfAnimation sampleAnimation /\ spreadable sampleEngine sampleAnimation /\
  exists bytes a' resolved,
    OutputFormats.writeBinary sampleAnimation = JS.Returned bytes /\
    Decoder.decodeBinary sampleEngine bytes = JS.Returned a' /\
    Types.meta a' = withoutPalette (Types.meta sampleAnimation) /\
    Player.resolve sampleEngine sampleAnimation = JS.Returned resolved /\
    Player.resolve sampleEngine a' = JS.Returned resolved /\
    length resolved = length (Types.frames sampleAnimation) /\
    Player.preDecodeFrames sampleEngine a'
    = Player.preDecodeFrames sampleEngine sampleAnimation.
Proof.
  split; [apply sampleAnimation_wf|].
  split; [apply sampleAnimation_spreadable|].
  apply (C2_binary_roundtrip sampleEngine sampleAnimation);
    [apply sampleAnimation_wf | apply sampleAnimation_spreadable
    | intros _; vm_compute; discriminate].
Defined.

Lemma C2_palette_and_wide_frame :
  (wfAnimation paletteAnimation /\
   exists bytes a',
     OutputFormats.writeBinary paletteAnimation = JS.Returned bytes /\
     Decoder.decodeBinary sampleEngine bytes = JS.Returned a' /\
     Types.meta a' <> Types.meta paletteAnimation) /\
  (wfAnimation wideAnimation /\
   forall E, JS.maxArguments E < 130000 ->
     Decoder.decodeBinary E (OutputFormats.writeBinaryBytes wideAnimation)
     = JS.Thrown JS.RangeError).
Proof.
  split.
  - split; [apply paletteAnimation_wf|].
    eexists _, _. split; [reflexivity|]. split; [vm_compute; reflexivity|].
    discriminate.
  - split; [apply wideAnimation_wf|].
    intros E HE. apply decode_write_over; [apply wideAnimation_wf|].
    intros Hall. apply Forall_cons in Hall as [Hf _].
    cbn [frameSpreads] in Hf. rewrite length_replicate in Hf. lia.
Qed.

(** C4 (as amended).  The decoder has no truncation check.  A stream that
    starts with the magic and holds the 13 bytes the header reads is
    decoded to an animation with [frameCount] frames whenever it is no
    longer than the number of arguments the engine accepts in a call; what
    the declarations reach past the end is read as absent, so the ramp is
    the bytes that are there.  On a longer stream the decoder can also
    throw, the RangeError of a spread; missing bytes never make it
    throw. *)
Theorem C4_decoder_reads_past_the_end (E : JS.Engine) (bytes : list Z) :
  Decoder.magicOK bytes = true -> (13 <= length bytes)%nat ->
  (Z.of_nat (length bytes) <= JS.maxArguments E ->
   exists a,
     Decoder.decodeBinary E bytes = JS.Returned a /\
     length (Types.frames a) = Z.to_nat (Types.frameCount (Types.meta a)) /\
     Types.ramp (Types.meta a)
     = take (Z.to_nat (Decoder.byteAt bytes 13)) (drop 32 bytes)) /\
  (forall a, Decoder.decodeBinary E bytes = JS.Returned a ->
     length (Types.frames a) = Z.to_nat (Types.frameCount (Types.meta a)) /\
     Types.ramp (Types.meta a)
     = take (Z.to_nat (Decoder.byteAt bytes 13)) (drop 32 bytes)) /\
  (forall e, Decoder.decodeBinary E bytes = JS.Thrown e ->
     e = JS.RangeError /\ JS.maxArguments E < Z.of_nat (length bytes)).
Proof.
  intros Hm Hl.
  pose proof (decodeBinary_any E bytes Hm Hl) as H.
  destruct (Decoder.decodeBinary E bytes) as [a|e].
  - split; [by exists a|]. split; [by intros ? [= <-]|done].
  - destruct H as [-> H]. split; [lia|]. split; [done|by intros ? [= <-]].
Qed.

Lemma C4_truncated_witness :
  Decoder.magicOK truncatedRampStream = true /\
  (13 <= length truncatedRampStream)%nat /\
  Z.of_nat (length truncatedRampStream) <= JS.maxArguments sampleEngine /\
  exists a,
    Decoder.decodeBinary sampleEngine truncatedRampStream = JS.Returned a /\
    length (Types.frames a) = Z.to_nat (Types.frameCount (Types.meta a)) /\
    Types.ramp (Types.meta a)
    = take (Z.to_nat (Decoder.byteAt truncatedRampStream 13))
        (drop 32 truncatedRampStream).
Proof.
  split; [reflexivity|]. split; [vm_compute; lia|].
  split; [vm_compute; discriminate|].
  apply (proj1 (C4_decoder_reads_past_the_end sampleEngine truncatedRampStream
                  eq_refl ltac:(vm_compute; lia))).
  vm_compute. discriminate.
Defined.

Lemma C4_truncated_ramp_is_decoded :
  Decoder.byteAt truncatedRampStream 13 = 10 /\
  length (drop 32 truncatedRampStream) = 5%nat /\
  exists a,
    Decoder.decodeBinary sampleEngine truncatedRampStream = JS.Returned a /\
    Types.ramp (Types.meta a) = JS.codes " .:+*" /\
    Types.frames a = [Types.FrameDelta []].
Proof.
  split; [reflexivity|]. split; [reflexivity|].
  eexists. split; [vm_compute; reflexivity|]. split; reflexivity.
Qed.

(** The writer has no check on the ramp length: for every animation the
    byte 0x0D of the stream is the ramp length modulo 256, and all the
    ramp bytes follow the 32 header bytes. *)
Lemma writeBinary_ramp_length_byte (a : Types.ASCIIAnimation) :
  exists bytes,
    OutputFormats.writeBinary a = JS.Returned bytes /\
    bytes !! 13%nat
    = Some (Z.of_nat (length (Types.ramp (Types.meta a))) mod 256) /\
    take (length (Types.ramp (Types.meta a))) (drop 32 bytes)
    = map JS.u8 (Types.ramp (Types.meta a)).
Proof.
  eexists. split; [reflexivity|]. split; [reflexivity|].
  unfold OutputFormats.writeBinaryBytes.
  rewrite drop_app_length' by done.
  by rewrite take_app_length' by (by rewrite length_map).
Qed.

(** C5.  The writer at a ramp of 256 symbols: it does not fail; the
    stream it returns declares a ramp length of 0 in byte 0x0D and holds
    the 256 ramp bytes all the same, against the format the writer
    documents (a ramp of [rampLength] bytes after the header), and the
    decoder reads an empty ramp from it. *)
Lemma C5_long_ramp_is_written :
  (255 < length (Types.ramp (Types.meta longRampAnimation)))%nat /\
  ~ JS.throws (OutputFormats.writeBinary longRampAnimation) /\
  exists bytes a',
    OutputFormats.writeBinary longRampAnimation = JS.Returned bytes /\
    bytes !! 13%nat = Some 0 /\ length bytes = 288%nat /\
    drop 32 bytes = Types.ramp (Types.meta longRampAnimation) /\
    Decoder.decodeBinary sampleEngine bytes = JS.Returned a' /\
    Types.ramp (Types.meta a') = [].
Proof.
  split; [vm_compute; lia|]. split; [intros [e He]; discriminate|].
  eexists _, _. split; [reflexivity|]. split; [reflexivity|].
  split; [reflexivity|]. split; [reflexivity|].
  split; [vm_compute; reflexivity|reflexivity].
Qed.

(** ** The converter *)

Section Converter.
Import JS AsciiConverter.

Lemma convert_cols_zero imageData options :
  optCols options = 0 -> width imageData <> 0 ->
  convertToASCII imageData options = Returned (emptyFrame 0).
Proof.
  intros Hc Hw. unfold convertToASCII. rewrite Hc.
  destruct (width imageData) as [|w|w]; [done| |];
    destruct (height imageData) as [|h|h]; reflexivity.
Qed.

Lemma convert_width_zero imageData options :
  width imageData = 0 -> optCols options <> 0 ->
  convertToASCII imageData options = Thrown RangeError.
Proof.
  intros Hw Hc. unfold convertToASCII. rewrite Hw.
  destruct (optCols options) as [|c|c]; [done| |];
    destruct (height imageData) as [|h|h]; reflexivity.
Qed.

Lemma loopValues_range fuel step stop : forall start,
  (forall s, step = Some s -> 1 <= s) ->
  Forall (fun z => start <= z < stop) (loopValues fuel (Some start) stop step).
Proof.
  induction fuel as [|fuel IH]; intros start Hs; cbn [loopValues]; [constructor|].
  destruct (Z.ltb_spec start stop); [|constructor].
  constructor; [lia|].
  destruct step as [s|]; cbn.
  - specialize (Hs s eq_refl). eapply Forall_impl; [apply IH; naive_solver|].
    cbn. lia.
  - destruct fuel; constructor.
Qed.

Lemma loopValues_nonempty fuel step stop start :
  start < stop -> (0 < fuel)%nat ->
  loopValues fuel (Some start) stop step <> [].
Proof.
  intros H Hf. destruct fuel; [lia|]. cbn [loopValues].
  by destruct (Z.ltb_spec start stop); [|lia].
Qed.

Lemma channelTotal_uniform dat offsets channel v : forall acc,
  Forall (fun i => at_ dat (i + channel) = Some v) offsets ->
  fold_left (fun total i => addSample total (at_ dat (i + channel)))
    offsets (Some acc)
  = Some (acc + v * Z.of_nat (length offsets)).
Proof.
  induction offsets as [|i offsets IH]; intros acc Hall; cbn [fold_left length].
  - f_equal. lia.
  - inversion Hall as [|? ? Hi Hrest]; subst. rewrite Hi. cbn.
    rewrite IH by done. f_equal. lia.
Qed.

Lemma sampleOffsets_inside imageData r :
  cellInside imageData r ->
  sampleOffsets (width imageData) r <> [] /\
  Forall (fun i => exists x y,
            0 <= x < width imageData /\ 0 <= y < height imageData /\
            i = (y * width imageData + x) * 4)
    (sampleOffsets (width imageData) r).
Proof.
  intros (Hx & Hxw & Hy & Hyh & Hs). unfold sampleOffsets.
  pose proof (loopValues_range (Z.to_nat (endY r - baseY r)) (step r)
                (endY r) (baseY r) Hs) as Hys.
  pose proof (loopValues_range (Z.to_nat (endX r - baseX r)) (step r)
                (endX r) (baseX r) Hs) as Hxs.
  pose proof (loopValues_nonempty (Z.to_nat (endY r - baseY r)) (step r)
                (endY r) (baseY r) ltac:(lia) ltac:(lia)) as Hyn.
  pose proof (loopValues_nonempty (Z.to_nat (endX r - baseX r)) (step r)
                (endX r) (baseX r) ltac:(lia) ltac:(lia)) as Hxn.
  set (ys := loopValues _ (Some (baseY r)) _ _) in *.
  set (xs := loopValues _ (Some (baseX r)) _ _) in *.
  split.
  - destruct ys as [|y ys']; [done|]. destruct xs as [|x xs']; [done|]. done.
  - apply Forall_forall. intros i Hi.
    apply list_elem_of_bind in Hi as (y & Hi & Hyin).
    apply list_elem_of_bind in Hi as (x & Hi & Hxin).
    apply list_elem_of_singleton in Hi. subst i.
    rewrite Forall_forall in Hys, Hxs.
    specialize (Hys y Hyin). specialize (Hxs x Hxin).
    exists x, y. repeat split; lia.
Qed.

Lemma convertCell_gray imageData r :
  uniformGray imageData -> cellInside imageData r ->
  convertCell imageData minimalRamp (buildLumToChar 7) r = grayCell.
Proof.
  intros Hu Hin. destruct (sampleOffsets_inside imageData r Hin) as [Hne Hall].
  unfold convertCell, channelTotal.
  set (offsets := sampleOffsets (width imageData) r) in *.
  assert (forall c, (c = 0 \/ c = 1 \/ c = 2) ->
            Forall (fun i => at_ (data imageData) (i + c) = Some 128) offsets) as Hc.
  { intros c Hc. eapply Forall_impl; [exact Hall|]. cbn.
    intros i (x & y & Hx & Hy & ->). destruct (Hu x y Hx Hy) as (H0 & H1 & H2).
    destruct Hc as [->|[->| ->]]; [by rewrite Z.add_0_r|done|done]. }
  rewrite (channelTotal_uniform _ _ 0 128), (channelTotal_uniform _ _ 1 128),
    (channelTotal_uniform _ _ 2 128) by (apply Hc; lia).
  assert (0 < Z.of_nat (length offsets)) as Hlen by (destruct offsets; [done|cbn; lia]).
  destruct (Z.eqb_spec (Z.of_nat (length offsets)) 0) as [|_]; [lia|].
  unfold average. cbn [mbind option_bind].
  rewrite Z.add_0_l, Z.div_mul by lia. reflexivity.
Qed.
End Converter.

(** ** Luminance tables *)

Section Tables.
Import JS.

Lemma lumTable_lookup rampLen invert lum :
  0 <= lum <= 255 ->
  at_ (ASCIIRenderer.lumTable rampLen invert) lum
  = Some (u8 (Z.min ((adjusted invert lum * rampLen) / 256) (rampLen - 1))).
Proof.
  intros H. unfold at_, ASCIIRenderer.lumTable.
  destruct (Z.ltb_spec lum 0); [lia|].
  rewrite list_lookup_fmap, lookup_seqZ_lt by lia. cbn.
  rewrite Z2Nat.id by lia. done.
Qed.

Lemma buildLumToChar_lookup rampLen lum :
  0 <= lum <= 255 ->
  at_ (AsciiConverter.buildLumToChar rampLen) lum
  = Some (u8 (Z.min ((lum * rampLen) / 256) (rampLen - 1))).
Proof.
  intros H. unfold at_, AsciiConverter.buildLumToChar.
  destruct (Z.ltb_spec lum 0); [lia|].
  rewrite list_lookup_fmap, lookup_seqZ_lt by lia. cbn.
  rewrite Z2Nat.id by lia. done.
Qed.

Lemma index_bounds rampLen a :
  1 <= rampLen -> 0 <= a <= 255 ->
  0 <= Z.min ((a * rampLen) / 256) (rampLen - 1) <= rampLen - 1.
Proof.
  intros HL Ha. assert (0 <= (a * rampLen) / 256) by (apply Z.div_pos; nia). lia.
Qed.

Lemma u8_le v : 0 <= v -> 0 <= u8 v <= v.
Proof.
  intros H. unfold u8. split; [apply Z.mod_pos_bound; lia|apply Z.mod_le; lia].
Qed.

Lemma index_monotone rampLen a b :
  0 <= rampLen -> a <= b ->
  Z.min ((a * rampLen) / 256) (rampLen - 1)
  <= Z.min ((b * rampLen) / 256) (rampLen - 1).
Proof.
  intros HL Hab.
  assert ((a * rampLen) / 256 <= (b * rampLen) / 256)
    by (apply Z.div_le_mono; nia). lia.
Qed.

Lemma luminance_bounds red green blue :
  0 <= red <= 255 -> 0 <= green <= 255 -> 0 <= blue <= 255 ->
  0 <= ASCIIRenderer.luminance red green blue <= 255 /\
  AsciiConverter.luminance (Some red) (Some green) (Some blue)
  = ASCIIRenderer.luminance red green blue.
Proof.
  intros Hr Hg Hb. split; [|reflexivity].
  unfold ASCIIRenderer.luminance, ASCIIRenderer.LUMA_R, ASCIIRenderer.LUMA_G,
    ASCIIRenderer.LUMA_B, toInt32.
  rewrite Z.mod_small by lia.
  rewrite Z.shiftr_div_pow2 by lia.
  replace (54 * red + 183 * green + 19 * blue + 2 ^ 31 - 2 ^ 31)
    with (54 * red + 183 * green + 19 * blue) by lia.
  split; [apply Z.div_pos; lia | apply Z.div_le_upper_bound; lia].
Qed.

Lemma buildLumLUT_tables r :
  ASCIIRenderer.rampCodes r = map u8 (ASCIIRenderer.ramp r) ->
  tablesBuilt (ASCIIRenderer.buildLumLUT r).
Proof. intros H. by split. Qed.

Lemma updateRampCodes_tables r : tablesBuilt (ASCIIRenderer.updateRampCodes r).
Proof. by split. Qed.

Lemma create_tables : tablesBuilt ASCIIRenderer.create.
Proof. by split. Qed.

Lemma setCols_tables r c : tablesBuilt r -> tablesBuilt (ASCIIRenderer.setCols r c).
Proof. intros [? ?]. by split. Qed.

Lemma lookup_some_below {A} (l : list A) i :
  0 <= i <= Z.of_nat (length l) - 1 -> is_Some (at_ l i).
Proof.
  intros H. unfold at_. destruct (Z.ltb_spec i 0); [lia|].
  apply lookup_lt_is_Some_2. lia.
Qed.

Lemma renderer_index_in_bounds r lum :
  tablesBuilt r -> ASCIIRenderer.ramp r <> [] -> 0 <= lum <= 255 ->
  exists i code,
    at_ (ASCIIRenderer.lumToCharLUT r) lum = Some i /\
    0 <= i <= Z.of_nat (length (ASCIIRenderer.ramp r)) - 1 /\
    at_ (ASCIIRenderer.rampCodes r) i = Some code /\
    ASCIIRenderer.symbolCode r lum = Some code.
Proof.
  intros [Hc Ht] Hne Hl.
  assert (1 <= Z.of_nat (length (ASCIIRenderer.ramp r))) as HL
    by (destruct (ASCIIRenderer.ramp r); [done|cbn; lia]).
  assert (0 <= adjusted (ASCIIRenderer.invert r) lum <= 255) as Ha
    by (unfold adjusted; destruct (ASCIIRenderer.invert r); lia).
  pose proof (index_bounds _ _ HL Ha) as Hi.
  pose proof (u8_le _ (proj1 Hi)) as Hu.
  set (i := u8 _) in *.
  destruct (lookup_some_below (ASCIIRenderer.rampCodes r) i) as [code Hcode].
  { rewrite Hc, length_map. lia. }
  exists i, code. unfold ASCIIRenderer.symbolCode.
  rewrite Ht, lumTable_lookup by done. fold i. cbn. rewrite Hcode.
  repeat split; (done || lia).
Qed.

Lemma converter_index_in_bounds (ramp : jsstring) lum :
  ramp <> [] -> 0 <= lum <= 255 ->
  exists i c,
    at_ (AsciiConverter.buildLumToChar (Z.of_nat (length ramp))) lum = Some i /\
    0 <= i <= Z.of_nat (length ramp) - 1 /\
    at_ ramp i = Some c.
Proof.
  intros Hne Hl.
  assert (1 <= Z.of_nat (length ramp)) as HL by (destruct ramp; [done|cbn; lia]).
  pose proof (index_bounds _ _ HL Hl) as Hi.
  pose proof (u8_le _ (proj1 Hi)) as Hu.
  set (i := u8 _) in *.
  destruct (lookup_some_below ramp i) as [c Hc]; [lia|].
  exists i, c. rewrite buildLumToChar_lookup by done. fold i.
  repeat split; (done || lia).
Qed.

(** The clamp of [setOptions] on a number that is not NaN. *)
Lemma clampedCols_range (cols : Num.num) :
  cols <> S754_nan ->
  Num.geb (ASCIIRenderer.clampedCols cols) (Num.ofZ 20) = true /\
  Num.geb (Num.ofZ 200) (ASCIIRenderer.clampedCols cols) = true /\
  (ASCIIRenderer.clampedCols cols = cols \/
   ASCIIRenderer.clampedCols cols = Num.ofZ 20 \/
   ASCIIRenderer.clampedCols cols = Num.ofZ 200).
Proof.
  intros Hn. destruct cols as [s|[]| |s m e]; try done.
  - destruct s; repeat split; auto.
  - repeat split; auto.
  - repeat split; auto.
  - unfold ASCIIRenderer.clampedCols, Num.min.
    change (Num.compare (Num.ofZ 200) (S754_finite s m e))
      with (Some (200 * 2 ^ (0 - Z.min 0 e)
                  ?= cond_Zopp s (Zpos m) * 2 ^ (e - Z.min 0 e))).
    destruct (200 * 2 ^ (0 - Z.min 0 e)
              ?= cond_Zopp s (Zpos m) * 2 ^ (e - Z.min 0 e)) eqn:H1;
      [repeat split; auto | repeat split; auto |].
    unfold Num.max.
    change (Num.compare (Num.ofZ 20) (S754_finite s m e))
      with (Some (20 * 2 ^ (0 - Z.min 0 e)
                  ?= cond_Zopp s (Zpos m) * 2 ^ (e - Z.min 0 e))).
    destruct (20 * 2 ^ (0 - Z.min 0 e)
              ?= cond_Zopp s (Zpos m) * 2 ^ (e - Z.min 0 e)) eqn:H2;
      [repeat split; auto | | repeat split; auto].
    split; [|split; [|by left]].
    + unfold Num.geb.
      change (Num.compare (S754_finite s m e) (Num.ofZ 20))
        with (Some (cond_Zopp s (Zpos m) * 2 ^ (e - Z.min e 0)
                    ?= 20 * 2 ^ (0 - Z.min e 0))).
      rewrite (Z.min_comm e 0), Z.compare_antisym, H2. done.
    + unfold Num.geb.
      change (Num.compare (Num.ofZ 200) (S754_finite s m e))
        with (Some (200 * 2 ^ (0 - Z.min 0 e)
                    ?= cond_Zopp s (Zpos m) * 2 ^ (e - Z.min 0 e))).
      by rewrite H1.
Qed.

End Tables.

Section GrayGrid.
Import JS AsciiConverter.

Lemma grayData_lookup n : forall k,
  (k < n)%nat ->
  let dat := mjoin (replicate n [128; 128; 128; 255]) in
  dat !! (4 * k)%nat = Some 128 /\ dat !! (4 * k + 1)%nat = Some 128 /\
  dat !! (4 * k + 2)%nat = Some 128.
Proof.
  induction n as [|n IH]; intros k Hk; [lia|].
  destruct k as [|k]; [done|].
  replace (4 * S k)%nat with (4 + 4 * k)%nat by lia.
  apply (IH k). lia.
Qed.

Lemma grayImage_uniform w h : uniformGray (grayImage w h).
Proof.
  intros x y Hx Hy. cbn [width height data grayImage] in *. cbv zeta.
  assert (0 <= y * w + x < w * h) as Hi by nia.
  destruct (grayData_lookup (Z.to_nat (w * h)) (Z.to_nat (y * w + x))
              ltac:(lia)) as (H0 & H1 & H2).
  unfold at_.
  repeat (match goal with |- context [?a <? 0] =>
            destruct (Z.ltb_spec a 0); [lia|] end).
  replace (Z.to_nat ((y * w + x) * 4)) with (4 * Z.to_nat (y * w + x))%nat by lia.
  replace (Z.to_nat ((y * w + x) * 4 + 1)) with (4 * Z.to_nat (y * w + x) + 1)%nat by lia.
  replace (Z.to_nat ((y * w + x) * 4 + 2)) with (4 * Z.to_nat (y * w + x) + 2)%nat by lia.
  done.
Qed.

Lemma gridCells_inside rows cols row col :
  (row, col) ∈ gridCells rows cols -> 0 <= row < rows /\ 0 <= col < cols.
Proof.
  unfold gridCells. intros H.
  apply list_elem_of_bind in H as (r & H & Hr).
  apply list_elem_of_bind in H as (c & H & Hc).
  apply list_elem_of_singleton in H. injection H as -> ->.
  apply elem_of_seqZ in Hr, Hc. lia.
Qed.

Lemma bind_length_const {A B} (f : A -> list B) (l : list A) n :
  (forall x, length (f x) = n) -> length (l ≫= f) = (length l * n)%nat.
Proof.
  intros Hf. induction l as [|x l IH]; [done|].
  rewrite bind_cons, length_app, Hf, IH. cbn. lia.
Qed.

Lemma gridCells_length rows cols :
  length (gridCells rows cols) = (Z.to_nat rows * Z.to_nat cols)%nat.
Proof.
  unfold gridCells. rewrite (bind_length_const _ _ (Z.to_nat cols)).
  - by rewrite length_seqZ.
  - intros row. rewrite (bind_length_const _ _ 1%nat) by done.
    rewrite length_seqZ. lia.
Qed.

Lemma map_const {A B} (f : A -> B) (l : list A) c :
  (forall x, x ∈ l -> f x = c) -> map f l = replicate (length l) c.
Proof.
  induction l as [|x l IH]; intros H; [done|]. cbn.
  rewrite H by left. rewrite IH; [done|]. intros y Hy. apply H. by right.
Qed.

Lemma join_gray n :
  join (map symbol (replicate n grayCell)) = replicate n 43.
Proof.
  unfold join. induction n as [|n IH]; [done|].
  cbn [replicate map]. by rewrite <- IH.
Qed.

Lemma colors_gray n :
  (replicate n grayCell ≫= fun o => [red o; green o; blue o])
  = replicate (3 * n) 128.
Proof.
  induction n as [|n IH]; [done|].
  replace (3 * S n)%nat with (3 + 3 * n)%nat by lia.
  cbn [replicate]. rewrite bind_cons, IH. done.
Qed.

End GrayGrid.

(** C8 (as amended).  For every uniformly mid-gray raster converted with
    the ramp " .:+*#@": if the pixel rectangle of every cell of the grid
    holds at least one pixel of the raster, the converter returns the grid
    in which every cell has the colour (128, 128, 128) and the symbol '+';
    the luminance of that colour is 128, the table sends it to ramp index
    3, and the ramp has '+' there.  (A cell whose rectangle is empty, as
    when [cols] exceeds the width, gets no sample at all.) *)
Theorem C8_gray_raster_gives_plus
    (imageData : ImageData) (ncols nrows : Z) :
  let cellW := Num.div (Num.ofZ (width imageData)) (Num.ofZ ncols) in
  let cellH := Num.div cellW Num.lit_0_5 in
  uniformGray imageData ->
  0 < ncols ->
  Num.floor (Num.div (Num.ofZ (height imageData)) cellH) = Some nrows ->
  0 <= nrows * ncols < 2 ^ 32 ->
  (forall row col, 0 <= row < nrows -> 0 <= col < ncols ->
     cellInside imageData
       (AsciiConverter.cellRect (width imageData) (height imageData)
          cellW cellH row col)) ->
  AsciiConverter.convertToASCII imageData (minimalOptions ncols)
  = JS.Returned
      {| chars := replicate (Z.to_nat (nrows * ncols)) 43;
         colors := replicate (Z.to_nat (nrows * ncols * 3)) 128;
         rows := nrows; cols := ncols |}
  /\ AsciiConverter.luminance (Some 128) (Some 128) (Some 128) = 128
  /\ JS.at_ (AsciiConverter.buildLumToChar 7) 128 = Some 3
  /\ JS.at_ minimalRamp 3 = Some 43.
Proof.
  intros cellW cellH Hu Hc Hrows Htotal Hcells.
  split; [|by repeat split].
  unfold AsciiConverter.convertToASCII.
  cbn [minimalOptions AsciiConverter.optCols AsciiConverter.optRamp].
  fold cellW. fold cellH. rewrite Hrows.
  destruct (Z.leb_spec 0 (nrows * ncols)); [|lia].
  destruct (Z.ltb_spec (nrows * ncols) (2 ^ 32)); [|lia]. cbn [andb].
  rewrite (map_const _ _ grayCell).
  2:{ intros [row col] Hin. apply gridCells_inside in Hin as [Hr Hcol].
      apply convertCell_gray; [done|]. by apply Hcells. }
  rewrite join_gray, colors_gray, gridCells_length.
  assert (0 <= nrows) by nia.
  replace (Z.to_nat nrows * Z.to_nat ncols)%nat with (Z.to_nat (nrows * ncols)) by lia.
  replace (3 * Z.to_nat (nrows * ncols))%nat with (Z.to_nat (nrows * ncols * 3)) by lia.
  rewrite length_replicate, Nat.sub_diag, app_nil_r. done.
Qed.

Lemma C8_gray_80_wide_witness :
  AsciiConverter.convertToASCII (grayImage 80 80) (minimalOptions 4)
  = JS.Returned
      {| chars := replicate 8 43; colors := replicate 24 128;
         rows := 2; cols := 4 |}.
Proof.
  refine (proj1 (C8_gray_raster_gives_plus (grayImage 80 80) 4 2
                   (grayImage_uniform 80 80) _ _ _ _)).
  - lia.
  - reflexivity.
  - cbn; lia.
  - intros row col Hr Hc.
    assert (row = 0 \/ row = 1) as [-> | ->] by lia;
      assert (col = 0 \/ col = 1 \/ col = 2 \/ col = 3)
        as [-> | [-> | [-> | ->]]] by lia;
      (vm_compute; repeat split; try discriminate; intros s [= <-]; discriminate).
Defined.

Lemma C8_narrow_raster_is_blank :
  uniformGray (grayImage 2 4) /\
  AsciiConverter.convertToASCII (grayImage 2 4) (minimalOptions 4)
  = JS.Returned
      {| chars := replicate 16 32; colors := replicate 48 0;
         rows := 4; cols := 4 |}.
Proof. split; [apply grayImage_uniform | vm_compute; reflexivity]. Qed.

(** C6 (as amended).  The converter validates nothing.  With [cols = 0] and
    a raster of non-zero width it returns the empty grid; with a raster of
    width 0 and [cols <> 0] the array allocation throws a RangeError. *)
Theorem C6_converter_does_not_validate
    (imageData : ImageData) (options : AsciiConverter.ConvertOptions) :
  (AsciiConverter.optCols options = 0 -> width imageData <> 0 ->
   AsciiConverter.convertToASCII imageData options
   = JS.Returned (emptyFrame 0)) /\
  (width imageData = 0 -> AsciiConverter.optCols options <> 0 ->
   AsciiConverter.convertToASCII imageData options
   = JS.Thrown JS.RangeError).
Proof.
  split; [apply convert_cols_zero | apply convert_width_zero].
Qed.

Lemma C6_zero_cols_witness :
  AsciiConverter.convertToASCII (grayImage 80 40) (minimalOptions 0)
  = JS.Returned (emptyFrame 0) /\
  AsciiConverter.convertToASCII (grayImage 0 40) (minimalOptions 4)
  = JS.Thrown JS.RangeError.
Proof.
  split.
  - apply (proj1 (C6_converter_does_not_validate
                    (grayImage 80 40) (minimalOptions 0)));
      [reflexivity | discriminate].
  - apply (proj2 (C6_converter_does_not_validate
                    (grayImage 0 40) (minimalOptions 4)));
      [reflexivity | discriminate].
Defined.

Lemma C6_zero_cols_returns_a_grid :
  AsciiConverter.optCols (minimalOptions 0) < 1 /\
  ~ JS.throws
      (AsciiConverter.convertToASCII (grayImage 80 40) (minimalOptions 0)) /\
  AsciiConverter.convertToASCII (grayImage 80 40) (minimalOptions 0)
  = JS.Returned {| chars := []; colors := []; rows := 0; cols := 0 |}.
Proof.
  split; [reflexivity|]. split; [|reflexivity].
  intros [e He]. vm_compute in He. discriminate.
Qed.

(** C7.  For a ramp of length [L] in [1, 255] the table [buildLumLUT]
    builds has, at every luminance in [0, 255], the entry
    [min (floor (adjusted * L / 256)) (L - 1)] with
    [adjusted = invert ? 255 - lum : lum]; it is non-decreasing in the
    luminance when [invert] is off and non-increasing when it is on. *)
Theorem C7_luminance_table (r : ASCIIRenderer.Renderer) :
  let L := Z.of_nat (length (ASCIIRenderer.ramp r)) in
  let table := ASCIIRenderer.lumToCharLUT (ASCIIRenderer.buildLumLUT r) in
  1 <= L <= 255 ->
  length table = 256%nat /\
  (forall lum, 0 <= lum <= 255 ->
     JS.at_ table lum
     = Some (Z.min ((adjusted (ASCIIRenderer.invert r) lum * L) / 256)
               (L - 1))) /\
  (forall lum1 lum2 i1 i2,
     0 <= lum1 -> lum1 <= lum2 -> lum2 <= 255 ->
     JS.at_ table lum1 = Some i1 -> JS.at_ table lum2 = Some i2 ->
     if ASCIIRenderer.invert r then i2 <= i1 else i1 <= i2).
Proof.
  intros L table HL.
  assert (forall lum, 0 <= lum <= 255 ->
            JS.at_ table lum
            = Some (Z.min ((adjusted (ASCIIRenderer.invert r) lum * L) / 256)
                      (L - 1))) as Hentry.
  { intros lum Hl. unfold table. cbn [ASCIIRenderer.lumToCharLUT
      ASCIIRenderer.buildLumLUT ASCIIRenderer.invert]. fold L.
    rewrite lumTable_lookup by done. f_equal.
    assert (0 <= adjusted (ASCIIRenderer.invert r) lum <= 255) as Ha
      by (unfold adjusted; destruct (ASCIIRenderer.invert r); lia).
    pose proof (index_bounds L _ ltac:(lia) Ha).
    apply Z.mod_small. lia. }
  split; [done|]. split; [exact Hentry|].
  intros lum1 lum2 i1 i2 H0 H12 H255 H1 H2.
  rewrite Hentry in H1, H2 by lia. injection H1 as <-. injection H2 as <-.
  unfold adjusted. destruct (ASCIIRenderer.invert r);
    apply index_monotone; lia.
Qed.

Lemma C7_minimal_ramp_witness :
  let table :=
    ASCIIRenderer.lumToCharLUT
      (ASCIIRenderer.buildLumLUT ASCIIRenderer.create) in
  length table = 256%nat /\
  (forall lum, 0 <= lum <= 255 ->
     JS.at_ table lum = Some (Z.min ((adjusted false lum * 7) / 256) 6)) /\
  (forall lum1 lum2 i1 i2,
     0 <= lum1 -> lum1 <= lum2 -> lum2 <= 255 ->
     JS.at_ table lum1 = Some i1 -> JS.at_ table lum2 = Some i2 -> i1 <= i2).
Proof.
  apply (C7_luminance_table ASCIIRenderer.create). vm_compute.
  split; discriminate.
Defined.

(** C9 (as amended).  For averaged channel values in [0, 255] the
    fixed-point luminance [(54 r + 183 g + 19 b) >> 8] lies in [0, 255]
    (the same number in the renderer and in the preprocessor).  With a
    non-empty ramp the table entry read at it is at most
    [rampLength - 1], so the reads [rampCodes[charIndex]] of [render] and
    [ramp[charIndex]] of [convertToASCII] find an element.  The renderer
    is in a state whose ramp is a string from which [updateRampCodes] and
    [buildLumLUT] built the codes and the table: the constructor's state,
    and the states these two leave. *)
Theorem C9_symbol_lookups_in_bounds
    (r : ASCIIRenderer.Renderer) (ramp : JS.jsstring)
    (red green blue : Z) :
  tablesBuilt r -> ASCIIRenderer.ramp r <> [] -> ramp <> [] ->
  0 <= red <= 255 -> 0 <= green <= 255 -> 0 <= blue <= 255 ->
  let lum := ASCIIRenderer.luminance red green blue in
  0 <= lum <= 255 /\
  AsciiConverter.luminance (Some red) (Some green) (Some blue) = lum /\
  (exists i code,
     JS.at_ (ASCIIRenderer.lumToCharLUT r) lum = Some i /\
     0 <= i <= Z.of_nat (length (ASCIIRenderer.ramp r)) - 1 /\
     JS.at_ (ASCIIRenderer.rampCodes r) i = Some code /\
     ASCIIRenderer.symbolCode r lum = Some code) /\
  (exists i c,
     JS.at_ (AsciiConverter.buildLumToChar (Z.of_nat (length ramp))) lum
     = Some i /\
     0 <= i <= Z.of_nat (length ramp) - 1 /\
     JS.at_ ramp i = Some c).
Proof.
  intros Hbuilt Hne Hne' Hr Hg Hb lum.
  destruct (luminance_bounds red green blue Hr Hg Hb) as [Hl Heq].
  split; [done|]. split; [done|]. split.
  - by apply renderer_index_in_bounds.
  - by apply converter_index_in_bounds.
Qed.

Lemma C9_inverted_standard_witness :
  let r := ASCIIRenderer.buildLumLUT
             (ASCIIRenderer.setInvert
                (ASCIIRenderer.updateRampCodes
                   (ASCIIRenderer.setRamp ASCIIRenderer.create
                      (ASCIIRenderer.ASCII_RAMPS ASCIIRenderer.standard)))
                true) in
  let lum := ASCIIRenderer.luminance 255 128 0 in
  tablesBuilt r /\
  0 <= lum <= 255 /\
  AsciiConverter.luminance (Some 255) (Some 128) (Some 0) = lum /\
  (exists i code,
     JS.at_ (ASCIIRenderer.lumToCharLUT r) lum = Some i /\
     0 <= i <= Z.of_nat (length (ASCIIRenderer.ramp r)) - 1 /\
     JS.at_ (ASCIIRenderer.rampCodes r) i = Some code /\
     ASCIIRenderer.symbolCode r lum = Some code) /\
  (exists i c,
     JS.at_ (AsciiConverter.buildLumToChar
               (Z.of_nat (length minimalRamp))) lum = Some i /\
     0 <= i <= Z.of_nat (length minimalRamp) - 1 /\
     JS.at_ minimalRamp i = Some c).
Proof.
  split; [by split|].
  apply (C9_symbol_lookups_in_bounds _ minimalRamp 255 128 0);
    [by split | discriminate | discriminate | lia | lia | lia].
Defined.

Lemma C9_empty_ramp_reads_nothing :
  let r := ASCIIRenderer.updateRampCodes
             (ASCIIRenderer.setRamp ASCIIRenderer.create []) in
  tablesBuilt r /\
  (forall lum, 0 <= lum <= 255 ->
     JS.at_ (ASCIIRenderer.lumToCharLUT r) lum = Some 255 /\
     ASCIIRenderer.symbolCode r lum = None) /\
  (forall lum, 0 <= lum <= 255 ->
     JS.at_ (AsciiConverter.buildLumToChar 0) lum = Some 255 /\
     JS.at_ ([] : JS.jsstring) 255 = None).
Proof.
  split; [by split|]. split.
  - intros lum Hl.
    assert (JS.at_ (ASCIIRenderer.lumTable 0 false) lum = Some 255) as Ht.
    { rewrite lumTable_lookup by done. unfold adjusted.
      by rewrite Z.mul_0_r. }
    split; [exact Ht|].
    unfold ASCIIRenderer.symbolCode.
    change (ASCIIRenderer.lumToCharLUT _) with (ASCIIRenderer.lumTable 0 false).
    by rewrite Ht.
  - intros lum Hl. split; [|done].
    rewrite buildLumToChar_lookup by done. by rewrite Z.mul_0_r.
Qed.

(** C10.  The number [setOptions] stores in [this.cols] at
    [options.cols = NaN] is NaN, which is neither at least 20 nor at most
    200.  At every other number it is that number, 20 or 200, and lies
    between 20 and 200: at 4, 50 and 500 it is 20, 50 and 200. *)
Lemma C10_nan_cols_is_stored :
  ASCIIRenderer.clampedCols S754_nan = S754_nan /\
  Num.geb (ASCIIRenderer.clampedCols S754_nan) (Num.ofZ 20) = false /\
  Num.geb (Num.ofZ 200) (ASCIIRenderer.clampedCols S754_nan) = false /\
  (forall cols, cols <> S754_nan ->
     Num.geb (ASCIIRenderer.clampedCols cols) (Num.ofZ 20) = true /\
     Num.geb (Num.ofZ 200) (ASCIIRenderer.clampedCols cols) = true /\
     (ASCIIRenderer.clampedCols cols = cols \/
      ASCIIRenderer.clampedCols cols = Num.ofZ 20 \/
      ASCIIRenderer.clampedCols cols = Num.ofZ 200)) /\
  ASCIIRenderer.clampedCols (Num.ofZ 4) = Num.ofZ 20 /\
  ASCIIRenderer.clampedCols (Num.ofZ 50) = Num.ofZ 50 /\
  ASCIIRenderer.clampedCols (Num.ofZ 500) = Num.ofZ 200.
Proof.
  split; [reflexivity|]. split; [reflexivity|]. split; [reflexivity|].
  split; [exact clampedCols_range|]. repeat split; reflexivity.
Qed.

Lemma render_returns_on_gray_raster :
  exists frame,
    ASCIIRenderer.render (ASCIIRenderer.setCols ASCIIRenderer.create 20)
      (grayImage 40 8)
    = JS.Returned frame /\
    ASCIIRenderer.cols frame = 20 /\
    ASCIIRenderer.charCodes frame = replicate 40 43.
Proof. eexists. split; [vm_compute; reflexivity|]. split; reflexivity. Qed.

Lemma C1_replay_witness :
  grid 5 gridA /\ grid 5 gridB /\ Forall (grid 5) [gridA; gridB; gridC] /\
  Types.rows rgbMeta * Types.cols rgbMeta = Z.of_nat 5 /\
  (Types.includeColors rgbMeta = true ->
   3 * Z.of_nat 5 <= JS.maxByteLength sampleEngine) /\
  Player.applyFrame true (buffersOf true gridA)
    (Compress.computeDelta gridA gridB true)
  = buffersOf true gridB /\
  Player.resolve sampleEngine
    {| Types.meta := rgbMeta;
       Types.frames :=
         Compress.encodeFrames true None [gridA; gridB; gridC] |}
  = JS.Returned (map (buffersOf true) [gridA; gridB; gridC]) /\
  Player.preDecodeFrames sampleEngine
    {| Types.meta := rgbMeta;
       Types.frames :=
         Compress.encodeFrames true None [gridA; gridB; gridC] |}
  = Some (JS.Returned
            (map (fun g => snapshotOf 5 (buffersOf true g))
               [gridA; gridB; gridC])).
Proof.
  assert (grid 5 gridA /\ grid 5 gridB /\ grid 5 gridC) as (HA & HB & HC).
  { repeat split; try reflexivity;
      repeat (constructor; [unfold isByte; lia|]); constructor. }
  assert (Forall (grid 5) [gridA; gridB; gridC]) as HF
    by (repeat (apply List.Forall_cons; [assumption|]); apply List.Forall_nil).
  assert (Types.includeColors rgbMeta = true ->
          3 * Z.of_nat 5 <= JS.maxByteLength sampleEngine) as HM
    by (intros _; vm_compute; discriminate).
  pose proof (C1_delta_replay_reproduces_grids sampleEngine 5 gridA gridB
                [gridA; gridB; gridC] rgbMeta HA HB HF eq_refl HM)
    as (H1 & H2 & H3).
  split; [exact HA|]. split; [exact HB|]. split; [exact HF|].
  split; [reflexivity|]. split; [exact HM|].
  split; [exact H1|]. split; [exact H2|]. apply H3. reflexivity.
Defined.

Lemma C3_three_of_five_witness :
  Z.of_nat (length (chars gridC)) < 2 ^ 50 /\
  2 * Z.of_nat (length (chars gridC)) < 5 * changedCells gridA gridC true /\
  Compress.computeDelta gridA gridC true
  = Types.FrameFull (chars gridC) (Some (colors gridC)).
Proof.
  split; [reflexivity|]. split; [reflexivity|].
  apply (C3_threshold_gives_full gridA gridC true); reflexivity.
Defined.

(** * Further properties of the code *)

(** ** Variable-length integers in int32 arithmetic *)

Section VarIntFacts.
Import JS Types.

Lemma lor_aligned_add v y s :
  0 <= s -> 0 <= v < 2 ^ s ->
  Z.lor v (y * 2 ^ s) = v + y * 2 ^ s.
Proof.
  intros Hs Hv.
  rewrite <- (Z.add_lor_land v (y * 2 ^ s)).
  assert (Z.land v (y * 2 ^ s) = 0) as ->; [|lia].
  apply Z.bits_inj'. intros k Hk. rewrite Z.land_spec, Z.bits_0.
  destruct (Z.lt_ge_cases k s).
  - rewrite Z.mul_pow2_bits_low by lia. apply andb_false_r.
  - destruct (Z.eq_dec v 0) as [->|]; [by rewrite Z.bits_0|].
    rewrite (Z.bits_above_log2 v k); [done|lia|].
    apply Z.lt_le_trans with s; [|lia]. apply Z.log2_lt_pow2; lia.
Qed.

Lemma toInt32_cong a b : (a - b) mod 2 ^ 32 = 0 -> toInt32 a = toInt32 b.
Proof.
  intros H. unfold toInt32. f_equal.
  apply Z.mod_divide in H; [|lia]. destruct H as [q Hq].
  replace (a + 2 ^ 31) with (b + 2 ^ 31 + q * 2 ^ 32) by lia.
  apply Z.mod_add. lia.
Qed.

Lemma toInt32_range z : - 2 ^ 31 <= toInt32 z < 2 ^ 31.
Proof. unfold toInt32. pose proof (Z.mod_pos_bound (z + 2 ^ 31) (2 ^ 32)). lia. Qed.

Lemma toInt32_diff z : exists q, toInt32 z = z + q * 2 ^ 32.
Proof.
  unfold toInt32. exists (- ((z + 2 ^ 31) / 2 ^ 32)).
  pose proof (Z.div_mod (z + 2 ^ 31) (2 ^ 32)). lia.
Qed.

(** The decoder loop on an encoding, in int32 arithmetic. *)
Lemma decodeVarIntLoop_encode32 n : 0 <= n ->
  forall rest value shift bytesRead,
  0 <= n -> 0 <= shift < 32 -> 0 <= value < 2 ^ shift ->
  n * 2 ^ shift < 2 ^ 32 ->
  Decoder.decodeVarIntLoop (map u8 (Compress.encodeVarInt n) ++ rest)
    value shift bytesRead
  = (toInt32 (value + n * 2 ^ shift),
     (bytesRead + length (Compress.encodeVarInt n))%nat).
Proof.
  intros Hn0. pattern n. apply Z_lt_induction; [|done].
  clear n Hn0. intros n IH rest value shift bytesRead Hn Hs Hv Hb.
  assert (0 < 2 ^ shift) as Hp by (apply Z.pow_pos_nonneg; lia).
  rewrite encodeVarInt_eq. destruct (Z.gtb_spec n 127) as [Hbig|Hsmall].
  - assert (n < 2 ^ 32) as Hn32 by nia.
    pose proof (Z.mod_pos_bound n 128 ltac:(lia)) as Hm.
    rewrite low7, bit7_set, shiftr7 by lia.
    cbn [map app Decoder.decodeVarIntLoop length].
    rewrite (u8_byte (n mod 128 + 128)) by (unfold isByte; lia).
    destruct (continuation_byte (n mod 128) Hm) as [-> Hc].
    destruct (Z.eqb_spec (Z.land (n mod 128 + 128) 128) 0) as [|_]; [done|].
    pose proof (Z.div_mod n 128 ltac:(lia)) as Hdm.
    assert (0 <= n / 128 < n) as Hq by (split; [apply Z.div_pos|apply Z.div_lt]; lia).
    assert (shift + 7 < 32) as Hs7.
    { destruct (Z.lt_ge_cases (shift + 7) 32); [done|].
      assert (2 ^ 25 <= 2 ^ shift) by (apply Z.pow_le_mono_r; lia). nia. }
    assert (2 ^ (shift + 7) = 2 ^ shift * 128) as Hpow
      by (rewrite Z.pow_add_r by lia; done).
    assert (2 ^ shift <= 2 ^ 24) by (apply Z.pow_le_mono_r; lia).
    rewrite shl32_small by nia.
    rewrite lor_disjoint_add by lia.
    rewrite toInt32_small by nia.
    rewrite IH; [f_equal; [f_equal; nia|lia] | lia | lia | lia | nia | nia].
  - cbn [map app Decoder.decodeVarIntLoop length].
    rewrite (u8_byte n) by (unfold isByte; lia).
    rewrite low7, (Z.mod_small n 128), bit7_clear by lia. cbn [Z.eqb].
    f_equal; [|lia].
    unfold shl32. rewrite (Z.mod_small shift 32), (toInt32_small n) by lia.
    destruct (toInt32_diff (n * 2 ^ shift)) as [q Hq].
    assert (2 ^ 32 = 2 ^ (32 - shift) * 2 ^ shift) as Hsplit
      by (rewrite <- Z.pow_add_r by lia; f_equal; lia).
    replace (toInt32 (n * 2 ^ shift))
      with ((n + q * 2 ^ (32 - shift)) * 2 ^ shift)
      by (rewrite Hq, Hsplit; ring).
    rewrite lor_aligned_add by lia.
    apply toInt32_cong.
    replace (value + (n + q * 2 ^ (32 - shift)) * 2 ^ shift
             - (value + n * 2 ^ shift))
      with (q * 2 ^ 32) by (rewrite Hsplit; ring).
    apply Z.mod_mul. lia.
Qed.

Lemma decodeVarInt_encode32 n rest :
  0 <= n < 2 ^ 32 ->
  Decoder.decodeVarInt (map u8 (Compress.encodeVarInt n) ++ rest)
  = (toInt32 n, length (Compress.encodeVarInt n)).
Proof.
  intros H. unfold Decoder.decodeVarInt.
  rewrite decodeVarIntLoop_encode32 by lia. f_equal. f_equal. lia.
Qed.

(** Shape of an encoding *)
Lemma encodeVarInt_shape_aux n : 0 <= n ->
  forall k, 0 <= n -> 0 <= k -> n < 2 ^ (7 * k) -> n < 2 ^ 32 ->
  let bs := Compress.encodeVarInt n in
  (1 <= length bs <= Z.to_nat (Z.max k 1))%nat /\ Forall isByte bs /\
  (forall i b, bs !! i = Some b -> (128 <= b <-> (S i < length bs)%nat)).
Proof.
  intros Hn0. pattern n. apply Z_lt_induction; [|done].
  clear n Hn0. intros n IH k Hn Hk Hnk Hn32 bs. unfold bs.
  rewrite encodeVarInt_eq. destruct (Z.gtb_spec n 127) as [Hbig|Hsmall].
  - pose proof (Z.mod_pos_bound n 128 ltac:(lia)) as Hm.
    rewrite low7, bit7_set by lia.
    assert (2 <= k) as Hk2.
    { destruct (Z.le_gt_cases 2 k); [done|].
      assert (2 ^ (7 * k) <= 2 ^ 7) by (apply Z.pow_le_mono_r; lia). lia. }
    rewrite shiftr7 by lia.
    assert (0 <= n / 128 < n) as Hq by (split; [apply Z.div_pos|apply Z.div_lt]; lia).
    assert (n / 128 < 2 ^ (7 * (k - 1))) as Hqk.
    { apply Z.div_lt_upper_bound; [lia|].
      replace (7 * k) with (7 + 7 * (k - 1)) in Hnk by lia.
      rewrite Z.pow_add_r in Hnk by lia. lia. }
    destruct (IH (n / 128) ltac:(lia) (k - 1) ltac:(lia) ltac:(lia) Hqk ltac:(lia))
      as (Hlen & Hbytes & Hbits).
    split. { cbn [length]. lia. } split.
    + constructor; [unfold isByte; lia|done].
    + intros [|i] b; cbn [lookup list_lookup length].
      * intros [= <-]. split; intros _; lia.
      * intros Hb. rewrite (Hbits i b Hb). lia.
  - split; [cbn; lia|]. split.
    + constructor; [unfold isByte; lia|constructor].
    + intros [|i] b; cbn; [|done]. intros [= <-]. lia.
Qed.


Lemma shiftr7_wide n :
  0 <= n -> Z.shiftr (toUint32 n) 7 = (n mod 2 ^ 32) / 128.
Proof. intros H. unfold toUint32. by rewrite Z.shiftr_div_pow2 by lia. Qed.

End VarIntFacts.

(** ** The delta policy *)

Section DeltaFacts.
Import JS Types.

Lemma binary_round_aux_sign m e :
  match binary_round_aux 53 1024 false m e loc_Exact with
  | S754_finite s _ _ | S754_infinity s => s = false
  | _ => True
  end.
Proof.
  unfold binary_round_aux.
  destruct (shr_fexp 53 1024 m e loc_Exact) as [mrs' e'].
  destruct (shr_fexp 53 1024 _ e' loc_Exact) as [mrs'' e''].
  destruct (shr_m mrs''); [done| |done].
  by destruct (Z.leb e'' (1024 - 53)).
Qed.

Lemma tooManyChanges_zero n : 0 <= n -> Compress.tooManyChanges 0 n = false.
Proof.
  intros Hn. unfold Compress.tooManyChanges, Compress.DELTA_THRESHOLD,
    Num.lit_0_4, Num.mul, Num.prec, Num.emax.
  destruct n as [|p|p]; [done| |lia].
  cbn [Num.ofZ SFmul xorb].
  pose proof (binary_round_aux_sign (Zpos (p * 7205759403792794)) (0 + -54)) as H.
  destruct (binary_round_aux _ _ _ _ _ _) as [s|s| |s m' e']; try done.
  subst s. unfold Num.Zgt. cbn [cond_Zopp].
  destruct (0 <=? e'); rewrite Z.gtb_ltb; apply Z.ltb_ge.
  - assert (0 <= 2 ^ e') by (apply Z.pow_nonneg; lia). nia.
  - lia.
Qed.

Lemma cellChanged_same g ic i : Compress.cellChanged g g ic i = false.
Proof.
  unfold Compress.cellChanged, strictNe.
  rewrite !bool_decide_eq_false_2 by (intros H; by apply H).
  by destruct ic.
Qed.

Lemma scanChanges_same g ic todo : forall i,
  Compress.scanChanges g g ic i todo = [].
Proof.
  induction todo as [|todo IH]; intros i; [done|].
  cbn [Compress.scanChanges]. by rewrite cellChanged_same, IH.
Qed.

Lemma computeDelta_same_aux g ic :
  Compress.computeDelta g g ic = FrameDelta [].
Proof.
  unfold Compress.computeDelta. rewrite scanChanges_same. cbn [length].
  change (Z.of_nat 0) with 0. by rewrite tooManyChanges_zero by lia.
Qed.

Lemma scanChanges_filter prev curr ic todo : forall i,
  Compress.scanChanges prev curr ic i todo
  = map (Compress.makeChange curr ic)
      (filter (fun j => Compress.cellChanged prev curr ic j = true)
         (seqZ i (Z.of_nat todo))).
Proof.
  induction todo as [|todo IH]; intros i; [done|].
  cbn [Compress.scanChanges]. rewrite seqZ_cons by lia.
  replace (Z.pred (Z.of_nat (S todo))) with (Z.of_nat todo) by lia.
  rewrite IH, filter_cons.
  replace (Z.succ i) with (i + 1) by lia.
  destruct (Compress.cellChanged prev curr ic i); by case_decide.
Qed.

Lemma binary_round_lower (m : positive) (e : Z) :
  let d := Zpos (digits2_pos m) in
  53 <= d -> -1074 <= e -> e + (d - 53) + 1 <= 971 ->
  exists m' e',
    binary_round_aux 53 1024 false (Zpos m) e loc_Exact
    = S754_finite false m' e' /\
    e <= e' /\
    Zpos m / 2 ^ (d - 53) * 2 ^ (d - 53) <= Zpos m' * 2 ^ (e' - e).
Proof.
  intros d Hd He Hmax.
  set (s := d - 53).
  assert (0 < 2 ^ s) as Hps by (apply Z.pow_pos_nonneg; lia).
  remember (binary_round_aux 53 1024 false (Zpos m) e loc_Exact) as x eqn:Ex.
  unfold binary_round_aux, shr_fexp in Ex.
  cbn [shr_record_of_loc Zdigits2] in Ex. fold d in Ex.
  replace (fexp 53 1024 (d + e) - e) with s in Ex
    by (unfold fexp, emin; lia).
  rewrite shr_exact, Z.max_l in Ex by lia.
  destruct (shr_iter_spec (Zpos m) (Z.to_nat s) ltac:(lia)) as [Hq Hr].
  rewrite Z2Nat.id in Hq, Hr by lia.
  pose proof (round_up_only_if_r (shrN (Zpos m) (Z.to_nat s))) as Hround.
  cbv zeta in Hround.
  set (q' := round_nearest_even _ _) in *.
  rewrite Hq in Hround. destruct Hround as (Hlo & Hhi & Hsame).
  pose proof (digits2_bounds m) as [Hdlo Hdhi]. fold d in Hdlo, Hdhi.
  assert (2 ^ d = 2 ^ s * 2 ^ 53) as Hsplit
    by (rewrite <- Z.pow_add_r by lia; f_equal; lia).
  assert (2 ^ (d - 1) = 2 ^ s * 2 ^ 52) as Hsplit'
    by (rewrite <- Z.pow_add_r by lia; f_equal; lia).
  assert (2 ^ 52 <= Zpos m / 2 ^ s < 2 ^ 53) as Hqb.
  { split; [apply Z.div_le_lower_bound | apply Z.div_lt_upper_bound]; lia. }
  set (q := Zpos m / 2 ^ s) in *.
  assert (0 < q' <= 2 ^ 53) as Hq' by lia.
  clearbody q'. clear Hsame Hq Hr.
  destruct q' as [|pq|pq]; [lia| |lia].
  cbn [Zdigits2] in Ex.
  set (n2 := fexp 53 1024 (Zpos (digits2_pos pq) + (e + s)) - (e + s)) in *.
  pose proof (digits2_bounds pq) as [Hpqlo Hpqhi].
  assert (Zpos (digits2_pos pq) <= 54) as Hdq
    by (apply digits2_le; lia).
  assert (53 <= Zpos (digits2_pos pq)) as Hdq'
    by (pose proof (digits2_ge pq 53); lia).
  assert (n2 = Zpos (digits2_pos pq) - 53) as Hn2 by (unfold n2, fexp, emin; lia).
  rewrite shr_exact in Ex.
  destruct (shr_iter_spec (Zpos pq) (Z.to_nat n2) ltac:(lia)) as [Hq2 _].
  set (k2 := Z.max n2 0) in *.
  assert (Z.of_nat (Z.to_nat n2) = k2) as Hk2 by (unfold k2; lia).
  rewrite Hk2 in Hq2.
  rewrite Hq2 in Ex.
  assert (q <= Zpos pq / 2 ^ k2 * 2 ^ k2) as Hkeep.
  { assert (k2 = 0 \/ k2 = 1) as [Hk|Hk] by lia; rewrite Hk.
    - rewrite Z.pow_0_r, Z.div_1_r. lia.
    - assert (Zpos (digits2_pos pq) = 54) as H54 by lia.
      rewrite H54 in Hpqlo.
      assert (Zpos pq = 2 ^ 53) as -> by lia.
      change (2 ^ 53 / 2 ^ 1 * 2 ^ 1) with (2 ^ 53). lia. }
  assert (0 < Zpos pq / 2 ^ k2) as Hpos.
  { assert (0 < 2 ^ k2) by (apply Z.pow_pos_nonneg; lia).
    assert (0 <= Zpos pq / 2 ^ k2) by (apply Z.div_pos; lia). nia. }
  destruct (Zpos pq / 2 ^ k2) as [|m'|m'] eqn:Em'; [lia| |lia].
  exists m', (e + s + k2).
  destruct (Z.leb_spec (e + s + k2) (1024 - 53)) as [_|Hbad];
    [|unfold k2 in Hbad; lia].
  split; [done|]. split; [lia|].
  replace (e + s + k2 - e) with (k2 + s) by lia.
  assert (0 < 2 ^ k2) by (apply Z.pow_pos_nonneg; lia).
  rewrite Z.pow_add_r by lia. nia.
Qed.

Lemma tooManyChanges_below (k n : Z) :
  0 <= n < 2 ^ 50 -> 0 <= k -> 5 * k <= 2 * n ->
  Compress.tooManyChanges k n = false.
Proof.
  intros Hn Hk0 Hk. unfold Compress.tooManyChanges, Compress.DELTA_THRESHOLD,
    Num.lit_0_4, Num.mul, Num.prec, Num.emax.
  destruct n as [|p|p]; [cbn; lia| |lia].
  cbn [Num.ofZ SFmul xorb Z.add]. fold mantissa_0_4.
  set (m := (p * mantissa_0_4)%positive).
  assert (Zpos m = Zpos p * Zpos mantissa_0_4) as Hm by done.
  pose proof (digits2_bounds m) as [Hdlo Hdhi].
  assert (53 <= Zpos (digits2_pos m)) as Hd53.
  { pose proof (digits2_ge m 53). unfold mantissa_0_4 in Hm. lia. }
  assert (Zpos (digits2_pos m) <= 103) as Hd103.
  { apply digits2_le; [|lia]. unfold mantissa_0_4 in Hm. lia. }
  change (0 + -54) with (-54).
  destruct (binary_round_lower m (-54)) as (m' & e' & -> & He' & Hb);
    [lia..|].
  set (d := Zpos (digits2_pos m)) in *.
  set (s := d - 53) in *.
  assert (0 < 2 ^ s) as Hps by (apply Z.pow_pos_nonneg; lia).
  assert (2 ^ 54 = 2 ^ (54 - s) * 2 ^ s) as Hs54
    by (rewrite <- Z.pow_add_r by lia; f_equal; lia).
  assert (0 < 2 ^ (54 - s)) as Hps' by (apply Z.pow_pos_nonneg; lia).
  assert (k * 2 ^ (54 - s) <= Zpos m / 2 ^ s) as Hdiv.
  { apply Z.div_le_lower_bound; [lia|].
    unfold mantissa_0_4 in Hm. nia. }
  assert (k * 2 ^ 54 <= Zpos m' * 2 ^ (e' - -54)) as Hle by nia.
  unfold Num.Zgt. cbn [cond_Zopp].
  destruct (Z.leb_spec 0 e') as [Hpos|Hneg]; rewrite Z.gtb_ltb; apply Z.ltb_ge.
  - replace (e' - -54) with (e' + 54) in Hle by lia.
    rewrite Z.pow_add_r in Hle by lia.
    assert (0 < 2 ^ e') by (apply Z.pow_pos_nonneg; lia). nia.
  - assert (2 ^ 54 = 2 ^ (- e') * 2 ^ (e' - -54)) as Hs54'
      by (rewrite <- Z.pow_add_r by lia; f_equal; lia).
    assert (0 < 2 ^ (- e')) by (apply Z.pow_pos_nonneg; lia).
    assert (0 < 2 ^ (e' - -54)) by (apply Z.pow_pos_nonneg; lia). nia.
Qed.

End DeltaFacts.

(** ** The header of a written stream *)

Section FormatFacts.
Import JS Types.

Lemma getUint16_uint16LE pre v post :
  Decoder.getUint16 (pre ++ OutputFormats.uint16LE v ++ post) (length pre)
  = Returned (u16 v).
Proof.
  unfold Decoder.getUint16, OutputFormats.uint16LE.
  rewrite lookup_app_r by lia. rewrite Nat.sub_diag. cbn [app lookup list_lookup].
  rewrite lookup_app_r by lia.
  replace (S (length pre) - length pre)%nat with 1%nat by lia.
  cbn [lookup list_lookup]. f_equal.
  pose proof (Z.div_mod (u16 v) 256 ltac:(lia)). lia.
Qed.

Lemma colorMode_byte c :
  (if OutputFormats.colorModeByte c =? 0 then Mono
   else if OutputFormats.colorModeByte c =? 1 then Rgb else Palette) = c.
Proof. by destruct c. Qed.

(** The header the writer makes is always read back: every field comes
    back modulo the width it is stored in. *)
Lemma decode_write_header E a :
  match Decoder.decodeBinary E (OutputFormats.writeBinaryBytes a) with
  | Thrown e =>
      e = RangeError /\
      maxArguments E < Z.of_nat (length (OutputFormats.writeBinaryBytes a))
  | Returned a' =>
      meta a'
      =      {| version := u8 (version (meta a));
                Types.cols := u16 (Types.cols (meta a));
                Types.rows := u16 (Types.rows (meta a));
                fps := u8 (fps (meta a));
                frameCount := u16 (frameCount (meta a));
                duration :=
                  Num.div (Num.ofZ (u16 (frameCount (meta a))))
                    (Num.ofZ (u8 (fps (meta a))));
                colorMode := colorMode (meta a);
                palette := None;
                ramp :=
                  take (Z.to_nat (u8 (Z.of_nat (length (ramp (meta a))))))
                    (map u8 (ramp (meta a))
                     ++ concat (map (OutputFormats.frameBytes
                                       (includeColors (meta a))) (frames a))) |}
      /\ length (frames a') = Z.to_nat (u16 (frameCount (meta a)))
  end.
Proof.
  destruct a as [m fs]. cbn [meta frames].
  unfold OutputFormats.writeBinaryBytes, OutputFormats.header, Decoder.decodeBinary.
  cbn [meta frames].
  set (tail := map u8 (ramp m) ++ _).
  assert (Decoder.magicOK
            (([65; 83; 67; 73; u8 (version m);
               OutputFormats.colorModeByte (colorMode m)] ++
              OutputFormats.uint16LE (Types.cols m) ++
              OutputFormats.uint16LE (Types.rows m) ++
              [u8 (fps m)] ++
              OutputFormats.uint16LE (frameCount m) ++
              [u8 (Z.of_nat (length (ramp m)))] ++ replicate 18 0) ++ tail)
          = true) as -> by done.
  cbn [negb].
  set (bytes := _ ++ tail).
  assert (Decoder.getUint16 bytes 6 = Returned (u16 (Types.cols m))) as ->.
  { apply (getUint16_uint16LE [65; 83; 67; 73; u8 (version m);
             OutputFormats.colorModeByte (colorMode m)] (Types.cols m)
             (OutputFormats.uint16LE (Types.rows m) ++ [u8 (fps m)] ++
              OutputFormats.uint16LE (frameCount m) ++
              [u8 (Z.of_nat (length (ramp m)))] ++ replicate 18 0 ++ tail)). }
  assert (Decoder.getUint16 bytes 8 = Returned (u16 (Types.rows m))) as ->.
  { apply (getUint16_uint16LE ([65; 83; 67; 73; u8 (version m);
             OutputFormats.colorModeByte (colorMode m)]
             ++ OutputFormats.uint16LE (Types.cols m)) (Types.rows m)
             ([u8 (fps m)] ++
              OutputFormats.uint16LE (frameCount m) ++
              [u8 (Z.of_nat (length (ramp m)))] ++ replicate 18 0 ++ tail)). }
  assert (Decoder.getUint16 bytes 11 = Returned (u16 (frameCount m))) as ->.
  { apply (getUint16_uint16LE ([65; 83; 67; 73; u8 (version m);
             OutputFormats.colorModeByte (colorMode m)]
             ++ OutputFormats.uint16LE (Types.cols m)
             ++ OutputFormats.uint16LE (Types.rows m) ++ [u8 (fps m)])
             (frameCount m)
             ([u8 (Z.of_nat (length (ramp m)))] ++ replicate 18 0 ++ tail)). }
  cbn [JS.bind].
  assert (Decoder.byteAt bytes 4 = u8 (version m)) as -> by done.
  assert (Decoder.byteAt bytes 5 = OutputFormats.colorModeByte (colorMode m))
    as -> by done.
  assert (Decoder.byteAt bytes 10 = u8 (fps m)) as -> by done.
  assert (Decoder.byteAt bytes 13 = u8 (Z.of_nat (length (ramp m)))) as -> by done.
  assert (drop 32 bytes = tail) as -> by done.
  rewrite colorMode_byte. fold (includeColors m).
  assert (length tail <= length bytes)%nat as Htail
    by (unfold bytes; rewrite length_app; lia).
  unfold fromCharCodeSpread at 1.
  destruct (Z.leb_spec
              (Z.of_nat (length (take (Z.to_nat (u8 (Z.of_nat (length (ramp m)))))
                                   tail)))
              (maxArguments E)) as [Hle|Hgt]; cbn [JS.bind].
  - match goal with |- context [Decoder.decodeFrames E ?ic ?t ?k ?rest] =>
      pose proof (decodeFrames_any E ic t k rest) as Hf;
      destruct (Decoder.decodeFrames E ic t k rest) as [fs'|e] end;
      cbn [JS.bind meta frames].
    + done.
    + destruct Hf as [-> Hf]. split; [done|].
      rewrite length_drop in Hf. lia.
  - split; [done|]. rewrite length_take in Hgt. lia.
Qed.

End FormatFacts.

(** ** The animation the preprocessor assembles *)

Section Pipeline.
Import JS.

Lemma filter_length_le {A} (P : A -> Prop) `{!forall x, Decision (P x)} (l : list A) :
  (length (filter P l) <= length l)%nat.
Proof.
  induction l as [|x l IH]; [done|]. rewrite filter_cons.
  case_decide; cbn [length]; lia.
Qed.

Lemma makeChange_wf curr ic i :
  0 <= i < 2 ^ 31 -> Forall isByte (chars curr) ->
  wfChange (Compress.makeChange curr ic i).
Proof.
  intros Hi Hb. split; [done|]. cbn [Compress.makeChange Types.char].
  unfold at_. destruct (Z.ltb_spec i 0); [lia|].
  destruct (_ !! _) as [x|] eqn:Hx; cbn.
  - exact (Forall_lookup_1 _ _ _ _ Hb Hx).
  - unfold isByte; lia.
Qed.

Lemma computeDelta_wf m prev curr :
  let n := Z.to_nat (Types.rows m * Types.cols m) in
  Types.rows m * Types.cols m < 2 ^ 31 ->
  grid n curr -> Forall isByte (chars curr) ->
  wfFrame m (Compress.computeDelta prev curr (Types.includeColors m)) /\
  wfFrame m (Compress.createFullFrame curr (Types.includeColors m)).
Proof.
  intros n Hn (Hc1 & Hc2 & Hc3) Hb.
  assert (wfFrame m (Types.FrameFull (chars curr)
            (if Types.includeColors m then Some (colors curr) else None))) as Hfull.
  { split; [done|]. split; [done|]. intros ->. eexists. split; [done|].
    rewrite Hc2. unfold n. lia. }
  split; [|exact Hfull].
  unfold Compress.computeDelta. destruct (Compress.tooManyChanges _ _); [exact Hfull|].
  rewrite scanChanges_filter, Hc1. cbn [wfFrame]. split.
  - rewrite length_map.
    pose proof (filter_length_le
      (fun j => Compress.cellChanged prev curr (Types.includeColors m) j = true)
      (seqZ 0 (Z.of_nat n))) as Hle.
    rewrite length_seqZ in Hle. unfold n in *. lia.
  - apply Forall_forall. intros c Hin.
    apply list_elem_of_fmap in Hin as (i & -> & Hi).
    apply list_elem_of_filter in Hi as [_ Hi]. apply elem_of_seqZ in Hi.
    apply makeChange_wf; [unfold n in *; lia|done].
Qed.

Lemma encodeFrames_wf m grids : forall prev,
  let n := Z.to_nat (Types.rows m * Types.cols m) in
  Types.rows m * Types.cols m < 2 ^ 31 ->
  Forall (fun g => grid n g /\ Forall isByte (chars g)) grids ->
  Forall (wfFrame m) (Compress.encodeFrames (Types.includeColors m) prev grids).
Proof.
  induction grids as [|g grids IH]; intros prev n Hn Hg; [constructor|].
  inversion Hg as [|? ? [Hg1 Hg2] Hrest]; subst.
  cbn [Compress.encodeFrames]. constructor; [|by apply IH].
  destruct prev as [p|].
  - by apply computeDelta_wf.
  - by apply (computeDelta_wf m g g).
Qed.

Lemma encodeFrames_length ic grids : forall prev,
  length (Compress.encodeFrames ic prev grids) = length grids.
Proof.
  induction grids as [|g grids IH]; intros prev; [done|].
  cbn [Compress.encodeFrames length]. by rewrite IH.
Qed.

Lemma finalRows_last r grids : forall r0,
  Forall (fun g => rows g = r) grids -> grids <> [] ->
  fold_left (fun _ c => rows c) grids r0 = r.
Proof.
  induction grids as [|g grids IH]; intros r0 Hg Hne; [done|].
  inversion Hg as [|? ? Hg1 Hg2]; subst. cbn [fold_left].
  destruct grids as [|g' grids]; [done|]. by apply IH.
Qed.

Lemma buildAnimation_wf options grids r :
  0 <= Index.cols options <= 65535 -> 0 <= r <= 65535 ->
  r * Index.cols options < 2 ^ 31 ->
  0 <= Index.fps options <= 255 ->
  Z.of_nat (length grids) <= 65535 ->
  (length (Index.ramp options) <= 255)%nat ->
  Forall isByte (Index.ramp options) ->
  Forall (fun g => rows g = r /\
                   grid (Z.to_nat (r * Index.cols options)) g /\
                   Forall isByte (chars g)) grids ->
  wfAnimation (Index.buildAnimation options grids).
Proof.
  intros Hc Hr Hn Hf Hl Hrl Hrb Hg.
  unfold wfAnimation, Index.buildAnimation. cbn [Types.meta Types.frames].
  set (ic := match Index.colorMode options with Types.Mono => false | _ => true end).
  split.
  - unfold wfMeta. cbn. rewrite encodeFrames_length.
    repeat split; try lia; try done.
    + unfold Index.finalRows. destruct grids as [|g grids]; [done|].
      rewrite (finalRows_last r); [lia| |done].
      eapply Forall_impl; [exact Hg|]. by intros ? (? & _).
    + unfold Index.finalRows. destruct grids as [|g grids]; [cbn; lia|].
      rewrite (finalRows_last r); [lia| |done].
      eapply Forall_impl; [exact Hg|]. by intros ? (? & _).
  - destruct grids as [|g grids]; [constructor|].
    set (m := {| Types.version := 1 |}).
    assert (Types.rows m = r) as Hrows.
    { cbn [Types.rows m]. unfold Index.finalRows.
      apply finalRows_last; [|done].
      eapply Forall_impl; [exact Hg|]. by intros ? (? & _). }
    change ic with (Types.includeColors m).
    apply encodeFrames_wf.
    + rewrite Hrows. cbn. lia.
    + rewrite Hrows. cbn [Types.cols m].
      eapply Forall_impl; [exact Hg|]. by intros ? (_ & ? & ?).
Qed.

End Pipeline.

(** ** Delta changes outside the grid *)

Section ReplayEdges.
Import JS Types.

Lemma join_app a b : join (a ++ b) = join a ++ join b.
Proof. unfold join. apply omap_app. Qed.

Lemma join_holes k : join (replicate k None) = [].
Proof. unfold join. induction k as [|k IH]; [done|]. cbn. by rewrite IH. Qed.

Lemma typedSet_outside buf i v :
  i < 0 \/ Z.of_nat (length buf) <= i -> typedSet buf i v = buf.
Proof.
  intros H. unfold typedSet.
  destruct (Z.leb_spec 0 i); [|done].
  destruct (Z.ltb_spec i (Z.of_nat (length buf))); [lia|done].
Qed.

Lemma applyChange_colors_outside ic chars (colors : option (list Z)) c :
  (forall cs, colors = Some cs ->
     index c < 0 \/ Z.of_nat (length cs) <= index c * 3) ->
  (Player.applyChange ic (chars, colors) c).2 = colors.
Proof.
  intros H. unfold Player.applyChange. cbn [fst snd].
  destruct colors as [cs|]; [|done]. destruct ic; [|done]. cbn [snd].
  specialize (H cs eq_refl).
  rewrite (typedSet_outside cs) by lia.
  rewrite (typedSet_outside cs) by lia.
  rewrite (typedSet_outside cs) by lia. done.
Qed.

Lemma applyFrame_past_the_end ic (st : Player.Buffers) c :
  Z.of_nat (length st.1) <= index c < 2 ^ 32 - 1 ->
  (forall cs, st.2 = Some cs -> Z.of_nat (length cs) <= index c * 3) ->
  Player.applyFrame ic st (FrameDelta [c]) = (st.1 ++ [char c], st.2).
Proof.
  intros Hi Hc. destruct st as [s cs]. cbn [fst snd] in *.
  unfold Player.applyFrame. cbn [fold_left fst snd]. f_equal.
  - unfold Player.applyChange. cbn [fst snd].
    assert (arraySet (split s) (index c) (char c)
            = split s ++ replicate (Z.to_nat (index c) - length (split s)) None
              ++ [Some (char c)]) as Harr.
    { unfold arraySet. destruct (Z.ltb_spec (index c) 0); [lia|].
      unfold split. rewrite length_map.
      destruct (Z.ltb_spec (index c) (Z.of_nat (length s))); [lia|].
      by destruct (Z.ltb_spec (index c) (2 ^ 32 - 1)); [|lia]. }
    destruct cs as [cs|]; [destruct ic|]; cbn [fst]; rewrite Harr;
      by rewrite !join_app, join_split, join_holes.
  - apply applyChange_colors_outside. intros cs' ->. right. by apply Hc.
Qed.

Lemma applyFrame_negative_index ic (st : Player.Buffers) c :
  index c < 0 ->
  Player.applyFrame ic st (FrameDelta [c]) = st.
Proof.
  intros Hi. destruct st as [s cs].
  unfold Player.applyFrame. cbn [fold_left fst snd]. f_equal.
  - unfold Player.applyChange. cbn [fst snd].
    assert (arraySet (split s) (index c) (char c) = split s) as Harr.
    { unfold arraySet. by destruct (Z.ltb_spec (index c) 0); [|lia]. }
    destruct cs as [cs|]; [destruct ic|]; cbn [fst]; rewrite Harr;
      by rewrite join_split.
  - apply applyChange_colors_outside. intros cs' _. by left.
Qed.

End ReplayEdges.

(** ** Rows and lines of text *)

Section Lines.
Import JS.

Lemma sliceLines_rows (c : nat) (rws : list jsstring) : forall fuel,
  (0 < c)%nat -> (length rws <= fuel)%nat ->
  Forall (fun l => length l = c) rws ->
  Player.sliceLines fuel c (concat rws) = rws.
Proof.
  induction rws as [|l rws IH]; intros fuel Hc Hf Hl.
  - by destruct fuel.
  - inversion Hl as [|? ? Hl1 Hl2]; subst.
    destruct fuel as [|fuel]; [cbn in Hf; lia|].
    cbn [concat Player.sliceLines].
    destruct (l ++ concat rws) as [|x tl] eqn:E.
    { destruct l; [cbn in Hc; lia|done]. }
    rewrite <- E. rewrite take_app_length, drop_app_length.
    rewrite IH; [done|done|cbn in Hf; lia|done].
Qed.

Lemma concat_length_rows (c : nat) (rws : list jsstring) :
  Forall (fun l => length l = c) rws ->
  length (concat rws) = (length rws * c)%nat.
Proof.
  induction 1 as [|l rws Hl _ IH]; [done|].
  cbn [concat length]. rewrite length_app, IH, Hl. lia.
Qed.

Lemma linesText_concat cols (rws : list jsstring) :
  0 < cols -> Forall (fun l => Z.of_nat (length l) = cols) rws ->
  Player.linesText cols (concat rws) = Player.joinLines rws.
Proof.
  intros Hc Hl. unfold Player.linesText.
  assert (Forall (fun l => length l = Z.to_nat cols) rws) as Hl'
    by (eapply Forall_impl; [exact Hl|]; cbn; lia).
  rewrite sliceLines_rows; [done|lia| |done].
  rewrite (concat_length_rows (Z.to_nat cols)) by done. nia.
Qed.

Lemma subarray_inside buf a b :
  0 <= a <= b -> b <= Z.of_nat (length buf) ->
  subarray buf a b = take (Z.to_nat (b - a)) (drop (Z.to_nat a) buf).
Proof.
  intros Ha Hb. unfold subarray.
  destruct (Z.ltb_spec a 0); [lia|]. destruct (Z.ltb_spec b 0); [lia|].
  by rewrite !Z.min_l by lia.
Qed.

(** The chunks [subarray] cuts for the rows of a frame are the lines the
    player's slicing loop cuts. *)
Lemma subarray_rows (c : nat) (n : nat) : forall (buf : list Z) (k : Z) fuel,
  (0 < c)%nat -> length buf = (n * c)%nat -> (n <= fuel)%nat ->
  map (fun row => subarray buf ((row - k) * Z.of_nat c)
                    ((row - k) * Z.of_nat c + Z.of_nat c))
    (seqZ k (Z.of_nat n))
  = Player.sliceLines fuel c buf.
Proof.
  induction n as [|n IH]; intros buf k fuel Hc Hlen Hf.
  - destruct buf; [|done]. by destruct fuel.
  - destruct fuel as [|fuel]; [lia|].
    rewrite seqZ_cons by lia. cbn [map Player.sliceLines].
    destruct buf as [|x tl] eqn:E; [cbn in Hlen; lia|]. rewrite <- E in *.
    clear E x tl. f_equal.
    + rewrite Z.sub_diag, Z.mul_0_l, Z.add_0_l.
      rewrite subarray_inside by nia. cbn [Z.to_nat drop].
      f_equal. lia.
    + replace (Z.pred (Z.of_nat (S n))) with (Z.of_nat n) by lia.
      rewrite <- (IH (drop c buf) (Z.succ k) fuel);
        [|done|rewrite length_drop; lia|lia].
      apply map_ext_in. intros row Hrow.
      apply list_elem_of_In, elem_of_seqZ in Hrow.
      assert (0 <= row - Z.succ k < Z.of_nat n) as Hj by lia.
      set (j := row - Z.succ k) in *.
      replace (row - k) with (j + 1) by (unfold j; lia). clearbody j.
      rewrite !subarray_inside by (rewrite ?length_drop; nia).
      rewrite drop_drop. f_equal; [lia|]. f_equal. nia.
Qed.

Lemma arrayLength_ofZ r :
  0 <= r < 2 ^ 32 -> Num.arrayLength (Num.ofZ r) = Some r.
Proof.
  intros H. destruct r as [|p|p]; [done| |lia].
  unfold Num.arrayLength. cbn [Num.ofZ Num.isInteger Z.leb orb Num.floor].
  cbn [mbind option_bind cond_Zopp]. rewrite Z.shiftl_0_r.
  destruct (Z.leb_spec 0 (Zpos p)); [|lia].
  by destruct (Z.ltb_spec (Zpos p) (2 ^ 32)); [|lia].
Qed.

Lemma frameToText_lines (frame : ASCIIRenderer.ASCIIFrame) r :
  ASCIIRenderer.rows frame = Num.ofZ r -> 0 <= r < 2 ^ 32 ->
  0 < ASCIIRenderer.cols frame ->
  length (ASCIIRenderer.charCodes frame)
  = Z.to_nat (r * ASCIIRenderer.cols frame) ->
  ASCIIRenderer.frameToText frame
  = Returned (Player.linesText (ASCIIRenderer.cols frame)
                (ASCIIRenderer.charCodes frame)).
Proof.
  intros Hr Hrange Hc Hlen. unfold ASCIIRenderer.frameToText.
  rewrite Hr, arrayLength_ofZ by done. f_equal. unfold Player.linesText. f_equal.
  set (c := ASCIIRenderer.cols frame) in *.
  set (buf := ASCIIRenderer.charCodes frame) in *.
  rewrite <- (subarray_rows (Z.to_nat c) (Z.to_nat r) buf 0);
    [|lia|rewrite Hlen; nia|rewrite Hlen; nia].
  rewrite !Z2Nat.id by lia.
  apply map_ext. intros row. by rewrite Z.sub_0_r.
Qed.

End Lines.

(** ** Escaping of markup *)

Section Escaping.
Import JS.

Lemma replaceAll_app c t a b :
  replaceAll c t (a ++ b) = replaceAll c t a ++ replaceAll c t b.
Proof. unfold replaceAll. apply bind_app. Qed.

Lemma escapeHTML_cons x s :
  ASCIIRenderer.escapeHTML (x :: s)
  = Player.escapeChar x ++ ASCIIRenderer.escapeHTML s.
Proof.
  unfold ASCIIRenderer.escapeHTML.
  change (x :: s) with ([x] ++ s). rewrite !replaceAll_app. f_equal.
  unfold Player.escapeChar, replaceAll. cbn [mbind list_bind app].
  destruct (Z.eqb_spec x 38) as [->|H38]; [done|].
  cbn [mbind list_bind app]. destruct (Z.eqb_spec x 60) as [->|H60]; [done|].
  cbn [mbind list_bind app]. destruct (Z.eqb_spec x 62) as [->|H62]; [done|].
  done.
Qed.

Lemma escapeHTML_chars s :
  ASCIIRenderer.escapeHTML s = s ≫= Player.escapeChar.
Proof.
  induction s as [|x s IH]; [done|].
  by rewrite escapeHTML_cons, bind_cons, IH.
Qed.

Lemma escapeChar_no_brackets x :
  Forall (fun c => c <> 60 /\ c <> 62) (Player.escapeChar x).
Proof.
  unfold Player.escapeChar.
  destruct (Z.eqb_spec x 60); [by repeat constructor|].
  destruct (Z.eqb_spec x 62); [by repeat constructor|].
  destruct (Z.eqb_spec x 38); by repeat constructor.
Qed.

Lemma escapeHTML_no_brackets s :
  Forall (fun c => c <> 60 /\ c <> 62) (ASCIIRenderer.escapeHTML s).
Proof.
  rewrite escapeHTML_chars. induction s as [|x s IH]; [constructor|].
  rewrite bind_cons. apply Forall_app. split; [apply escapeChar_no_brackets|done].
Qed.

End Escaping.

(** ** The worker picks the symbols of the renderer *)

Section WorkerFacts.
Import JS.

Lemma shiftr8_small z : 0 <= z < 2 ^ 31 -> Z.shiftr (toInt32 z) 8 = z / 256.
Proof.
  intros H. unfold toInt32. rewrite Z.mod_small by lia.
  rewrite Z.shiftr_div_pow2 by lia. f_equal. lia.
Qed.

Lemma worker_symbol_agrees (r : ASCIIRenderer.Renderer) (c lum : Z) :
  tablesBuilt r ->
  (length (ASCIIRenderer.ramp r) <= 256)%nat -> 0 <= lum <= 255 ->
  Worker.symbolCode
    (Worker.setOptions
       {| Worker.msgCols := c;
          Worker.msgRampCodes := ASCIIRenderer.ramp r;
          Worker.msgInvert := ASCIIRenderer.invert r |}) lum
  = ASCIIRenderer.symbolCode r lum.
Proof.
  intros [Hc Ht] HL Hl.
  unfold Worker.symbolCode, Worker.getCharIndex, Worker.setOptions,
    ASCIIRenderer.symbolCode.
  cbn [Worker.invert Worker.rampLength Worker.rampCodes
       Worker.msgRampCodes Worker.msgInvert].
  rewrite Ht, lumTable_lookup, Hc by done. cbn [mbind option_bind].
  set (L := Z.of_nat (length (ASCIIRenderer.ramp r))).
  unfold adjusted.
  set (a := if ASCIIRenderer.invert r then 255 - lum else lum).
  assert (0 <= a <= 255) as Ha by (unfold a; destruct (ASCIIRenderer.invert r); lia).
  assert (0 <= L <= 256) as HL' by (unfold L; lia).
  assert (0 <= a * L <= 255 * 256) as HaL by nia.
  rewrite shiftr8_small by lia.
  assert (0 <= a * L / 256 <= 255) as Hq.
  { split; [apply Z.div_pos; lia|].
    apply Z.div_le_upper_bound; lia. }
  destruct (Z.eq_dec L 0) as [HL0|HL0].
  - rewrite HL0, Z.mul_0_r. cbn.
    assert (ASCIIRenderer.ramp r = []) as -> by (destruct (ASCIIRenderer.ramp r); [done|unfold L in HL0; cbn in HL0; lia]).
    done.
  - f_equal. unfold u8. rewrite Z.mod_small; [done|lia].
Qed.

End WorkerFacts.

(** ** From the preprocessor to the decoded frames *)

Section PipelineDecoded.
Import JS.

Lemma isByte_forallb l :
  forallb (fun z => (0 <=? z) && (z <? 256)) l = true -> Forall isByte l.
Proof.
  induction l as [|x l IH]; cbn [forallb]; [constructor|].
  intros H. apply andb_true_iff in H as [Hx Hl].
  apply andb_true_iff in Hx as [H0 H1].
  constructor; [unfold isByte; lia|by apply IH].
Qed.

Lemma encodeFrames_spreads E ic n grids : forall prev,
  Forall (grid n) grids -> Z.of_nat n <= maxArguments E ->
  Forall (frameSpreads E) (Compress.encodeFrames ic prev grids).
Proof.
  induction grids as [|g grids IH]; intros prev Hg Hn; [constructor|].
  inversion Hg as [|? ? (Hg1 & _) Hrest]; subst.
  cbn [Compress.encodeFrames]. constructor; [|by apply IH].
  assert (forall p, frameSpreads E (Compress.computeDelta p g ic)) as Hd.
  { intros p. unfold Compress.computeDelta.
    destruct (Compress.tooManyChanges _ _); [|done].
    cbn [frameSpreads]. lia. }
  destruct prev; [apply Hd|].
  unfold Compress.createFullFrame. cbn [frameSpreads]. lia.
Qed.

Lemma buildAnimation_rows options grids r :
  0 <= r -> 0 <= Index.cols options ->
  Forall (fun g => rows g = r) grids ->
  0 <= Types.rows (Types.meta (Index.buildAnimation options grids))
       * Index.cols options
    <= r * Index.cols options.
Proof.
  intros Hr Hc Hg. cbn [Index.buildAnimation Types.meta Types.rows].
  unfold Index.finalRows. destruct grids as [|g grids]; [cbn; nia|].
  rewrite (finalRows_last r) by done. nia.
Qed.

Lemma pipeline_decoded E options grids r :
  0 < Index.cols options <= 65535 -> 0 <= r <= 65535 ->
  r * Index.cols options < 2 ^ 31 ->
  0 <= Index.fps options <= 255 ->
  Z.of_nat (length grids) <= 65535 ->
  (length (Index.ramp options) <= 255)%nat ->
  Forall isByte (Index.ramp options) ->
  Forall (fun g => rows g = r /\
                   grid (Z.to_nat (r * Index.cols options)) g /\
                   Forall isByte (chars g)) grids ->
  Z.of_nat (length (Index.ramp options)) <= maxArguments E ->
  r * Index.cols options <= maxArguments E ->
  (Index.colorMode options <> Types.Mono ->
   r * Index.cols options * 3 <= maxByteLength E) ->
  let a := Index.buildAnimation options grids in
  let ic := Types.includeColors (Types.meta a) in
  exists a',
    Decoder.decodeBinary E (OutputFormats.writeBinaryBytes a) = Returned a' /\
    Types.meta a' = Types.meta a /\
    Player.preDecodeFrames E a'
    = Some (Returned
              (map (fun g => snapshotOf (Index.cols options) (buffersOf ic g))
                 grids)).
Proof.
  intros Hc Hr Hn Hf Hl Hrl Hrb Hg Hramp Hargs Hbytes a ic.
  assert (wfAnimation a) as Hwf
    by (apply (buildAnimation_wf options grids r); (done || lia)).
  assert (Forall (grid (Z.to_nat (r * Index.cols options))) grids) as Hgrid
    by (eapply Forall_impl; [exact Hg|]; by intros ? (_ & ? & _)).
  assert (spreadable E a) as Hsp.
  { split; [exact Hramp|].
    apply (encodeFrames_spreads E _ (Z.to_nat (r * Index.cols options)));
      [done|lia]. }
  rewrite (decode_write E a Hwf Hsp). eexists. split; [reflexivity|].
  cbn [Types.meta Types.frames]. split; [done|].
  unfold Player.preDecodeFrames. cbn [Types.meta Types.frames].
  change (Types.includeColors (withoutPalette (Types.meta a))) with ic.
  change (Player.initialBuffers E (withoutPalette (Types.meta a)))
    with (Player.initialBuffers E (Types.meta a)).
  change (Types.cols (withoutPalette (Types.meta a))) with (Index.cols options).
  destruct (initialBuffers_returns E (Types.meta a)) as (st & -> & Hnone).
  { intros Hic.
    pose proof (buildAnimation_rows options grids r ltac:(lia) ltac:(lia)) as Hb.
    change (Types.cols (Types.meta a)) with (Index.cols options).
    assert (Index.colorMode options <> Types.Mono) as Hm.
    { intros Hm. revert Hic. unfold a.
      cbn [Index.buildAnimation Types.meta Types.includeColors Types.colorMode].
      by rewrite Hm. }
    specialize (Hbytes Hm).
    assert (Forall (fun g => rows g = r) grids) as Hrows
      by (eapply Forall_impl; [exact Hg|]; by intros ? (? & _)).
    specialize (Hb Hrows). fold a in Hb. lia. }
  destruct Hwf as [_ Hfs].
  unfold ic. rewrite preDecodeLoop_norm by done.
  rewrite preDecodeLoop_resolve by lia. cbn [mbind option_bind]. do 2 f_equal.
  change (Types.frames a)
    with (Compress.encodeFrames (Types.includeColors (Types.meta a)) None grids).
  rewrite (encode_resolves_from_start (Z.to_nat (r * Index.cols options)));
    [by rewrite map_map|done|done].
Qed.

End PipelineDecoded.

(** ** The grid the converter returns *)

Section ConverterGrid.
Import JS AsciiConverter.

Lemma channelTotal_bounds dat offsets channel :
  Forall isByte dat -> forall acc t,
  fold_left (fun total i => addSample total (at_ dat (i + channel)))
    offsets (Some acc) = Some t ->
  acc <= t <= acc + 255 * Z.of_nat (length offsets).
Proof.
  intros Hb. induction offsets as [|i offsets IH]; intros acc t; cbn [fold_left length].
  - intros [= ->]. lia.
  - destruct (at_ dat (i + channel)) as [v|] eqn:Hv; cbn.
    + intros Ht. apply IH in Ht.
      assert (isByte v) as Hbv.
      { unfold at_ in Hv. destruct (i + channel <? 0); [done|].
        exact (Forall_lookup_1 _ _ _ _ Hb Hv). }
      unfold isByte in Hbv. lia.
    + intros Ht. exfalso. clear -Ht.
      induction offsets as [|j offsets IH]; [done|]. cbn in Ht. by apply IH.
Qed.

Lemma average_bounds dat offsets channel a :
  Forall isByte dat ->
  let sampleCount := Z.of_nat (length offsets) in
  average (channelTotal dat offsets channel)
    (if sampleCount =? 0 then 1 else sampleCount) = Some a ->
  0 <= a <= 255.
Proof.
  intros Hb sampleCount. unfold average, channelTotal.
  destruct (fold_left _ offsets (Some 0)) as [t|] eqn:Ht; [|done]. cbn.
  intros [= <-]. apply channelTotal_bounds in Ht; [|done].
  fold sampleCount in Ht.
  destruct (Z.eqb_spec sampleCount 0) as [H0|H0].
  - rewrite Z.div_1_r. lia.
  - assert (0 < sampleCount) by (unfold sampleCount in *; lia).
    split; [apply Z.div_pos; lia|].
    apply Z.div_le_upper_bound; lia.
Qed.

Lemma luminance_in_range (avgR avgG avgB : option Z) :
  (forall a, avgR = Some a -> 0 <= a <= 255) ->
  (forall a, avgG = Some a -> 0 <= a <= 255) ->
  (forall a, avgB = Some a -> 0 <= a <= 255) ->
  0 <= luminance avgR avgG avgB <= 255.
Proof.
  intros Hr Hg Hb.
  destruct avgR as [r|], avgG as [g|], avgB as [b|]; cbn [luminance]; try lia.
  destruct (luminance_bounds r g b) as [Hl Heq]; [by apply Hr|by apply Hg|by apply Hb|].
  change (Z.shiftr (toInt32 (LUMA_R * r + LUMA_G * g + LUMA_B * b)) 8)
    with (ASCIIRenderer.luminance r g b). done.
Qed.

Lemma convertCell_symbol imageData (ramp : jsstring) r :
  ramp <> [] -> Forall isByte (data imageData) ->
  let o := convertCell imageData ramp
             (buildLumToChar (Z.of_nat (length ramp))) r in
  (exists c, symbol o = Some c /\ c ∈ ramp) /\
  isByte (red o) /\ isByte (green o) /\ isByte (blue o).
Proof.
  intros Hne Hb o. split.
  - unfold o, convertCell. cbn [symbol].
    set (offsets := sampleOffsets (width imageData) r).
    set (lum := luminance _ _ _).
    assert (0 <= lum <= 255) as Hl.
    { apply luminance_in_range; intros a Ha;
        exact (average_bounds _ _ _ _ Hb Ha). }
    destruct (converter_index_in_bounds ramp lum Hne Hl) as (i & c & Hi & Hr & Hc).
    rewrite Hi. cbn [mbind option_bind]. exists c. split; [done|].
    unfold at_ in Hc. destruct (i <? 0); [done|].
    by eapply list_elem_of_lookup_2.
  - unfold o, convertCell, isByte, u8. cbn [red green blue].
    repeat split; apply Z.mod_pos_bound; lia.
Qed.

Lemma join_all_some (P : Z -> Prop) (l : list (option Z)) :
  Forall (fun o => exists c, o = Some c /\ P c) l ->
  length (join l) = length l /\ Forall P (join l).
Proof.
  unfold join. induction 1 as [|o l (c & -> & Hc) _ [IH1 IH2]]; [by split|].
  cbn. split; [by rewrite IH1|by constructor].
Qed.

Lemma convertToASCII_grid imageData options f :
  0 < optCols options -> optRamp options <> [] ->
  Forall isByte (data imageData) ->
  convertToASCII imageData options = Returned f ->
  cols f = optCols options /\ 0 <= rows f /\
  grid (Z.to_nat (rows f * cols f)) f /\
  Forall (fun c => c ∈ optRamp options) (chars f).
Proof.
  intros Hc Hne Hb. unfold convertToASCII.
  destruct (Num.floor _) as [nrows|]; [|done].
  destruct (Z.leb_spec 0 (nrows * optCols options)); [|done].
  destruct (Z.ltb_spec (nrows * optCols options) (2 ^ 32)); [|done].
  cbn [andb]. intros [= <-]. unfold grid. cbn [cols rows chars colors].
  assert (0 <= nrows) as Hr by nia.
  set (outs := map _ (gridCells nrows (optCols options))).
  assert (length outs = Z.to_nat (nrows * optCols options)) as Hlen.
  { unfold outs. rewrite length_map, gridCells_length. lia. }
  assert (Forall (fun o => (exists c, symbol o = Some c /\ c ∈ optRamp options) /\
                           isByte (red o) /\ isByte (green o) /\ isByte (blue o))
            outs) as Houts.
  { unfold outs. apply Forall_forall. intros o Ho.
    apply list_elem_of_fmap in Ho as (rc & -> & _).
    by apply convertCell_symbol. }
  destruct (join_all_some (fun c => c ∈ optRamp options) (map symbol outs)) as [Hj1 Hj2].
  { apply Forall_fmap. eapply Forall_impl; [exact Houts|]. cbn.
    intros o [Hs _]. exact Hs. }
  rewrite length_map in Hj1.
  split; [done|]. split; [done|]. split; [|done].
  assert (length (outs ≫= fun o => [red o; green o; blue o])
          = (length outs * 3)%nat) as Hw by (by apply bind_length_const).
  repeat split.
  - by rewrite Hj1.
  - rewrite length_app, length_replicate, Hw. lia.
  - apply Forall_app. split.
    + clear -Houts. induction Houts as [|o l (_ & ? & ? & ?) _ IH]; [constructor|].
      rewrite bind_cons. cbn [app].
      repeat (constructor; [assumption|]). exact IH.
    + apply Forall_replicate. unfold isByte. lia.
Qed.

End ConverterGrid.

(** ** The frame the renderer returns *)

Section RenderFacts.
Import JS.

Lemma floor_ofZ z : Num.floor (Num.ofZ z) = Some z.
Proof. destruct z; cbn; by rewrite ?Z.shiftl_0_r. Qed.

Lemma ofZ_inj a b : Num.ofZ a = Num.ofZ b -> a = b.
Proof. intros H. apply (f_equal Num.floor) in H. rewrite !floor_ofZ in H. congruence. Qed.

(** A product of integers below 2^53 is computed exactly. *)
Lemma mul_ofZ_exact (a b : positive) :
  Zpos a * Zpos b < 2 ^ 53 ->
  Num.mul (Num.ofZ (Zpos a)) (Num.ofZ (Zpos b))
  = S754_finite false (a * b) 0.
Proof.
  intros H. unfold Num.mul, Num.prec, Num.emax. cbn [Num.ofZ SFmul xorb Z.add].
  set (m := (a * b)%positive).
  assert (Zpos m < 2 ^ 53) as Hm by (unfold m; lia).
  pose proof (digits2_le m 53 Hm ltac:(lia)) as Hd.
  assert (0 < Zpos (digits2_pos m)) as Hd0 by lia.
  change (0 + 0) with 0.
  unfold binary_round_aux, shr_fexp.
  cbn [shr_record_of_loc Zdigits2].
  set (n1 := fexp 53 1024 (Zpos (digits2_pos m) + 0) - 0).
  assert (n1 <= 0) as Hn1 by (unfold n1, fexp, emin; lia).
  rewrite shr_exact.
  replace (Z.to_nat n1) with 0%nat by lia. rewrite (Z.max_r n1 0) by lia.
  change (shrN (Zpos m) 0)
    with {| shr_m := Zpos m; shr_r := false; shr_s := false |}.
  cbn [shr_m shr_r shr_s loc_of_shr_record round_nearest_even Zdigits2].
  rewrite Z.add_0_r. fold n1. rewrite shr_exact.
  replace (Z.to_nat n1) with 0%nat by lia. rewrite (Z.max_r n1 0) by lia.
  change (shrN (Zpos m) 0)
    with {| shr_m := Zpos m; shr_r := false; shr_s := false |}.
  cbn [shr_m]. done.
Qed.

Lemma toIndex_product z c :
  0 <= z -> 0 < c -> z * c < 2 ^ 53 ->
  Num.toIndex (Num.mul (Num.ofZ z) (Num.ofZ c)) = Some (z * c).
Proof.
  intros Hz Hc Hb. destruct c as [|pc|pc]; [lia| |lia].
  destruct z as [|pz|pz]; [done| |lia].
  rewrite mul_ofZ_exact by done.
  unfold Num.toIndex, Num.trunc. cbn [mbind option_bind cond_Zopp].
  rewrite Z.shiftl_0_r.
  destruct (Z.leb_spec 0 (Zpos (pz * pc))); [|lia].
  destruct (Z.leb_spec (Zpos (pz * pc)) (2 ^ 53 - 1)); [done|lia].
Qed.

Lemma renderCells_length r imageData step
    (rects : list (Z * Z * Z * Z)) :
  length (map (ASCIIRenderer.renderCell r imageData step) rects ≫= (fun o => o.1))
  = length rects /\
  length (map (ASCIIRenderer.renderCell r imageData step) rects ≫= (fun o => o.2))
  = (length rects * 3)%nat.
Proof.
  induction rects as [|x rects [IH1 IH2]]; [done|].
  cbn [map]. rewrite !bind_cons, !length_app, IH1, IH2. done.
Qed.

(** What [render] returns when the grid has [z] rows: one cell after the
    other, nothing left of the allocation. *)
Lemma render_cells r imageData f z :
  0 < ASCIIRenderer.rcols r ->
  ASCIIRenderer.render r imageData = Returned f ->
  ASCIIRenderer.rows f = Num.ofZ z -> 0 <= z ->
  z * ASCIIRenderer.rcols r < 2 ^ 53 ->
  ASCIIRenderer.cols f = ASCIIRenderer.rcols r /\
  exists step rects,
    length rects = Z.to_nat (z * ASCIIRenderer.rcols r) /\
    ASCIIRenderer.charCodes f
    = map (ASCIIRenderer.renderCell r imageData step) rects ≫= (fun o => o.1) /\
    ASCIIRenderer.colors f
    = map (ASCIIRenderer.renderCell r imageData step) rects ≫= (fun o => o.2).
Proof.
  intros Hc. unfold ASCIIRenderer.render.
  set (grid := AspectRatio.calculateSamplingGrid _ _ _).
  change (AspectRatio.cols grid) with (ASCIIRenderer.rcols r).
  clearbody grid.
  destruct (Num.toIndex _) as [total|] eqn:Ht; [|done].
  intros [= <-]. cbn [ASCIIRenderer.rows ASCIIRenderer.cols
    ASCIIRenderer.charCodes ASCIIRenderer.colors].
  intros Hz Hz0 Hzc. rewrite Hz in Ht |- *. rewrite floor_ofZ.
  rewrite toIndex_product in Ht by lia. injection Ht as <-.
  split; [done|]. rewrite <- map_map.
  set (rects := map _ (AsciiConverter.gridCells z (ASCIIRenderer.rcols r))).
  set (step := if Num.gtZ _ 200 then 4 else _).
  assert (length rects = Z.to_nat (z * ASCIIRenderer.rcols r)) as Hlen.
  { unfold rects. rewrite length_map, gridCells_length. lia. }
  exists step, rects. split; [done|].
  destruct (renderCells_length r imageData step rects) as [H1 H2].
  rewrite H1, H2, Hlen.
  replace (Z.to_nat (z * ASCIIRenderer.rcols r)
           - Z.to_nat (z * ASCIIRenderer.rcols r))%nat with 0%nat by lia.
  replace (Z.to_nat (z * ASCIIRenderer.rcols r * 3)
           - Z.to_nat (z * ASCIIRenderer.rcols r) * 3)%nat with 0%nat by lia.
  cbn [replicate]. by rewrite !app_nil_r.
Qed.

Lemma renderAverage_bounds dat offsets channel :
  Forall isByte dat ->
  let sampleCount := Z.of_nat (length offsets) in
  0 <= ASCIIRenderer.average (AsciiConverter.channelTotal dat offsets channel)
         (if sampleCount =? 0 then 1 else sampleCount) <= 255.
Proof.
  intros Hb sampleCount. unfold ASCIIRenderer.average, AsciiConverter.channelTotal.
  destruct (fold_left _ offsets (Some 0)) as [t|] eqn:Ht; [|lia].
  apply channelTotal_bounds in Ht; [|done]. fold sampleCount in Ht.
  assert (0 <= Z.quot t (if sampleCount =? 0 then 1 else sampleCount) <= 255) as Hq.
  { destruct (Z.eqb_spec sampleCount 0) as [H0|H0].
    - rewrite Z.quot_1_r. lia.
    - assert (0 < sampleCount) by (unfold sampleCount in *; lia).
      rewrite Z.quot_div_nonneg by lia.
      split; [apply Z.div_pos; lia|].
      apply Z.div_le_upper_bound; lia. }
  rewrite toInt32_small; lia.
Qed.

Lemma renderCell_symbol r imageData step rect :
  tablesBuilt r -> ASCIIRenderer.ramp r <> [] ->
  Forall isByte (data imageData) ->
  let o := ASCIIRenderer.renderCell r imageData step rect in
  (exists code, o.1 = [code] /\ code ∈ ASCIIRenderer.rampCodes r) /\
  Forall isByte o.2.
Proof.
  intros Ht Hne Hb o. unfold o, ASCIIRenderer.renderCell. cbn [fst snd].
  set (offsets := ASCIIRenderer.sampleOffsets _ _ _).
  pose proof (renderAverage_bounds _ offsets 0 Hb) as Hr.
  pose proof (renderAverage_bounds _ offsets 1 Hb) as Hg.
  pose proof (renderAverage_bounds _ offsets 2 Hb) as Hbl.
  cbv zeta in Hr, Hg, Hbl.
  set (avgR := ASCIIRenderer.average (AsciiConverter.channelTotal _ _ 0) _) in *.
  set (avgG := ASCIIRenderer.average (AsciiConverter.channelTotal _ _ 1) _) in *.
  set (avgB := ASCIIRenderer.average (AsciiConverter.channelTotal _ _ 2) _) in *.
  destruct (luminance_bounds avgR avgG avgB Hr Hg Hbl) as [Hl _].
  destruct (renderer_index_in_bounds r _ Ht Hne Hl) as (i & code & _ & Hi & Hcode & ->).
  cbn [default from_option id]. split.
  - assert (code ∈ ASCIIRenderer.rampCodes r) as Hin.
    { unfold at_ in Hcode. destruct (i <? 0); [done|].
      by eapply list_elem_of_lookup_2. }
    exists code. split; [|done]. f_equal.
    destruct Ht as [Hcodes _]. rewrite Hcodes in Hin.
    apply list_elem_of_fmap in Hin as (x & -> & _). apply u8_idemp.
  - repeat constructor; unfold isByte, u8; apply Z.mod_pos_bound; lia.
Qed.

End RenderFacts.

(** ** Playback *)

Section Playback.
Import JS Types.

Lemma preDecodeLoop_length ic cols frames : forall st ds,
  Player.preDecodeLoop ic cols st frames = Some ds ->
  length ds = length frames.
Proof.
  induction frames as [|f frames IH]; intros st ds; cbn [Player.preDecodeLoop].
  - by intros [= <-].
  - destruct (Player.formatText _ _); [|done].
    destruct (Player.preDecodeLoop _ _ _ frames) as [ds'|] eqn:E; [|done].
    intros [= <-]. cbn [length]. f_equal. by eapply IH.
Qed.

Lemma construct_fields E a c p :
  Player.construct E a c = Some (Returned p) ->
  Player.animation p = a /\ Player.frameIndex p = 0 /\
  Player.preDecodeFrames E a = Some (Returned (Player.decodedFrames p)) /\
  length (Player.decodedFrames p) = length (frames a) /\
  Player.isDestroyed p = false /\ Player.loops p = 0%nat /\
  Player.container p = c.
Proof.
  unfold Player.construct.
  destruct (Player.preDecodeFrames E a) as [[ds|e]|] eqn:Hpre; [|done|done].
  intros [= <-]. cbn. repeat split; try done.
  unfold Player.preDecodeFrames in Hpre.
  destruct (Player.initialBuffers E (meta a)) as [st|e]; [|done].
  destruct (Player.preDecodeLoop _ _ st (frames a)) as [ds'|] eqn:Hloop;
    [|done].
  cbn in Hpre. injection Hpre as <-. by eapply preDecodeLoop_length.
Qed.

Lemma renderFrame_inside p :
  0 <= Player.frameIndex p < Z.of_nat (length (Player.decodedFrames p)) ->
  exists frame,
    at_ (Player.decodedFrames p) (Player.frameIndex p) = Some frame /\
    Player.renderFrame p
    = Player.Normal
        (Player.setContainer p
           match colorMode (meta (Player.animation p)) with
           | Mono => Player.TextContent (Player.text frame)
           | _ => Player.renderColoredFrame
                    (Types.cols (meta (Player.animation p))) frame
           end).
Proof.
  intros Hi. unfold Player.renderFrame.
  destruct (lookup_some_below (Player.decodedFrames p) (Player.frameIndex p))
    as [frame Hf]; [lia|].
  exists frame. by rewrite Hf.
Qed.

Lemma renderFrame_outside p :
  Player.frameIndex p < 0 \/
  Z.of_nat (length (Player.decodedFrames p)) <= Player.frameIndex p ->
  Player.renderFrame p = Player.TypeError.
Proof.
  intros Hi. unfold Player.renderFrame, at_.
  destruct (Z.ltb_spec (Player.frameIndex p) 0); [done|].
  rewrite lookup_ge_None_2; [done|lia].
Qed.

Lemma seek_inside p i :
  Player.decodedFrames p <> [] ->
  let j := Z.max 0 (Z.min i (Z.of_nat (length (Player.decodedFrames p)) - 1)) in
  exists frame,
    at_ (Player.decodedFrames p) j = Some frame /\
    Player.seek p i
    = Player.Normal
        (Player.setContainer (Player.setFrameIndex p j false)
           match colorMode (meta (Player.animation p)) with
           | Mono => Player.TextContent (Player.text frame)
           | _ => Player.renderColoredFrame
                    (Types.cols (meta (Player.animation p))) frame
           end).
Proof.
  intros Hne j. unfold Player.seek. fold j.
  assert (0 < Z.of_nat (length (Player.decodedFrames p))) as Hlen
    by (destruct (Player.decodedFrames p); [done|cbn; lia]).
  destruct (renderFrame_inside (Player.setFrameIndex p j false)) as (frame & Hf & ->).
  { cbn. unfold j. lia. }
  exists frame. by split.
Qed.

Lemma tickDue_inside p :
  Player.isDestroyed p = false ->
  0 <= Player.frameIndex p < Z.of_nat (length (Player.decodedFrames p)) ->
  exists p',
    Player.tickDue p = Player.Normal p' /\
    Player.decodedFrames p' = Player.decodedFrames p /\
    Player.animation p' = Player.animation p /\
    Player.isDestroyed p' = false /\
    Player.frameIndex p'
    = (Player.frameIndex p + 1) mod Z.of_nat (length (Player.decodedFrames p)) /\
    Z.of_nat (Player.loops p')
    = Z.of_nat (Player.loops p)
      + (Player.frameIndex p + 1) / Z.of_nat (length (Player.decodedFrames p)).
Proof.
  intros Hd Hi. unfold Player.tickDue. rewrite Hd.
  destruct (renderFrame_inside p Hi) as (frame & _ & ->).
  set (n := Z.of_nat (length (Player.decodedFrames p))) in *.
  cbn [Player.setContainer Player.frameIndex Player.decodedFrames]. fold n.
  destruct (Z.leb_spec n (Player.frameIndex p + 1)).
  - eexists. split; [reflexivity|]. cbn.
    assert (Player.frameIndex p + 1 = n) as -> by lia.
    rewrite Z.mod_same, Z.div_same by lia. repeat split; try done. lia.
  - eexists. split; [reflexivity|]. cbn.
    rewrite Z.mod_small, Z.div_small by lia. repeat split; try done. lia.
Qed.

Lemma runOp_valid p op :
  Player.isDestroyed p = false ->
  0 <= Player.frameIndex p < Z.of_nat (length (Player.decodedFrames p)) ->
  exists p',
    runOp p op = Player.Normal p' /\
    Player.decodedFrames p' = Player.decodedFrames p /\
    Player.isDestroyed p' = false /\
    0 <= Player.frameIndex p' < Z.of_nat (length (Player.decodedFrames p)).
Proof.
  intros Hd Hi. destruct op as [i|]; cbn [runOp].
  - destruct (seek_inside p i) as (frame & _ & ->).
    { destruct (Player.decodedFrames p); [cbn in Hi; lia|done]. }
    eexists. split; [reflexivity|]. cbn. repeat split; try done; lia.
  - destruct (tickDue_inside p Hd Hi) as (p' & -> & Hf & _ & Hd' & Hidx & _).
    exists p'. repeat split; try done; rewrite Hidx;
      apply Z.mod_pos_bound; lia.
Qed.

Lemma runOps_valid ops : forall p,
  Player.isDestroyed p = false ->
  0 <= Player.frameIndex p < Z.of_nat (length (Player.decodedFrames p)) ->
  exists p',
    runOps ops p = Player.Normal p' /\
    Player.decodedFrames p' = Player.decodedFrames p /\
    0 <= Player.frameIndex p' < Z.of_nat (length (Player.decodedFrames p)).
Proof.
  induction ops as [|op ops IH]; intros p Hd Hi; cbn [runOps].
  - by exists p.
  - destruct (runOp_valid p op Hd Hi) as (p1 & -> & Hf1 & Hd1 & Hi1).
    destruct (IH p1 Hd1) as (p' & Hrun & Hf' & Hi'); [by rewrite Hf1|].
    rewrite Hrun.
    exists p'. rewrite Hf1 in Hf', Hi'. split; [done|]. split; [done|exact Hi'].
Qed.

Lemma ticks_closed_form k : forall p,
  Player.isDestroyed p = false ->
  0 <= Player.frameIndex p < Z.of_nat (length (Player.decodedFrames p)) ->
  let n := Z.of_nat (length (Player.decodedFrames p)) in
  exists p',
    runOps (replicate k Tick) p = Player.Normal p' /\
    Player.frameIndex p' = (Player.frameIndex p + Z.of_nat k) mod n /\
    Z.of_nat (Player.loops p')
    = Z.of_nat (Player.loops p) + (Player.frameIndex p + Z.of_nat k) / n.
Proof.
  induction k as [|k IH]; intros p Hd Hi n; cbn [replicate runOps runOp].
  - exists p. rewrite Z.add_0_r, Z.mod_small, Z.div_small by (unfold n; lia).
    repeat split; lia.
  - destruct (tickDue_inside p Hd Hi) as (p1 & -> & Hf1 & _ & Hd1 & Hi1 & Hl1).
    fold n in Hi1, Hl1.
    destruct (IH p1 Hd1) as (p' & -> & Hi' & Hl').
    { rewrite Hf1, Hi1. apply Z.mod_pos_bound. lia. }
    cbv zeta in Hi', Hl'. rewrite Hf1 in Hi', Hl'. fold n in Hi', Hl'.
    exists p'. split; [done|].
    set (i := Player.frameIndex p) in *.
    assert (0 < n) as Hn by lia.
    pose proof (Z.div_mod (i + 1) n ltac:(lia)) as Hdm.
    replace (i + Z.of_nat (S k)) with ((i + 1) + Z.of_nat k) by lia.
    rewrite Hi', Hl', Hi1, Hl1.
    replace ((i + 1) mod n + Z.of_nat k)
      with ((i + 1 + Z.of_nat k) + (- ((i + 1) / n)) * n) by lia.
    rewrite Z.mod_add, Z.div_add by lia. split; lia.
Qed.

End Playback.

(** ** Coloured frames *)

Section ColoredFrame.
Import JS.

Lemma replaceAll_cons c t x s :
  replaceAll c t (x :: s) = (if x =? c then t else [x]) ++ replaceAll c t s.
Proof. unfold replaceAll. by rewrite bind_cons. Qed.

Lemma replaceAll_absent c t s : c ∉ s -> replaceAll c t s = s.
Proof.
  induction s as [|x s IH]; intros H; [done|].
  rewrite replaceAll_cons. apply not_elem_of_cons in H as [Hx Hs].
  destruct (Z.eqb_spec x c); [done|]. cbn. by rewrite IH.
Qed.

Lemma sliceLines_concat (c : nat) : forall fuel s,
  (0 < c)%nat -> (length s <= fuel)%nat ->
  concat (Player.sliceLines fuel c s) = s.
Proof.
  induction fuel as [|fuel IH]; intros s Hc Hf.
  - by destruct s; [|cbn in Hf; lia].
  - cbn [Player.sliceLines]. destruct s as [|x tl] eqn:E; [done|].
    rewrite <- E in *. cbn [concat]. rewrite IH; [apply take_drop|done|].
    rewrite length_drop. assert (0 < length s)%nat by (rewrite E; cbn; lia). lia.
Qed.

Lemma sliceLines_within (c : nat) (P : Z -> Prop) : forall fuel s,
  Forall P s -> Forall (Forall P) (Player.sliceLines fuel c s).
Proof.
  induction fuel as [|fuel IH]; intros s Hs; cbn [Player.sliceLines];
    [constructor|].
  destruct s as [|x tl] eqn:E; [constructor|]. rewrite <- E in *.
  constructor; [by apply Forall_take|]. apply IH. by apply Forall_drop.
Qed.

Lemma joinLines_strip (ls : list jsstring) :
  Forall (Forall (fun x => x <> 10)) ls ->
  replaceAll 10 [] (Player.joinLines ls) = concat ls.
Proof.
  induction 1 as [|l ls Hl Hls IH]; [done|].
  assert (replaceAll 10 [] l = l) as Hstrip.
  { apply replaceAll_absent. intros Hin.
    rewrite Forall_forall in Hl. by apply (Hl 10). }
  destruct ls as [|l' ls].
  - cbn [Player.joinLines concat]. by rewrite app_nil_r.
  - change (Player.joinLines (l :: l' :: ls))
      with (l ++ 10 :: Player.joinLines (l' :: ls)).
    rewrite replaceAll_app, replaceAll_cons, Hstrip, IH. done.
Qed.

Lemma linesText_strip cols s :
  0 < cols -> 10 ∉ s -> replaceAll 10 [] (Player.linesText cols s) = s.
Proof.
  intros Hc Hs. unfold Player.linesText.
  rewrite joinLines_strip.
  - apply sliceLines_concat; lia.
  - apply sliceLines_within. apply Forall_forall. intros x Hx ->. done.
Qed.

Lemma rgb_nonempty r g b : Player.rgb r g b <> [].
Proof. done. Qed.

Lemma colorLoop_uniform cols colors r g b chars : forall i html,
  (forall j, i <= j < i + Z.of_nat (length chars) ->
     at_ colors (j * 3) = Some r /\ at_ colors (j * 3 + 1) = Some g /\
     at_ colors (j * 3 + 2) = Some b) ->
  let color := Player.rgb (Some r) (Some g) (Some b) in
  Player.colorLoop cols colors i chars html color
  = (html ++ withBreaks cols i chars, color).
Proof.
  induction chars as [|ch rest IH]; intros i html Hcol color.
  - cbn. by rewrite app_nil_r.
  - cbn [Player.colorLoop withBreaks].
    destruct (Hcol i) as (-> & -> & ->); [cbn [length]; lia|]. fold color.
    rewrite bool_decide_eq_false_2 by (intros H; by apply H).
    rewrite IH.
    2:{ intros j Hj. apply Hcol. cbn [length]. lia. }
    f_equal. destruct ((0 <? i) && Player.rowStart i cols);
      by rewrite <- ?app_assoc.
Qed.

Lemma colorLoop_first cols colors r g b ch rest :
  uniformColor colors (S (length rest)) r g b ->
  let color := Player.rgb (Some r) (Some g) (Some b) in
  Player.colorLoop cols colors 0 (ch :: rest) [] []
  = (Player.spanOpen color ++ withBreaks cols 0 (ch :: rest), color).
Proof.
  intros Hu color. cbn [Player.colorLoop withBreaks].
  destruct (Hu 0) as (Hr & Hg & Hb); [lia|].
  rewrite Hr, Hg, Hb. fold color.
  rewrite bool_decide_eq_true_2 by done.
  cbn [Z.ltb andb truthy app].
  change (0 + 1) with 1. unfold color. rewrite colorLoop_uniform.
  - by rewrite <- app_assoc.
  - intros j Hj. apply Hu. lia.
Qed.

Lemma rowStart_mod cols j :
  0 < cols -> 0 <= j -> Player.rowStart j cols = (j mod cols =? 0).
Proof.
  intros Hc Hj. unfold Player.rowStart.
  destruct (Z.eqb_spec cols 0); [lia|]. by rewrite Z.rem_mod_nonneg by lia.
Qed.

Lemma withBreaks_inside cols l rest : forall i,
  (forall j, i <= j < i + Z.of_nat (length l) ->
     (0 <? j) && Player.rowStart j cols = false) ->
  withBreaks cols i (l ++ rest)
  = (l ≫= Player.escapeChar) ++ withBreaks cols (i + Z.of_nat (length l)) rest.
Proof.
  induction l as [|x l IH]; intros i Hin.
  - cbn. by rewrite Z.add_0_r.
  - cbn [app withBreaks]. rewrite Hin by (cbn [length]; lia).
    rewrite bind_cons, IH.
    + cbn [app length]. rewrite <- app_assoc. do 2 f_equal. f_equal. lia.
    + intros j Hj. apply Hin. cbn [length]. lia.
Qed.

Lemma withBreaks_row cols k l rest :
  0 < cols -> 0 <= k -> l <> [] -> Z.of_nat (length l) <= cols ->
  withBreaks cols (k * cols) (l ++ rest)
  = (if 0 <? k then [10] else []) ++ (l ≫= Player.escapeChar)
    ++ withBreaks cols (k * cols + Z.of_nat (length l)) rest.
Proof.
  intros Hc Hk Hne Hlen. destruct l as [|x l]; [done|].
  cbn [app withBreaks]. rewrite bind_cons.
  rewrite rowStart_mod by nia. rewrite Z.mod_mul by lia. cbn [Z.eqb].
  rewrite andb_true_r.
  assert ((0 <? k * cols) = (0 <? k)) as ->.
  { destruct (Z.ltb_spec 0 k), (Z.ltb_spec 0 (k * cols)); (done || nia). }
  rewrite withBreaks_inside.
  - cbn [length]. rewrite <- !app_assoc. do 3 f_equal. f_equal. lia.
  - intros j Hj. cbn [length] in Hlen.
    rewrite rowStart_mod by nia.
    replace j with ((j - k * cols) + k * cols) by lia.
    rewrite Z.mod_add by lia. rewrite Z.mod_small by lia.
    destruct (Z.eqb_spec (j - k * cols) 0); [lia|]. apply andb_false_r.
Qed.

Lemma withBreaks_lines cols : 0 < cols -> forall fuel s k,
  (length s <= fuel)%nat -> 0 <= k ->
  withBreaks cols (k * cols) s
  = (if (0 <? k) && truthy s then [10] else [])
    ++ (Player.joinLines (Player.sliceLines fuel (Z.to_nat cols) s)
        ≫= Player.escapeChar).
Proof.
  intros Hc. induction fuel as [|fuel IH]; intros s k Hf Hk.
  - destruct s; [|cbn in Hf; lia]. cbn. by rewrite andb_false_r.
  - destruct s as [|x tl] eqn:E; [cbn; by rewrite andb_false_r|].
    rewrite <- E in *. cbn [Player.sliceLines].
    assert (truthy s = true) as -> by (by rewrite E). rewrite andb_true_r.
    assert (s <> []) as Hne by (by rewrite E).
    replace (match s with [] => [] | _ :: _ => _ end)
      with (take (Z.to_nat cols) s
            :: Player.sliceLines fuel (Z.to_nat cols) (drop (Z.to_nat cols) s))
      by (by rewrite E).
    set (l := take (Z.to_nat cols) s). set (rest := drop (Z.to_nat cols) s).
    assert (s = l ++ rest) as Hs by (symmetry; apply take_drop).
    assert (l <> []) as Hl.
    { unfold l. rewrite E. destruct (Z.to_nat cols) eqn:Ec; [lia|done]. }
    assert (Z.of_nat (length l) <= cols) as Hll
      by (unfold l; rewrite length_take; lia).
    rewrite Hs at 1. rewrite withBreaks_row by done. f_equal.
    destruct rest as [|y rest'] eqn:Er.
    + assert (Player.sliceLines fuel (Z.to_nat cols) [] = []) as ->
        by (by destruct fuel).
      cbn [Player.joinLines withBreaks]. by rewrite app_nil_r.
    + rewrite <- Er in *.
      assert (Z.of_nat (length l) = cols) as Hfull.
      { assert (0 < length rest)%nat as Hr by (rewrite Er; cbn; lia).
        unfold rest in Hr. rewrite length_drop in Hr.
        unfold l. rewrite length_take. lia. }
      rewrite Hfull.
      replace (k * cols + cols) with ((k + 1) * cols) by lia.
      rewrite (IH rest (k + 1)); [|unfold rest; rewrite length_drop; assert (0 < length s)%nat by (rewrite E; cbn; lia); lia|lia].
      assert (truthy rest = true) as -> by (by rewrite Er).
      destruct (Z.ltb_spec 0 (k + 1)); [|lia]. cbn [andb].
      destruct (Player.sliceLines fuel (Z.to_nat cols) rest) as [|l' ls] eqn:Esl.
      { exfalso.
        assert (0 < length rest)%nat as Hr by (rewrite Er; cbn; lia).
        destruct fuel as [|fuel'].
        - unfold rest in Hr. rewrite length_drop in Hr. lia.
        - cbn [Player.sliceLines] in Esl. by rewrite Er in Esl. }
      change (Player.joinLines (l :: l' :: ls))
        with (l ++ 10 :: Player.joinLines (l' :: ls)).
      rewrite bind_app, bind_cons. done.
Qed.

Lemma renderColoredFrame_uniform cols (s colors : list Z) r g b :
  0 < cols -> s <> [] -> 10 ∉ s ->
  uniformColor colors (length s) r g b ->
  Player.renderColoredFrame cols
    {| Player.text := Player.linesText cols s; Player.colors := Some colors |}
  = Player.InnerHTML
      (Player.spanOpen (Player.rgb (Some r) (Some g) (Some b))
       ++ (Player.linesText cols s ≫= Player.escapeChar)
       ++ Player.spanClose).
Proof.
  intros Hc Hne H10 Hu. unfold Player.renderColoredFrame.
  cbn [Player.colors Player.text]. rewrite linesText_strip by done.
  destruct s as [|ch rest]; [done|].
  rewrite (colorLoop_first cols colors r g b) by exact Hu.
  cbn [truthy]. f_equal. rewrite <- app_assoc. do 2 f_equal.
  unfold Player.linesText.
  change 0 with (0 * cols) at 1.
  rewrite (withBreaks_lines cols Hc (length (ch :: rest))) by lia. done.
Qed.

End ColoredFrame.

(** ** Bytes after the last frame *)

Section TrailingBytes.
Import JS Types.

Lemma decodeFrames_trailing E m frames rest :
  Forall (wfFrame m) frames ->
  Decoder.decodeFrames E (includeColors m) (Types.rows m * Types.cols m)
    (length frames)
    (concat (map (OutputFormats.frameBytes (includeColors m)) frames) ++ rest)
  = Decoder.decodeFrames E (includeColors m) (Types.rows m * Types.cols m)
      (length frames)
      (concat (map (OutputFormats.frameBytes (includeColors m)) frames) ++ []).
Proof.
  intros Hfs.
  assert (forall f, Decision (frameSpreads E f)) as Hdec
    by (intros [chars colors|changes]; cbn [frameSpreads]; apply _).
  destruct (decide (Forall (frameSpreads E) frames)) as [Hfit|Hover].
  - by rewrite !decodeFrames_encode.
  - by rewrite !decodeFrames_encode_over.
Qed.

Lemma decode_write_trailing E a rest :
  wfAnimation a ->
  Decoder.decodeBinary E (OutputFormats.writeBinaryBytes a ++ rest)
  = Decoder.decodeBinary E (OutputFormats.writeBinaryBytes a).
Proof.
  intros Hwf.
  rewrite <- (app_nil_r (OutputFormats.writeBinaryBytes a)) at 2.
  rewrite !decode_write_frames by done.
  destruct Hwf as [_ Hfs]. by rewrite decodeFrames_trailing.
Qed.

End TrailingBytes.

(** ** What a seek shows *)

Section SeekShows.
Import JS.

Lemma seek_shows_frame p (i : nat) frame :
  Player.decodedFrames p !! i = Some frame ->
  Player.seek p (Z.of_nat i)
  = Player.Normal
      (Player.setContainer (Player.setFrameIndex p (Z.of_nat i) false)
         match Types.colorMode (Types.meta (Player.animation p)) with
         | Types.Mono => Player.TextContent (Player.text frame)
         | _ => Player.renderColoredFrame
                  (Types.cols (Types.meta (Player.animation p))) frame
         end).
Proof.
  intros Hf. pose proof (lookup_lt_Some _ _ _ Hf) as Hlt.
  destruct (seek_inside p (Z.of_nat i)) as (frame' & Hf' & ->).
  { destruct (Player.decodedFrames p); [cbn in Hlt; lia|done]. }
  cbv zeta in Hf'.
  replace (Z.max 0 (Z.min (Z.of_nat i)
             (Z.of_nat (length (Player.decodedFrames p)) - 1)))
    with (Z.of_nat i) in * by lia.
  rewrite at_of_nat, Hf in Hf'. by injection Hf' as <-.
Qed.

End SeekShows.

(** ** The shape of an encoding *)

Section VarIntLength.
Import JS.

Lemma encodeVarInt_bytes n :
  0 <= n ->
  (1 <= length (Compress.encodeVarInt n) <= 5)%nat /\
  Forall isByte (Compress.encodeVarInt n) /\
  (forall i b, Compress.encodeVarInt n !! i = Some b ->
     (128 <= b <-> (S i < length (Compress.encodeVarInt n))%nat)).
Proof.
  intros Hn. destruct (Z.lt_ge_cases n (2 ^ 32)) as [Hlt|Hge].
  - exact (encodeVarInt_shape_aux n Hn 5 Hn ltac:(lia) ltac:(lia) Hlt).
  - rewrite encodeVarInt_eq. destruct (Z.gtb_spec n 127) as [_|]; [|lia].
    pose proof (Z.mod_pos_bound n 128 ltac:(lia)) as Hm.
    rewrite low7, bit7_set, shiftr7_wide by lia.
    pose proof (Z.mod_pos_bound n (2 ^ 32) ltac:(lia)) as Hm32.
    assert (0 <= n mod 2 ^ 32 / 128 < 2 ^ (7 * 4)) as Hq.
    { split; [apply Z.div_pos; lia|apply Z.div_lt_upper_bound; lia]. }
    destruct (encodeVarInt_shape_aux (n mod 2 ^ 32 / 128) ltac:(lia) 4
                ltac:(lia) ltac:(lia) ltac:(lia) ltac:(lia))
      as (Hlen & Hbytes & Hbits).
    split; [cbn [length]; lia|]. split.
    + constructor; [unfold isByte; lia|done].
    + intros [|i] b; cbn [lookup list_lookup length].
      * intros [= <-]. split; intros _; lia.
      * intros Hb. rewrite (Hbits i b Hb). lia.
Qed.

Lemma encodeVarInt_length_ge (k : nat) : forall n,
  2 ^ (7 * Z.of_nat k) <= n < 2 ^ 32 ->
  (k + 1 <= length (Compress.encodeVarInt n))%nat.
Proof.
  induction k as [|k IH]; intros n Hn.
  - destruct (encodeVarInt_bytes n) as [? _]; [|lia].
    change (2 ^ (7 * Z.of_nat 0)) with 1 in Hn. lia.
  - assert (2 ^ (7 * Z.of_nat (S k)) = 128 * 2 ^ (7 * Z.of_nat k)) as Hp.
    { replace (7 * Z.of_nat (S k)) with (7 + 7 * Z.of_nat k) by lia.
      rewrite Z.pow_add_r by lia. done. }
    assert (0 < 2 ^ (7 * Z.of_nat k)) by (apply Z.pow_pos_nonneg; lia).
    rewrite encodeVarInt_eq. destruct (Z.gtb_spec n 127) as [_|]; [|lia].
    rewrite shiftr7 by lia. cbn [length].
    assert (k + 1 <= length (Compress.encodeVarInt (n / 128)))%nat; [|lia].
    apply IH. split.
    + apply Z.div_le_lower_bound; lia.
    + apply Z.div_lt_upper_bound; lia.
Qed.

End VarIntLength.

(** ** The codec, the player and the renderers *)

(** X1.  Variable-length integers round-trip: for every [n] in
    [0, 2^31), [decodeVarInt] applied to the bytes of [encodeVarInt n],
    whatever follows them, gives back [n] and reports exactly the bytes
    the encoding has. *)
Theorem X1_varint_roundtrip (n : Z) (rest : list Z) :
  0 <= n < 2 ^ 31 ->
  Decoder.decodeVarInt (Compress.encodeVarInt n ++ rest)
  = (n, length (Compress.encodeVarInt n)).
Proof.
  intros Hn.
  destruct (encodeVarInt_bytes n) as (_ & Hb & _); [lia|].
  rewrite <- (map_u8_bytes _ Hb) at 1.
  rewrite decodeVarInt_encode32 by lia. f_equal. apply toInt32_small. lia.
Qed.

Lemma X1_varint_roundtrip_witness :
  0 <= 300 < 2 ^ 31 /\
  Decoder.decodeVarInt (Compress.encodeVarInt 300 ++ [7; 8])
  = (300, length (Compress.encodeVarInt 300)).
Proof. split; [lia | apply (X1_varint_roundtrip 300 [7; 8]); lia]. Defined.

(** X2.  Shape of an encoding: for every [n >= 0], [encodeVarInt n] has
    between one and five elements, each of them a byte, and an element has
    its high bit set exactly when another one follows it. *)
Theorem X2_varint_shape (n : Z) :
  0 <= n ->
  (1 <= length (Compress.encodeVarInt n) <= 5)%nat /\
  Forall isByte (Compress.encodeVarInt n) /\
  (forall i b, Compress.encodeVarInt n !! i = Some b ->
     (128 <= b <-> (S i < length (Compress.encodeVarInt n))%nat)).
Proof. apply encodeVarInt_bytes. Qed.

Lemma X2_varint_shape_witness :
  0 <= 300 /\
  (1 <= length (Compress.encodeVarInt 300) <= 5)%nat /\
  Forall isByte (Compress.encodeVarInt 300) /\
  (forall i b, Compress.encodeVarInt 300 !! i = Some b ->
     (128 <= b <-> (S i < length (Compress.encodeVarInt 300))%nat)).
Proof. split; [lia | apply (X2_varint_shape 300); lia]. Defined.

(** X3.  The decoder works in int32: an integer in [2^31, 2^32) is
    encoded in five bytes and read back as the negative number
    [n - 2^32]. *)
Theorem X3_varint_wraps_from_2_31 (n : Z) (rest : list Z) :
  2 ^ 31 <= n < 2 ^ 32 ->
  length (Compress.encodeVarInt n) = 5%nat /\
  Decoder.decodeVarInt (Compress.encodeVarInt n ++ rest) = (n - 2 ^ 32, 5%nat).
Proof.
  intros Hn.
  destruct (encodeVarInt_bytes n) as (Hlen & Hb & _); [lia|].
  pose proof (encodeVarInt_length_ge 4 n ltac:(cbn; lia)) as Hge.
  assert (length (Compress.encodeVarInt n) = 5%nat) as Hl by lia.
  split; [done|].
  rewrite <- (map_u8_bytes _ Hb) at 1.
  rewrite decodeVarInt_encode32, Hl by lia. f_equal.
  unfold JS.toInt32.
  replace (n + 2 ^ 31) with (n - 2 ^ 31 + 1 * 2 ^ 32) by lia.
  rewrite Z.mod_add, Z.mod_small by lia. lia.
Qed.

Lemma X3_varint_wraps_witness :
  2 ^ 31 <= 3000000000 < 2 ^ 32 /\
  length (Compress.encodeVarInt 3000000000) = 5%nat /\
  Decoder.decodeVarInt (Compress.encodeVarInt 3000000000 ++ [])
  = (3000000000 - 2 ^ 32, 5%nat).
Proof.
  split; [lia | apply (X3_varint_wraps_from_2_31 3000000000 []); lia].
Defined.

(** X4.  A frame compared with itself gives the empty delta, whatever its
    size and contents. *)
Theorem X4_unchanged_frame_gives_empty_delta
    (g : ConvertedFrame) (includeColors : bool) :
  Compress.computeDelta g g includeColors = Types.FrameDelta [].
Proof. apply computeDelta_same_aux. Qed.

(** X5.  Whenever [computeDelta] returns a delta, its changes are exactly
    the cells of [curr] that differ from [prev], in increasing order of
    index and each once; every change carries the symbol of [curr] at its
    index and, when colours are included, the three colour bytes of [curr]
    for that cell (no colour field otherwise). *)
Theorem X5_delta_lists_the_changed_cells
    (prev curr : ConvertedFrame) (includeColors : bool)
    (changes : list Types.DeltaChange) :
  Compress.computeDelta prev curr includeColors = Types.FrameDelta changes ->
  map Types.index changes
  = filter (fun i => Compress.cellChanged prev curr includeColors i = true)
      (seqZ 0 (Z.of_nat (length (chars curr)))) /\
  Forall (fun c =>
            0 <= Types.index c < Z.of_nat (length (chars curr)) /\
            JS.at_ (chars curr) (Types.index c) = Some (Types.char c) /\
            Types.colorR c
            = (if includeColors
               then JS.at_ (colors curr) (Types.index c * 3) else None) /\
            Types.colorG c
            = (if includeColors
               then JS.at_ (colors curr) (Types.index c * 3 + 1) else None) /\
            Types.colorB c
            = (if includeColors
               then JS.at_ (colors curr) (Types.index c * 3 + 2) else None))
    changes.
Proof.
  unfold Compress.computeDelta.
  destruct (Compress.tooManyChanges _ _); [done|]. intros [= <-].
  rewrite scanChanges_filter. split.
  - rewrite map_map. cbn [Compress.makeChange Types.index]. apply map_id.
  - apply Forall_forall. intros c Hin.
    apply list_elem_of_fmap in Hin as (i & -> & Hi).
    apply list_elem_of_filter in Hi as [_ Hi]. apply elem_of_seqZ in Hi.
    cbn [Compress.makeChange Types.index Types.char Types.colorR
         Types.colorG Types.colorB].
    split; [lia|]. split; [|done].
    destruct (lookup_some_below (chars curr) i ltac:(lia)) as [x ->]. done.
Qed.

Lemma X5_delta_lists_witness :
  Compress.computeDelta gridA gridB true
  = Types.FrameDelta
      [{| Types.index := 4; Types.char := 35; Types.colorR := Some 13;
          Types.colorG := Some 14; Types.colorB := Some 200 |}] /\
  map Types.index
    [{| Types.index := 4; Types.char := 35; Types.colorR := Some 13;
        Types.colorG := Some 14; Types.colorB := Some 200 |}]
  = filter (fun i => Compress.cellChanged gridA gridB true i = true)
      (seqZ 0 (Z.of_nat (length (chars gridB)))).
Proof.
  split; [reflexivity|].
  exact (proj1 (X5_delta_lists_the_changed_cells gridA gridB true _ eq_refl)).
Defined.

(** X6.  The threshold is exact on the other side too: when at most 40%
    of the cells changed ([5 * changed <= 2 * n]), [computeDelta] returns a
    delta, with one change per changed cell.  The comparison of
    the source is in binary64 and the grid has fewer than 2^50 cells. *)
Theorem X6_at_most_40_percent_gives_delta
    (prev curr : ConvertedFrame) (includeColors : bool) :
  Z.of_nat (length (chars curr)) < 2 ^ 50 ->
  5 * changedCells prev curr includeColors
    <= 2 * Z.of_nat (length (chars curr)) ->
  exists changes,
    Compress.computeDelta prev curr includeColors = Types.FrameDelta changes /\
    Z.of_nat (length changes) = changedCells prev curr includeColors.
Proof.
  intros Hn Hk. unfold Compress.computeDelta.
  rewrite scanChanges_count. fold (changedCells prev curr includeColors).
  rewrite tooManyChanges_below by (unfold changedCells in *; lia).
  eexists. split; [reflexivity|].
  by rewrite scanChanges_count.
Qed.

Lemma X6_two_of_five_witness :
  Z.of_nat (length (chars gridD)) < 2 ^ 50 /\
  5 * changedCells gridA gridD true = 2 * Z.of_nat (length (chars gridD)) /\
  exists changes,
    Compress.computeDelta gridA gridD true = Types.FrameDelta changes /\
    Z.of_nat (length changes) = changedCells gridA gridD true.
Proof.
  split; [reflexivity|]. split; [reflexivity|].
  apply (X6_at_most_40_percent_gives_delta gridA gridD true);
    [reflexivity | vm_compute; discriminate].
Defined.


(** X7.  What the decoder does with a stream the writer made, without
    any condition on the animation.  It never rejects the magic or the
    header.  When it returns, every header field comes back modulo the
    width it is stored in (one byte for version, fps and ramp length, two
    for cols, rows and frameCount), the colour mode comes back as it was,
    the ramp cut to the stored length, and [frameCount mod 2^16] frames
    are read.  It throws only the RangeError of a spread, and only on a
    stream longer than the number of arguments the engine accepts in a
    call; on a stream within that number it returns. *)
Theorem X7_written_stream_is_always_decoded
    (E : JS.Engine) (a : Types.ASCIIAnimation) :
  let bytes := OutputFormats.writeBinaryBytes a in
  (forall a', Decoder.decodeBinary E bytes = JS.Returned a' ->
     Types.version (Types.meta a') = JS.u8 (Types.version (Types.meta a)) /\
     Types.cols (Types.meta a') = JS.u16 (Types.cols (Types.meta a)) /\
     Types.rows (Types.meta a') = JS.u16 (Types.rows (Types.meta a)) /\
     Types.fps (Types.meta a') = JS.u8 (Types.fps (Types.meta a)) /\
     Types.frameCount (Types.meta a')
     = JS.u16 (Types.frameCount (Types.meta a)) /\
     Types.colorMode (Types.meta a') = Types.colorMode (Types.meta a) /\
     Types.ramp (Types.meta a')
     = take (Z.to_nat (JS.u8 (Z.of_nat (length (Types.ramp (Types.meta a))))))
         (map JS.u8 (Types.ramp (Types.meta a))) /\
     length (Types.frames a')
     = Z.to_nat (JS.u16 (Types.frameCount (Types.meta a)))) /\
  (forall e, Decoder.decodeBinary E bytes = JS.Thrown e ->
     e = JS.RangeError /\ JS.maxArguments E < Z.of_nat (length bytes)) /\
  (Z.of_nat (length bytes) <= JS.maxArguments E ->
   exists a', Decoder.decodeBinary E bytes = JS.Returned a').
Proof.
  intros bytes. pose proof (decode_write_header E a) as H. fold bytes in H.
  destruct (Decoder.decodeBinary E bytes) as [a'|e].
  - split; [|split; [done|by exists a']].
    intros ? [= <-]. destruct H as [-> Hlen].
    cbn [Types.meta Types.frames Types.version
      Types.cols Types.rows Types.fps Types.frameCount Types.colorMode Types.ramp].
    repeat (split; [done|]). split; [|done].
    apply take_app_le. rewrite length_map.
    pose proof (u8_le (Z.of_nat (length (Types.ramp (Types.meta a))))). lia.
  - destruct H as [-> H]. split; [done|]. split; [by intros ? [= <-]|lia].
Qed.

Lemma X7_sample_stream_witness :
  exists a',
    Decoder.decodeBinary sampleEngine
      (OutputFormats.writeBinaryBytes sampleAnimation) = JS.Returned a'.
Proof.
  apply (proj2 (proj2 (X7_written_stream_is_always_decoded
                         sampleEngine sampleAnimation))).
  vm_compute. discriminate.
Defined.


(** X8.  The preprocessor and the player compose.  Take the frames the
    conversion loop of [main] got ([grids], all of [r] rows and
    [options.cols] columns, with single-byte symbols and their colour
    bytes), the animation [main] assembles from them, the stream
    [writeBinary] makes of it and the animation [decodeBinary] reads back:
    the meta is the one [main] wrote, and [preDecodeFrames] on it stores,
    for every input grid in order, the grid cut into lines of [cols]
    symbols with its colours.  The header fields must fit their widths,
    the grid must have fewer than 2^31 cells, and the engine must accept
    the ramp and the symbols of a grid as the arguments of one call and
    allocate the colour buffer of a grid. *)
Theorem X8_preprocessed_frames_play_back
    (E : JS.Engine) (options : Index.ProcessOptions)
    (grids : list ConvertedFrame) (r : Z) :
  0 < Index.cols options <= 65535 -> 0 <= r <= 65535 ->
  r * Index.cols options < 2 ^ 31 ->
  0 <= Index.fps options <= 255 ->
  Z.of_nat (length grids) <= 65535 ->
  (length (Index.ramp options) <= 255)%nat ->
  Forall isByte (Index.ramp options) ->
  Forall (fun g => rows g = r /\
                   grid (Z.to_nat (r * Index.cols options)) g /\
                   Forall isByte (chars g)) grids ->
  Z.of_nat (length (Index.ramp options)) <= JS.maxArguments E ->
  r * Index.cols options <= JS.maxArguments E ->
  (Index.colorMode options <> Types.Mono ->
   r * Index.cols options * 3 <= JS.maxByteLength E) ->
  let a := Index.buildAnimation options grids in
  let ic := Types.includeColors (Types.meta a) in
  exists a',
    Decoder.decodeBinary E (OutputFormats.writeBinaryBytes a)
    = JS.Returned a' /\
    Types.meta a' = Types.meta a /\
    Player.preDecodeFrames E a'
    = Some (JS.Returned
              (map (fun g => snapshotOf (Index.cols options) (buffersOf ic g))
                 grids)).
Proof. apply pipeline_decoded. Qed.

Lemma X8_three_grids_witness :
  let a := Index.buildAnimation sampleOptions [gridA; gridB; gridC] in
  exists a',
    Decoder.decodeBinary sampleEngine (OutputFormats.writeBinaryBytes a)
    = JS.Returned a' /\
    Types.meta a' = Types.meta a /\
    Player.preDecodeFrames sampleEngine a'
    = Some (JS.Returned
              (map (fun g => snapshotOf 5 (buffersOf true g))
                 [gridA; gridB; gridC])).
Proof.
  apply (X8_preprocessed_frames_play_back sampleEngine sampleOptions
           [gridA; gridB; gridC] 1).
  9: vm_compute; discriminate.
  9: vm_compute; discriminate.
  9: intros _; vm_compute; discriminate.
  - cbn; lia.
  - lia.
  - cbn; lia.
  - cbn; lia.
  - cbn; lia.
  - cbn; lia.
  - by apply isByte_forallb.
  - repeat (apply List.Forall_cons;
      [split; [reflexivity|]; split;
       [split; [reflexivity|]; split; [reflexivity|]; by apply isByte_forallb
       |by apply isByte_forallb]|]).
    apply List.Forall_nil.
Defined.

(** X9.  Deltas outside the grid.  A change whose index is at or past the
    end of the symbol buffer (and of the colour buffer, when there is one)
    appends its symbol to the buffer, however far past the end the index
    is, and leaves the colours alone; a change with a negative index
    changes nothing.  The player has no bounds check. *)
Theorem X9_delta_outside_the_grid
    (includeColors : bool) (st : Player.Buffers) (c : Types.DeltaChange) :
  (Z.of_nat (length st.1) <= Types.index c < 2 ^ 32 - 1 ->
   (forall cs, st.2 = Some cs -> Z.of_nat (length cs) <= Types.index c * 3) ->
   Player.applyFrame includeColors st (Types.FrameDelta [c])
   = (st.1 ++ [Types.char c], st.2)) /\
  (Types.index c < 0 ->
   Player.applyFrame includeColors st (Types.FrameDelta [c]) = st).
Proof.
  split.
  - intros Hi Hc. by apply applyFrame_past_the_end.
  - apply applyFrame_negative_index.
Qed.

Lemma X9_delta_outside_witness :
  Player.applyFrame true (buffersOf true gridA)
    (Types.FrameDelta [outOfRangeChange])
  = (JS.codes "+@.:+#", Some (colors gridA)) /\
  Player.applyFrame true (buffersOf true gridA)
    (Types.FrameDelta [negativeChange])
  = buffersOf true gridA.
Proof.
  split.
  - apply (proj1 (X9_delta_outside_the_grid true (buffersOf true gridA)
                    outOfRangeChange)).
    + cbn. lia.
    + intros cs [= <-]. cbn. lia.
  - apply (proj2 (X9_delta_outside_the_grid true (buffersOf true gridA)
                    negativeChange)). cbn. lia.
Defined.

(** X10.  The text of a frame is its rows joined by newlines: for
    [cols > 0] and any number of rows of [cols] symbols each, the line
    loop of [preDecodeFrames] applied to their concatenation gives the
    rows back, joined by line breaks. *)
Theorem X10_text_is_the_rows_joined
    (ncols : Z) (rws : list JS.jsstring) :
  0 < ncols -> Forall (fun l => Z.of_nat (length l) = ncols) rws ->
  Player.formatText ncols (concat rws) = Some (Player.joinLines rws).
Proof.
  intros Hc Hl. rewrite formatText_pos by done. f_equal.
  by apply linesText_concat.
Qed.

Lemma X10_two_rows_witness :
  Player.formatText 3 (JS.codes "+@." ++ JS.codes ":+#")
  = Some (JS.codes "+@." ++ [10] ++ JS.codes ":+#").
Proof.
  apply (X10_text_is_the_rows_joined 3 [JS.codes "+@."; JS.codes ":+#"]);
    [lia|]. by repeat constructor.
Defined.


(** X11.  The live renderer prints a frame as the player prints the same
    symbols.  For a frame [render] returns whose [rows] is an integer [z]
    in [0, 2^32), with the renderer's column count in the range [20, 200]
    that the constructor and [setOptions] keep it in: the buffers hold
    exactly [z * cols] symbols and three times as many colour bytes, and
    [frameToText] returns the symbols cut into lines of [cols], the text
    the player's line loop makes of them. *)
Theorem X11_frameToText_of_a_rendered_frame
    (r : ASCIIRenderer.Renderer) (imageData : ImageData)
    (f : ASCIIRenderer.ASCIIFrame) (z : Z) :
  20 <= ASCIIRenderer.rcols r <= 200 ->
  ASCIIRenderer.render r imageData = JS.Returned f ->
  ASCIIRenderer.rows f = Num.ofZ z -> 0 <= z < 2 ^ 32 ->
  length (ASCIIRenderer.charCodes f) = Z.to_nat (z * ASCIIRenderer.cols f) /\
  length (ASCIIRenderer.colors f) = Z.to_nat (z * ASCIIRenderer.cols f * 3) /\
  ASCIIRenderer.frameToText f
  = JS.Returned (Player.linesText (ASCIIRenderer.cols f)
                   (ASCIIRenderer.charCodes f)).
Proof.
  intros Hc Hrender Hrows Hz.
  destruct (render_cells r imageData f z ltac:(lia) Hrender Hrows ltac:(lia)
              ltac:(nia)) as (Hcols & step & rects & Hlen & Hcodes & Hcolors).
  destruct (renderCells_length r imageData step rects) as [H1 H2].
  assert (length (ASCIIRenderer.charCodes f)
          = Z.to_nat (z * ASCIIRenderer.cols f)) as Hl1
    by (rewrite Hcodes, H1, Hlen, Hcols; done).
  split; [done|]. split.
  - rewrite Hcolors, H2, Hlen, Hcols. lia.
  - apply (frameToText_lines f z); (done || lia).
Qed.

Lemma X11_gray_frame_witness :
  ASCIIRenderer.render
    (ASCIIRenderer.setCols ASCIIRenderer.create 20)
    (grayImage 40 8)
  = JS.Returned grayFrame /\
  length (ASCIIRenderer.charCodes grayFrame) = 40%nat /\
  ASCIIRenderer.frameToText grayFrame
  = JS.Returned (replicate 20 43 ++ [10] ++ replicate 20 43).
Proof.
  assert (ASCIIRenderer.render
            (ASCIIRenderer.setCols ASCIIRenderer.create 20)
            (grayImage 40 8) = JS.Returned grayFrame) as Hrender
    by (vm_compute; reflexivity).
  split; [exact Hrender|].
  destruct (X11_frameToText_of_a_rendered_frame
              (ASCIIRenderer.setCols ASCIIRenderer.create 20)
              (grayImage 40 8) grayFrame 2
              ltac:(cbn; lia) Hrender eq_refl ltac:(lia)) as (H1 & _ & H3).
  split; [exact H1 | exact H3].
Defined.

(** X12.  Escaping.  The three replacements of [escapeHTML], made one
    after the other, act as one substitution per character — the one the
    player's colour loop applies inline — so no replacement is escaped
    again; the result holds no '<' and no '>'.  Through
    [frameToColoredHTML] this is the HTML of a frame in mono mode. *)
Theorem X12_mono_html_is_escaped
    (r : ASCIIRenderer.Renderer) (frame : ASCIIRenderer.ASCIIFrame)
    (html : JS.jsstring) :
  ASCIIRenderer.colorMode r = ASCIIRenderer.mono ->
  ASCIIRenderer.frameToColoredHTML r frame = JS.Returned html ->
  exists t,
    ASCIIRenderer.frameToText frame = JS.Returned t /\
    html = ASCIIRenderer.escapeHTML t /\
    html = t ≫= Player.escapeChar /\
    Forall (fun c => c <> 60 /\ c <> 62) html.
Proof.
  intros Hm. unfold ASCIIRenderer.frameToColoredHTML. rewrite Hm.
  destruct (ASCIIRenderer.frameToText frame) as [t|e]; [|done].
  cbn [JS.bind]. intros [= <-]. exists t.
  split; [done|]. split; [done|]. split; [apply escapeHTML_chars|].
  apply escapeHTML_no_brackets.
Qed.

Lemma X12_markup_frame_witness :
  exists t,
    ASCIIRenderer.frameToText markupFrame = JS.Returned t /\
    JS.codes "&lt;&amp;&gt;" ++ [10] ++ JS.codes "a b"
    = ASCIIRenderer.escapeHTML t /\
    JS.codes "&lt;&amp;&gt;" ++ [10] ++ JS.codes "a b"
    = t ≫= Player.escapeChar /\
    Forall (fun c => c <> 60 /\ c <> 62)
      (JS.codes "&lt;&amp;&gt;" ++ [10] ++ JS.codes "a b").
Proof.
  apply (X12_mono_html_is_escaped ASCIIRenderer.create markupFrame);
    reflexivity.
Defined.

(** X13.  The render worker and the main-thread renderer pick the same
    symbol.  When the worker has been sent the renderer's ramp and invert
    flag, then for every luminance in [0, 255] and every ramp of at most
    256 symbols the worker's [rampCodes[getCharIndex(lum)]] is the
    renderer's [rampCodes[lumToCharLUT[lum]]] (both undefined for the empty
    ramp). *)
Theorem X13_worker_and_renderer_agree
    (r : ASCIIRenderer.Renderer) (c lum : Z) :
  tablesBuilt r ->
  (length (ASCIIRenderer.ramp r) <= 256)%nat -> 0 <= lum <= 255 ->
  Worker.symbolCode
    (Worker.setOptions
       {| Worker.msgCols := c;
          Worker.msgRampCodes := ASCIIRenderer.ramp r;
          Worker.msgInvert := ASCIIRenderer.invert r |}) lum
  = ASCIIRenderer.symbolCode r lum.
Proof. apply worker_symbol_agrees. Qed.

Lemma X13_worker_witness :
  Worker.symbolCode
    (Worker.setOptions
       {| Worker.msgCols := 80;
          Worker.msgRampCodes := ASCIIRenderer.ramp ASCIIRenderer.create;
          Worker.msgInvert := ASCIIRenderer.invert ASCIIRenderer.create |})
    128
  = ASCIIRenderer.symbolCode ASCIIRenderer.create 128.
Proof.
  apply (X13_worker_and_renderer_agree ASCIIRenderer.create 80 128);
    [by split | cbn; lia | lia].
Defined.

(** X14.  What the converter returns is a grid the codec accepts.  When
    [convertToASCII] returns, for [cols >= 1], a non-empty ramp and a raster
    of bytes: [cols] is the requested one, [rows >= 0], the frame has
    exactly [rows * cols] symbols and three colour bytes for each, and
    every symbol is a symbol of the ramp. *)
Theorem X14_converter_returns_a_grid
    (imageData : ImageData) (options : AsciiConverter.ConvertOptions)
    (f : ConvertedFrame) :
  0 < AsciiConverter.optCols options ->
  AsciiConverter.optRamp options <> [] ->
  Forall isByte (data imageData) ->
  AsciiConverter.convertToASCII imageData options = JS.Returned f ->
  cols f = AsciiConverter.optCols options /\ 0 <= rows f /\
  grid (Z.to_nat (rows f * cols f)) f /\
  Forall (fun c => c ∈ AsciiConverter.optRamp options) (chars f).
Proof. apply convertToASCII_grid. Qed.

Lemma X14_narrow_raster_witness :
  cols {| chars := replicate 16 32; colors := replicate 48 0;
          rows := 4; cols := 4 |} = 4 /\
  0 <= 4 /\
  grid 16 {| chars := replicate 16 32; colors := replicate 48 0;
             rows := 4; cols := 4 |} /\
  Forall (fun c => c ∈ minimalRamp) (replicate 16 32).
Proof.
  apply (X14_converter_returns_a_grid (grayImage 2 4) (minimalOptions 4)).
  - cbn; lia.
  - discriminate.
  - by apply isByte_forallb.
  - vm_compute; reflexivity.
Defined.

(** X15.  Every symbol [render] emits is a symbol of the current ramp.
    For a renderer whose tables are those of its ramp and invert flag and
    whose column count is in [20, 200] (as the constructor and
    [setOptions] leave them), with a non-empty ramp, and a raster of
    bytes: in a frame [render] returns with an integer number [z] of rows
    in [0, 2^32), every character code is one of [rampCodes] and every
    colour entry is a byte. *)
Theorem X15_rendered_symbols_come_from_the_ramp
    (r : ASCIIRenderer.Renderer) (imageData : ImageData)
    (f : ASCIIRenderer.ASCIIFrame) (z : Z) :
  tablesBuilt r -> 20 <= ASCIIRenderer.rcols r <= 200 ->
  ASCIIRenderer.ramp r <> [] ->
  Forall isByte (data imageData) ->
  ASCIIRenderer.render r imageData = JS.Returned f ->
  ASCIIRenderer.rows f = Num.ofZ z -> 0 <= z < 2 ^ 32 ->
  Forall (fun code => code ∈ ASCIIRenderer.rampCodes r)
    (ASCIIRenderer.charCodes f) /\
  Forall isByte (ASCIIRenderer.colors f).
Proof.
  intros Ht Hc Hne Hb Hrender Hrows Hz.
  destruct (render_cells r imageData f z ltac:(lia) Hrender Hrows ltac:(lia)
              ltac:(nia)) as (_ & step & rects & _ & -> & ->).
  clear Hrender. induction rects as [|rect rects [IH1 IH2]]; [by split|].
  cbn [map]. rewrite !bind_cons.
  destruct (renderCell_symbol r imageData step rect Ht Hne Hb)
    as [(code & -> & Hin) Hcol].
  split; apply Forall_app; split; try done. by constructor.
Qed.

Lemma X15_gray_frame_witness :
  Forall (fun code => code ∈ ASCIIRenderer.rampCodes
            (ASCIIRenderer.setCols ASCIIRenderer.create 20))
    (ASCIIRenderer.charCodes grayFrame) /\
  Forall isByte (ASCIIRenderer.colors grayFrame).
Proof.
  apply (X15_rendered_symbols_come_from_the_ramp
           (ASCIIRenderer.setCols ASCIIRenderer.create 20)
           (grayImage 40 8) grayFrame 2).
  - by split.
  - cbn; lia.
  - discriminate.
  - by apply isByte_forallb.
  - vm_compute; reflexivity.
  - reflexivity.
  - lia.
Defined.


(** X16.  A player built on an animation with at least one frame never
    fails while it plays: after any sequence of [seek] calls (with any
    index, in or out of range) and due ticks, no call has thrown, the
    decoded frames are untouched and the frame index is the index of a
    frame. *)
Theorem X16_playback_keeps_the_index_in_range
    (E : JS.Engine) (a : Types.ASCIIAnimation) (c : Player.Content)
    (p : Player.ASCIIPlayer) (ops : list PlayerOp) :
  Player.construct E a c = Some (JS.Returned p) -> Types.frames a <> [] ->
  exists p',
    runOps ops p = Player.Normal p' /\
    Player.decodedFrames p' = Player.decodedFrames p /\
    0 <= Player.frameIndex p' < Z.of_nat (length (Types.frames a)).
Proof.
  intros Hp Hne.
  destruct (construct_fields E a c p Hp) as (_ & Hi & _ & Hlen & Hd & _).
  assert (0 < length (Types.frames a))%nat
    by (destruct (Types.frames a); [done|cbn; lia]).
  destruct (runOps_valid ops p Hd) as (p' & Hrun & Hf & Hidx); [lia|].
  exists p'. rewrite <- Hlen. split; [done|]. split; [done|exact Hidx].
Qed.

Lemma X16_playback_witness :
  exists p',
    runOps [Seek 7; Tick; Seek (-3); Tick; Tick] samplePlayer
    = Player.Normal p' /\
    Player.decodedFrames p' = Player.decodedFrames samplePlayer /\
    0 <= Player.frameIndex p'
      < Z.of_nat (length (Types.frames (Player.animation samplePlayer))).
Proof.
  apply (X16_playback_keeps_the_index_in_range sampleEngine
           (Player.animation samplePlayer) (Player.TextContent [])
           samplePlayer); [reflexivity | discriminate].
Defined.

(** X17.  [seek] has no guard.  On a player made from an animation without
    frames every [seek] throws a TypeError (the clamped index is 0 and
    there is no frame 0), and so does the first due tick; after [destroy],
    which empties the decoded frames, every [seek] throws as well, while a
    tick is ignored. *)
Theorem X17_seek_throws_without_frames
    (E : JS.Engine) (a : Types.ASCIIAnimation) (c : Player.Content)
    (p : Player.ASCIIPlayer) (q : Player.ASCIIPlayer) (i : Z) :
  (Player.construct E a c = Some (JS.Returned p) -> Types.frames a = [] ->
   Player.seek p i = Player.TypeError /\
   Player.tickDue p = Player.TypeError) /\
  Player.seek (Player.destroy q) i = Player.TypeError /\
  Player.tickDue (Player.destroy q) = Player.Normal (Player.destroy q).
Proof.
  split; [|split; [|done]].
  - intros Hp He.
    destruct (construct_fields E a c p Hp) as (_ & Hi & _ & Hlen & Hd & _).
    rewrite He in Hlen. cbn [length] in Hlen. split.
    + unfold Player.seek. apply renderFrame_outside. cbn. rewrite Hlen. lia.
    + unfold Player.tickDue. rewrite Hd, renderFrame_outside; [done|].
      rewrite Hi, Hlen. cbn. lia.
  - unfold Player.seek. apply renderFrame_outside. cbn. lia.
Qed.

Lemma X17_empty_animation_witness :
  exists p,
    Player.construct sampleEngine emptyAnimation (Player.TextContent [])
    = Some (JS.Returned p) /\
    Player.seek p 0 = Player.TypeError /\
    Player.tickDue p = Player.TypeError.
Proof.
  eexists. split; [reflexivity|].
  apply (proj1 (X17_seek_throws_without_frames sampleEngine emptyAnimation
                  (Player.TextContent []) _ samplePlayer 0));
    reflexivity.
Defined.

(** X18.  Looping.  On a player that is not destroyed and whose index is
    the index of one of its [n] frames, [k] due ticks in a row leave the
    index at [(i + k) mod n] and have wrapped around (calling
    [options.onLoop]) [(i + k) / n] times; in particular [n] ticks come
    back to the same frame after exactly one wrap. *)
Theorem X18_ticks_advance_modulo_the_frame_count
    (p : Player.ASCIIPlayer) (k : nat) :
  Player.isDestroyed p = false ->
  0 <= Player.frameIndex p < Z.of_nat (length (Player.decodedFrames p)) ->
  let n := Z.of_nat (length (Player.decodedFrames p)) in
  exists p',
    runOps (replicate k Tick) p = Player.Normal p' /\
    Player.frameIndex p' = (Player.frameIndex p + Z.of_nat k) mod n /\
    Z.of_nat (Player.loops p')
    = Z.of_nat (Player.loops p) + (Player.frameIndex p + Z.of_nat k) / n.
Proof. intros Hd Hi. by apply ticks_closed_form. Qed.

Lemma X18_three_ticks_witness :
  exists p',
    runOps (replicate 3 Tick) samplePlayer = Player.Normal p' /\
    Player.frameIndex p' = 0 /\ Z.of_nat (Player.loops p') = 1.
Proof.
  apply (X18_ticks_advance_modulo_the_frame_count samplePlayer 3);
    [reflexivity | cbn; lia].
Defined.

(** X19.  Colour batching.  For a decoded frame of [cols > 0] columns
    whose cells all have the colour [(r, g, b)] and whose symbols hold no
    line break, [renderColoredFrame] makes one span: the opening tag with
    [rgb(r,g,b)], the text of the frame with '<', '>' and '&' escaped and
    the line breaks kept, and the closing tag. *)
Theorem X19_one_colour_gives_one_span
    (ncols : Z) (s colors : list Z) (r g b : Z) :
  0 < ncols -> s <> [] -> 10 ∉ s ->
  uniformColor colors (length s) r g b ->
  Player.renderColoredFrame ncols
    {| Player.text := Player.linesText ncols s;
       Player.colors := Some colors |}
  = Player.InnerHTML
      (Player.spanOpen (Player.rgb (Some r) (Some g) (Some b))
       ++ (Player.linesText ncols s ≫= Player.escapeChar)
       ++ Player.spanClose).
Proof. apply renderColoredFrame_uniform. Qed.

Lemma X19_one_span_witness :
  Player.renderColoredFrame 2
    {| Player.text := Player.linesText 2 (JS.codes "a<b+");
       Player.colors := Some (mjoin (replicate 4 [255; 128; 0])) |}
  = Player.InnerHTML
      (JS.codes "<span style=" ++ [34] ++ JS.codes "color:rgb(255,128,0)"
       ++ [34] ++ JS.codes ">a&lt;" ++ [10] ++ JS.codes "b+</span>").
Proof.
  apply (X19_one_colour_gives_one_span 2 (JS.codes "a<b+")
           (mjoin (replicate 4 [255; 128; 0])) 255 128 0).
  - lia.
  - discriminate.
  - intros H. repeat (apply elem_of_cons in H as [H|H]; [discriminate|]).
    by apply elem_of_nil in H.
  - intros i Hi.
    assert (i = 0 \/ i = 1 \/ i = 2 \/ i = 3) as [->|[->|[->| ->]]]
      by (cbn in Hi; lia); by repeat split.
Defined.


(** X20.  From the preprocessor to the screen.  With the frames and
    options of the composition theorem, a player constructed on the
    animation read back from the
    written stream shows, after [seek(i)], the [i]-th input grid: in mono
    mode the container's text is the grid cut into lines of [cols]; in the
    colour modes its HTML is what [renderColoredFrame] makes of these lines
    and the grid's colours.  The engine accepts the ramp and the symbols of
    a grid as the arguments of one call and allocates the colour buffer of
    a grid. *)
Theorem X20_seek_shows_the_preprocessed_grid
    (E : JS.Engine) (options : Index.ProcessOptions)
    (grids : list ConvertedFrame) (r : Z)
    (c : Player.Content) (i : nat) (g : ConvertedFrame) :
  0 < Index.cols options <= 65535 -> 0 <= r <= 65535 ->
  r * Index.cols options < 2 ^ 31 ->
  0 <= Index.fps options <= 255 ->
  Z.of_nat (length grids) <= 65535 ->
  (length (Index.ramp options) <= 255)%nat ->
  Forall isByte (Index.ramp options) ->
  Forall (fun g => rows g = r /\
                   grid (Z.to_nat (r * Index.cols options)) g /\
                   Forall isByte (chars g)) grids ->
  Z.of_nat (length (Index.ramp options)) <= JS.maxArguments E ->
  r * Index.cols options <= JS.maxArguments E ->
  (Index.colorMode options <> Types.Mono ->
   r * Index.cols options * 3 <= JS.maxByteLength E) ->
  grids !! i = Some g ->
  exists a' p p',
    Decoder.decodeBinary E
      (OutputFormats.writeBinaryBytes (Index.buildAnimation options grids))
    = JS.Returned a' /\
    Player.construct E a' c = Some (JS.Returned p) /\
    Player.seek p (Z.of_nat i) = Player.Normal p' /\
    Player.frameIndex p' = Z.of_nat i /\
    Player.container p'
    = match Index.colorMode options with
      | Types.Mono =>
          Player.TextContent (Player.linesText (Index.cols options) (chars g))
      | _ =>
          Player.renderColoredFrame (Index.cols options)
            {| Player.text := Player.linesText (Index.cols options) (chars g);
               Player.colors := Some (colors g) |}
      end.
Proof.
  intros Hc Hr Hn Hf Hl Hrl Hrb Hg Hramp Hargs Hbytes Hi.
  destruct (pipeline_decoded E options grids r Hc Hr Hn Hf Hl Hrl Hrb Hg
              Hramp Hargs Hbytes)
    as (a' & Hdec & Hmeta & Hpre).
  exists a'. unfold Player.construct. rewrite Hpre.
  eexists. eexists. split; [done|]. split; [reflexivity|].
  rewrite (seek_shows_frame _ i
             (snapshotOf (Index.cols options)
                (buffersOf (Types.includeColors
                   (Types.meta (Index.buildAnimation options grids))) g))).
  2:{ cbn [Player.decodedFrames]. by rewrite list_lookup_fmap, Hi. }
  split; [reflexivity|]. split; [reflexivity|].
  cbn [Player.container Player.setContainer Player.setFrameIndex
       Player.animation]. rewrite Hmeta.
  cbn [Index.buildAnimation Types.meta Types.colorMode Types.cols
       Types.includeColors].
  by destruct (Index.colorMode options).
Qed.

Lemma X20_seek_witness :
  exists a' p p',
    Decoder.decodeBinary sampleEngine
      (OutputFormats.writeBinaryBytes
         (Index.buildAnimation monoOptions [gridA; gridB; gridC]))
    = JS.Returned a' /\
    Player.construct sampleEngine a' (Player.TextContent [])
    = Some (JS.Returned p) /\
    Player.seek p 2 = Player.Normal p' /\
    Player.frameIndex p' = 2 /\
    Player.container p' = Player.TextContent (JS.codes "##@:#").
Proof.
  apply (X20_seek_shows_the_preprocessed_grid sampleEngine monoOptions
           [gridA; gridB; gridC] 1 (Player.TextContent []) 2 gridC).
  9: vm_compute; discriminate.
  9: vm_compute; discriminate.
  9: intros _; vm_compute; discriminate.
  - cbn; lia.
  - lia.
  - cbn; lia.
  - cbn; lia.
  - cbn; lia.
  - cbn; lia.
  - by apply isByte_forallb.
  - repeat (apply List.Forall_cons;
      [split; [reflexivity|]; split;
       [split; [reflexivity|]; split; [reflexivity|]; by apply isByte_forallb
       |by apply isByte_forallb]|]).
    apply List.Forall_nil.
  - reflexivity.
Defined.

(** X21.  The decoder reads no further than the frames the header
    declares: for a well-formed animation, bytes appended to
    the written stream do not change what [decodeBinary] returns or
    throws, on any engine. *)
Theorem X21_trailing_bytes_are_ignored
    (E : JS.Engine) (a : Types.ASCIIAnimation) (extra : list Z) :
  wfAnimation a ->
  Decoder.decodeBinary E (OutputFormats.writeBinaryBytes a ++ extra)
  = Decoder.decodeBinary E (OutputFormats.writeBinaryBytes a).
Proof.
  intros Hwf. by apply decode_write_trailing.
Qed.

Lemma X21_trailing_bytes_witness :
  wfAnimation sampleAnimation /\
  Decoder.decodeBinary sampleEngine
    (OutputFormats.writeBinaryBytes sampleAnimation ++ [1; 2; 3])
  = Decoder.decodeBinary sampleEngine
      (OutputFormats.writeBinaryBytes sampleAnimation) /\
  exists a',
    Decoder.decodeBinary sampleEngine
      (OutputFormats.writeBinaryBytes sampleAnimation ++ [1; 2; 3])
    = JS.Returned a'.
Proof.
  split; [apply sampleAnimation_wf|].
  split; [|eexists; vm_compute; reflexivity].
  apply (X21_trailing_bytes_are_ignored sampleEngine sampleAnimation [1; 2; 3]),
    sampleAnimation_wf.
Defined.

(** ** The performance manager *)

Section ManagerFacts.
Import PerformanceManager.

Lemma lastN_length {A} (n : nat) (l : list A) :
  (length (lastN n l) <= n)%nat.
Proof. unfold lastN. rewrite length_drop. lia. Qed.

Lemma lastN_short {A} (n : nat) (l : list A) :
  (length l <= n)%nat -> lastN n l = l.
Proof.
  intros H. unfold lastN. by replace (length l - n)%nat with 0%nat by lia.
Qed.

Lemma lastN_snoc {A} (n : nat) (l : list A) (x : A) :
  lastN n (lastN n l ++ [x]) = lastN n (l ++ [x]).
Proof.
  destruct (decide (length l <= n)%nat) as [Hle|Hgt].
  { by rewrite (lastN_short n l). }
  unfold lastN at 1 3. rewrite !length_app. cbn [length].
  assert (Hl : length (lastN n l) = n)
    by (unfold lastN; rewrite length_drop; lia).
  rewrite Hl. unfold lastN.
  destruct n as [|n].
  - rewrite !drop_ge; [done| |]; rewrite length_app; cbn [length];
      rewrite ?length_drop; lia.
  - replace (S n + 1 - S n)%nat with 1%nat by lia.
    rewrite !drop_app_le by (rewrite ?length_drop; lia).
    rewrite drop_drop. f_equal. f_equal. lia.
Qed.

Lemma measureFrame_window (m : Manager) (d : Num.num) :
  (length (frameTimes m) <= 60)%nat ->
  frameTimes (measureFrame m d) = lastN 60 (frameTimes m ++ [d]).
Proof.
  intros Hlen. unfold measureFrame, lastN. cbn [frameTimes setFrameTimes].
  rewrite length_app. cbn [length].
  destruct (60 <? _)%nat eqn:Hc.
  - apply Nat.ltb_lt in Hc.
    by replace (length (frameTimes m) + 1 - 60)%nat with 1%nat by lia.
  - apply Nat.ltb_ge in Hc.
    by replace (length (frameTimes m) + 1 - 60)%nat with 0%nat by lia.
Qed.

Lemma measureFrame_fields (m : Manager) (d : Num.num) :
  targetFPS (measureFrame m d) = targetFPS m /\
  currentCols (measureFrame m d) = currentCols m /\
  minCols (measureFrame m d) = minCols m /\
  maxCols (measureFrame m d) = maxCols m.
Proof. done. Qed.

Lemma measureFrames_window (ds : list Num.num) (m : Manager) :
  (length (frameTimes m) <= 60)%nat ->
  frameTimes (fold_left measureFrame ds m) = lastN 60 (frameTimes m ++ ds) /\
  currentCols (fold_left measureFrame ds m) = currentCols m /\
  targetFPS (fold_left measureFrame ds m) = targetFPS m.
Proof.
  induction ds as [|d ds IH] using rev_ind; intros Hlen.
  - cbn. by rewrite app_nil_r, lastN_short.
  - rewrite fold_left_app. cbn [fold_left].
    destruct (IH Hlen) as (Ht & Hc & Hf).
    split; [|by split].
    rewrite measureFrame_window by (rewrite Ht; apply lastN_length).
    by rewrite Ht, lastN_snoc, app_assoc.
Qed.

Lemma managerOk_construct (d : Device) : managerOk (isLowEnd d) (construct d).
Proof.
  unfold managerOk, construct. cbn.
  destruct (isLowEnd d); repeat split; lia.
Qed.

Lemma managerOk_call (low : bool) (m : Manager) (c : ManagerCall) :
  managerOk low m -> managerOk low (managerCall m c).
Proof.
  intros (Hmin & Hmax & Hc & Hf & Hl).
  destruct c as [d|now start| |cols|fps| |now]; cbn [managerCall].
  - unfold managerOk. destruct (measureFrame_fields m d) as (-> & -> & -> & ->).
    rewrite measureFrame_window by done.
    repeat split; try done; try lia. apply lastN_length.
  - unfold managerOk, frameEnd.
    pose proof (measureFrame_fields m (Num.sub now start)) as (Ef & Ec & Emin & Emax).
    pose proof (measureFrame_window m (Num.sub now start) Hl) as Ew.
    pose proof (lastN_length 60 (frameTimes m ++ [Num.sub now start])) as Hn.
    destruct (Num.geb _ _); cbn [frameTimes targetFPS currentCols minCols maxCols];
      rewrite ?Ef, ?Ec, ?Emin, ?Emax, Ew; repeat split; try done; lia.
  - unfold managerOk, getRecommendedCols.
    destruct (_ <? _)%nat; cbn [fst]; [repeat split; try done; lia|].
    destruct (Num.ltb _ _); [|destruct (Num.gtb _ _)];
      cbn [setCurrentCols frameTimes targetFPS currentCols minCols maxCols];
      repeat split; try done; lia.
  - unfold managerOk, setCols.
    cbn [setCurrentCols frameTimes targetFPS currentCols minCols maxCols].
    repeat split; try done; lia.
  - unfold managerOk, setTargetFPS.
    cbn [frameTimes targetFPS currentCols minCols maxCols].
    repeat split; try done; lia.
  - done.
  - unfold managerOk, reset.
    cbn [frameTimes targetFPS currentCols minCols maxCols length].
    repeat split; try done; lia.
Qed.

Lemma managerOk_calls (low : bool) (cs : list ManagerCall) (m : Manager) :
  managerOk low m -> managerOk low (managerCalls cs m).
Proof.
  revert m. induction cs as [|c cs IH]; intros m Hm; [done|].
  cbn. apply IH. by apply managerOk_call.
Qed.

End ManagerFacts.

(** ** The colour quantizer: cache keys *)

Section KeyFacts.
Import JS ColorQuantizer.

Lemma codes_inj (s1 s2 : string) : codes s1 = codes s2 -> s1 = s2.
Proof.
  unfold codes. intros H.
  rewrite <- (string_of_list_ascii_of_string s1),
    <- (string_of_list_ascii_of_string s2). f_equal.
  revert H. generalize (list_ascii_of_string s1) (list_ascii_of_string s2).
  induction l as [|a l IH]; intros [|a' l'] H; try done.
  cbn in H. injection H as Ha Hl. f_equal; [|by apply IH].
  apply N2Z.inj in Ha.
  rewrite <- (ascii_N_embedding a), <- (ascii_N_embedding a').
  by rewrite Ha.
Qed.

Lemma codes_String a s : codes (String a s) = Z.of_N (N_of_ascii a) :: codes s.
Proof. done. Qed.

Lemma pretty_N_go_numeral (x : N) (s : string) :
  Forall numeral (codes s) -> Forall numeral (codes (pretty_N_go x s)).
Proof.
  revert s. induction (N.lt_wf_0 x) as [x _ IH]; intros s Hs.
  assert (x = 0 \/ 0 < x)%N as [->|Hx] by lia.
  - by rewrite pretty_N_go_0.
  - rewrite pretty_N_go_step by done. apply IH.
    { by apply N.div_lt. }
    rewrite codes_String. constructor; [|done].
    unfold pretty_N_char, numeral. repeat case_match; cbn; lia.
Qed.

Lemma pretty_Z_numeral (z : Z) : Forall numeral (codes (pretty z)).
Proof.
  assert (HN : forall x : N, Forall numeral (codes (pretty x))).
  { intros x. unfold pretty, pretty_N. case_decide.
    - change (codes "0") with [48]. constructor; [right; lia|constructor].
    - apply pretty_N_go_numeral. constructor. }
  destruct z as [|p|p]; unfold pretty, pretty_Z.
  - change (codes "0") with [48]. constructor; [right; lia|constructor].
  - apply HN.
  - change ("-" +:+ pretty p)%string with (String "-" (pretty p)).
    rewrite codes_String. constructor; [left; done|apply HN].
Qed.

Lemma showChannel_no_comma (v : option Z) : 44 ∉ showChannel v.
Proof.
  destruct v as [z|]; cbn [showChannel].
  - intros Hin. pose proof (pretty_Z_numeral z) as HF.
    rewrite Forall_forall in HF. specialize (HF _ Hin).
    unfold numeral in HF. lia.
  - vm_compute. intros Hin. repeat (apply elem_of_cons in Hin as [Hin|Hin]; [done|]).
    by apply elem_of_nil in Hin.
Qed.

Lemma showChannel_inj (v w : option Z) : showChannel v = showChannel w -> v = w.
Proof.
  assert (Hu : forall z : Z, codes (pretty z) <> codes "undefined").
  { intros z Heq. pose proof (pretty_Z_numeral z) as HF.
    rewrite Heq in HF. apply Forall_cons in HF as [HF _].
    unfold numeral in HF. cbn in HF. lia. }
  destruct v as [z|], w as [z'|]; cbn [showChannel]; intros H.
  - f_equal. by apply (inj (pretty : Z -> string)), codes_inj.
  - by destruct (Hu z).
  - by destruct (Hu z').
  - done.
Qed.

Lemma split_at_comma (l1 l2 r1 r2 : list Z) :
  44 ∉ l1 -> 44 ∉ l2 -> l1 ++ 44 :: r1 = l2 ++ 44 :: r2 ->
  l1 = l2 /\ r1 = r2.
Proof.
  revert l2. induction l1 as [|x l1 IH]; intros [|y l2] H1 H2 Heq;
    cbn in Heq.
  - by injection Heq.
  - injection Heq as Hy _. destruct H2. rewrite <- Hy. by left.
  - injection Heq as Hx _. destruct H1. rewrite Hx. by left.
  - injection Heq as -> Heq.
    destruct (IH l2) as [-> ->]; try done.
    + intros Hin. apply H1. by right.
    + intros Hin. apply H2. by right.
Qed.

Lemma key_inj (c1 c2 : RGB) : key c1 = key c2 -> c1 = c2.
Proof.
  unfold key. cbn [app]. intros H.
  apply split_at_comma in H as [Hr H]; try apply showChannel_no_comma.
  apply split_at_comma in H as [Hg Hb]; try apply showChannel_no_comma.
  apply showChannel_inj in Hr, Hg, Hb.
  destruct c1, c2; cbn in *; by subst.
Qed.

End KeyFacts.

(** ** The colour quantizer: the cache *)

Section CacheFacts.
Import JS ColorQuantizer.

Lemma nearestLoop_member (color : RGB) (ps : list RGB) (minDist : Num.num)
    (closest : option RGB) :
  nearestLoop color ps minDist closest = closest \/
  exists p, p ∈ ps /\ nearestLoop color ps minDist closest = Some p.
Proof.
  revert minDist closest. induction ps as [|p ps IH]; intros minDist closest.
  - by left.
  - cbn [nearestLoop]. destruct (Num.ltb _ _).
    + right. destruct (IH (colorDistance color p) (Some p)) as [->|(x&Hx&->)].
      * exists p. split; [by left|done].
      * exists x. split; [by right|done].
    + destruct (IH minDist closest) as [->|(x&Hx&->)]; [by left|].
      right. exists x. split; [by right|done].
Qed.

Lemma nearest_member (palette : list RGB) (color : RGB) :
  palette <> [] ->
  exists p, p ∈ palette /\ nearest palette color = Some p.
Proof.
  intros Hne. unfold nearest.
  destruct (nearestLoop_member color palette (S754_infinity false)
              (head palette)) as [->|H]; [|done].
  destruct palette as [|p ps]; [done|]. exists p. split; [by left|done].
Qed.

Lemma nearest_empty (color : RGB) : nearest [] color = None.
Proof. done. Qed.

Lemma snapToPalette_spec (q : Quantizer) (color : RGB) :
  cacheOk q ->
  (snapToPalette q color).2 = nearest (palette q) color /\
  palette (snapToPalette q color).1 = palette q /\
  cacheOk (snapToPalette q color).1.
Proof.
  intros Hok. unfold snapToPalette.
  destruct (cache q !! key color) as [[cached|]|] eqn:Hc; cbn [fst snd].
  - split; [by apply Hok in Hc|done].
  - split; [done|]. split; [done|].
    intros c v. cbn [cache palette].
    destruct (decide (key c = key color)) as [Heq|Hne].
    + rewrite Heq, lookup_insert_eq. apply key_inj in Heq as ->. congruence.
    + rewrite lookup_insert_ne by done.
      destruct (_ <? _); [by rewrite lookup_empty|apply Hok].
  - split; [done|]. split; [done|].
    intros c v. cbn [cache palette].
    destruct (decide (key c = key color)) as [Heq|Hne].
    + rewrite Heq, lookup_insert_eq. apply key_inj in Heq as ->. congruence.
    + rewrite lookup_insert_ne by done.
      destruct (_ <? _); [by rewrite lookup_empty|apply Hok].
Qed.

Lemma quantizeColors_spec (colors : list RGB) (q : Quantizer) :
  cacheOk q ->
  (quantizeColors q colors).2 = map (nearest (palette q)) colors /\
  palette (quantizeColors q colors).1 = palette q /\
  cacheOk (quantizeColors q colors).1.
Proof.
  revert q. induction colors as [|c colors IH]; intros q Hok; [done|].
  cbn [quantizeColors map].
  destruct (snapToPalette_spec q c Hok) as (Hv & Hp & Hok').
  destruct (snapToPalette q c) as [q1 x]. cbn [fst snd] in *.
  destruct (IH q1 Hok') as (Hvs & Hps & Hoks).
  destruct (quantizeColors q1 colors) as [q2 xs]. cbn [fst snd] in *.
  subst. rewrite Hp in *. done.
Qed.

Lemma cacheOk_empty (palette : list RGB) :
  cacheOk {| ColorQuantizer.palette := palette; cache := ∅ |}.
Proof. intros c v. cbn. by rewrite lookup_empty. Qed.

Lemma cacheOk_call (q : Quantizer) (c : QuantizerCall) :
  cacheOk q -> cacheOk (quantizerCall q c).
Proof.
  intros Hok. destruct c; cbn [quantizerCall]; try apply cacheOk_empty.
  - by apply snapToPalette_spec.
  - by apply quantizeColors_spec.
Qed.

Lemma cacheOk_calls (cs : list QuantizerCall) (q : Quantizer) :
  cacheOk q -> cacheOk (quantizerCalls cs q).
Proof.
  revert q. induction cs as [|c cs IH]; intros q Hok; [done|].
  cbn. apply IH. by apply cacheOk_call.
Qed.

End CacheFacts.

(** ** The order of binary64 numbers *)

Section OrderFacts.

Lemma compare_scaled (E : Z) (x y : Num.num) :
  isFinite x = true -> isFinite y = true -> E <= expo x -> E <= expo y ->
  Num.compare x y = Some (scaled E x ?= scaled E y).
Proof.
  intros Hx Hy Ex Ey.
  assert (Hgen : forall a b ex ey, E <= ex -> E <= ey ->
            (a * 2 ^ (ex - Z.min ex ey) ?= b * 2 ^ (ey - Z.min ex ey))
            = (a * 2 ^ (ex - E) ?= b * 2 ^ (ey - E))).
  { intros a b ex ey Hex Hey. set (e := Z.min ex ey).
    assert (He : E <= e) by (unfold e; lia).
    replace (ex - E) with ((ex - e) + (e - E)) by lia.
    replace (ey - E) with ((ey - e) + (e - E)) by lia.
    rewrite !Z.pow_add_r by (unfold e; lia).
    rewrite !Z.mul_assoc.
    assert (0 < 2 ^ (e - E)) by (apply Z.pow_pos_nonneg; lia).
    generalize dependent (2 ^ (e - E)). intros k Hk.
    generalize (a * 2 ^ (ex - e)) (b * 2 ^ (ey - e)). intros u v.
    destruct (Z.compare_spec u v); symmetry;
      [apply Z.compare_eq_iff|apply Z.compare_lt_iff|apply Z.compare_gt_iff];
      nia. }
  unfold scaled.
  destruct x as [sx|sx| |sx mx ex], y as [sy|sy| |sy my ey]; try done;
    cbn [Num.compare mant expo] in *; f_equal.
  - by rewrite (Hgen 0 (cond_Zopp sy (Zpos my)) 0 ey).
  - by rewrite (Hgen (cond_Zopp sx (Zpos mx)) 0 ex 0).
  - by rewrite (Hgen (cond_Zopp sx (Zpos mx)) (cond_Zopp sy (Zpos my)) ex ey).
Qed.

Lemma ltb_scaled (E : Z) (x y : Num.num) :
  isFinite x = true -> isFinite y = true -> E <= expo x -> E <= expo y ->
  Num.ltb x y = (scaled E x <? scaled E y).
Proof.
  intros Hx Hy Ex Ey. unfold Num.ltb.
  rewrite (compare_scaled E) by done. unfold Z.ltb.
  by destruct (_ ?= _).
Qed.

Lemma ltb_irrefl (x : Num.num) : Num.ltb x x = false.
Proof.
  destruct x as [s|[]| |s m e] eqn:Ex; try done.
  rewrite (ltb_scaled e) by (cbn; done || lia). apply Z.ltb_irrefl.
Qed.

Lemma ltb_trans (x y z : Num.num) :
  Num.ltb x y = true -> Num.ltb y z = true -> Num.ltb x z = true.
Proof.
  intros Hxy Hyz.
  destruct (isFinite x) eqn:Fx, (isFinite y) eqn:Fy, (isFinite z) eqn:Fz.
  - set (E := Z.min (expo x) (Z.min (expo y) (expo z))).
    rewrite (ltb_scaled E) in Hxy, Hyz |- * by (done || unfold E; lia).
    apply Z.ltb_lt in Hxy, Hyz. apply Z.ltb_lt. lia.
  - destruct z as [sz|[]| |sz mz ez]; try done;
      destruct y as [sy|sy| |sy my ey]; try done;
      destruct x as [sx|sx| |sx mx ex]; done.
  - destruct y as [sy|[]| |sy my ey]; try done;
      destruct x as [sx|sx| |sx mx ex]; try done;
      destruct z as [sz|sz| |sz mz ez]; done.
  - destruct y as [sy|[]| |sy my ey]; try done;
      destruct z as [sz|[]| |sz mz ez]; try done;
      destruct x as [sx|sx| |sx mx ex]; done.
  - destruct x as [sx|[]| |sx mx ex]; try done;
      destruct y as [sy|sy| |sy my ey]; try done;
      destruct z as [sz|sz| |sz mz ez]; done.
  - destruct x as [sx|[]| |sx mx ex]; try done;
      destruct z as [sz|[]| |sz mz ez]; try done;
      destruct y as [sy|sy| |sy my ey]; done.
  - destruct x as [sx|[]| |sx mx ex]; try done;
      destruct y as [sy|[]| |sy my ey]; try done;
      destruct z as [sz|sz| |sz mz ez]; done.
  - destruct x as [sx|[]| |sx mx ex]; try done;
      destruct y as [sy|[]| |sy my ey]; try done;
      destruct z as [sz|[]| |sz mz ez]; done.
Qed.

Lemma ltb_asym (x y : Num.num) :
  Num.ltb x y = true -> Num.ltb y x = false.
Proof.
  intros H. destruct (Num.ltb y x) eqn:H'; [|done].
  pose proof (ltb_trans _ _ _ H H') as Hxx. by rewrite ltb_irrefl in Hxx.
Qed.

Lemma not_below_infinity (x y : Num.num) :
  Num.ltb x (S754_infinity false) = false -> Num.ltb x y = false.
Proof.
  destruct x as [sx|[]| |sx mx ex]; try done.
  all: by destruct y as [sy|[]| |sy my ey].
Qed.

End OrderFacts.

(** ** The nearest palette colour *)

Section NearestFacts.
Import JS ColorQuantizer.

Lemma nearestLoop_min (color : RGB) (ps : list RGB) (minDist : Num.num)
    (closest : option RGB) :
  exists least,
    (forall p, p ∈ ps -> Num.ltb (colorDistance color p) least = false) /\
    ((least = minDist /\ nearestLoop color ps minDist closest = closest) \/
     (Num.ltb least minDist = true /\
      exists x, x ∈ ps /\ nearestLoop color ps minDist closest = Some x /\
                least = colorDistance color x)).
Proof.
  revert minDist closest. induction ps as [|p ps IH]; intros minDist closest.
  - exists minDist. split; [|by left].
    intros p Hp. by apply elem_of_nil in Hp.
  - cbn [nearestLoop]. destruct (Num.ltb (colorDistance color p) minDist) eqn:Hlt.
    + destruct (IH (colorDistance color p) (Some p))
        as (least & Hall & [[-> HR]|(Hless & x & Hx & HR & ->)]).
      * exists (colorDistance color p). split.
        { intros q Hq. apply elem_of_cons in Hq as [->|Hq];
            [apply ltb_irrefl|by apply Hall]. }
        right. split; [done|]. exists p. split; [by left|done].
      * exists (colorDistance color x). split.
        { intros q Hq. apply elem_of_cons in Hq as [->|Hq];
            [by apply ltb_asym|by apply Hall]. }
        right. split; [by eapply ltb_trans|].
        exists x. split; [by right|done].
    + destruct (IH minDist closest)
        as (least & Hall & [[-> HR]|(Hless & x & Hx & HR & ->)]).
      * exists minDist. split; [|by left].
        intros q Hq. apply elem_of_cons in Hq as [->|Hq]; [done|by apply Hall].
      * exists (colorDistance color x). split.
        { intros q Hq. apply elem_of_cons in Hq as [->|Hq]; [|by apply Hall].
          destruct (Num.ltb (colorDistance color p) (colorDistance color x))
            eqn:Hpx; [|done].
          by rewrite (ltb_trans _ _ _ Hpx Hless) in Hlt. }
        right. split; [done|]. exists x. split; [by right|done].
Qed.

Lemma nearest_min (palette : list RGB) (color x : RGB) :
  nearest palette color = Some x ->
  x ∈ palette /\
  forall p, p ∈ palette ->
    Num.ltb (colorDistance color p) (colorDistance color x) = false.
Proof.
  unfold nearest. intros HR.
  destruct (nearestLoop_min color palette (S754_infinity false) (head palette))
    as (least & Hall & [[-> Hhead]|(_ & y & Hy & HRy & ->)]).
  - rewrite Hhead in HR. destruct palette as [|p ps]; [done|].
    injection HR as ->. split; [by left|].
    intros p Hp. by apply not_below_infinity, Hall.
  - rewrite HRy in HR. injection HR as ->. by split.
Qed.

End NearestFacts.

(** ** Palette quantization of a frame *)

Section QuantizeFacts.
Import JS ColorQuantizer.

Lemma at_app_middle (done rest : list Z) (k : nat) (x : Z) (pre : list Z) :
  length pre = k ->
  at_ (done ++ pre ++ x :: rest) (Z.of_nat (length done) + Z.of_nat k)
  = Some x.
Proof.
  intros <-. unfold at_.
  destruct (_ <? 0) eqn:Hneg; [apply Z.ltb_lt in Hneg; lia|].
  replace (Z.to_nat (Z.of_nat (length done) + Z.of_nat (length pre)))
    with (length (done ++ pre))%nat by (rewrite length_app; lia).
  by rewrite app_assoc, list_lookup_middle.
Qed.

Lemma typedSet_app_middle (done rest pre : list Z) (k : nat) (x v : Z) :
  length pre = k -> isByte v ->
  typedSet (done ++ pre ++ x :: rest)
    (Z.of_nat (length done) + Z.of_nat k) v
  = done ++ pre ++ v :: rest.
Proof.
  intros <- Hv. unfold typedSet.
  rewrite !length_app. cbn [length].
  destruct (_ && _) eqn:Hc; [|apply andb_false_iff in Hc as [Hc|Hc];
    [apply Z.leb_gt in Hc|apply Z.ltb_ge in Hc]; lia].
  replace (Z.to_nat (Z.of_nat (length done) + Z.of_nat (length pre)))
    with (length (done ++ pre) + 0)%nat by (rewrite length_app; lia).
  rewrite !app_assoc, insert_app_r. cbn.
  unfold u8. rewrite Z.mod_small by (unfold isByte in Hv; lia). done.
Qed.

Lemma quantizeLoop_cells (n : nat) :
  forall (todo done : list Z) (fuel : nat) (q : Quantizer),
  cacheOk q -> palette q <> [] -> Forall byteColor (palette q) ->
  length todo = (3 * n)%nat -> (n <= fuel)%nat ->
  exists q',
    Main.quantizeLoop fuel q (done ++ todo) (Z.of_nat (length done))
    = Some (q', done ++ (cellColors todo ≫= snapCell (palette q))) /\
    palette q' = palette q /\ cacheOk q'.
Proof.
  induction n as [|n IH]; intros todo done fuel q Hok Hne Hbytes Hlen Hfuel.
  - destruct todo; [|done]. rewrite app_nil_r. exists q. cbn [cellColors mbind list_bind].
    rewrite app_nil_r. split; [|done].
    destruct fuel; cbn [Main.quantizeLoop]; [done|].
    by rewrite Z.ltb_irrefl.
  - destruct todo as [|r [|g [|b rest]]]; try (cbn in Hlen; lia).
    destruct fuel as [|fuel]; [lia|].
    cbn [Main.quantizeLoop].
    destruct (_ <? _) eqn:Hi;
      [|apply Z.ltb_ge in Hi; rewrite length_app in Hi; cbn in Hi; lia].
    pose proof (at_app_middle done (g :: b :: rest) 0 r [] eq_refl) as Hr.
    pose proof (at_app_middle done (b :: rest) 1 g [r] eq_refl) as Hg.
    pose proof (at_app_middle done rest 2 b [r; g] eq_refl) as Hb.
    cbn [app] in Hr, Hg, Hb.
    change (Z.of_nat 0) with 0 in Hr. rewrite Z.add_0_r in Hr.
    change (Z.of_nat 1) with 1 in Hg. change (Z.of_nat 2) with 2 in Hb.
    rewrite Hr, Hg, Hb.
    change {| r := Some r; g := Some g; b := Some b |} with (rgb r g b).
    destruct (snapToPalette_spec q (rgb r g b) Hok) as (Hv & Hp & Hok').
    destruct (snapToPalette q (rgb r g b)) as [q1 quantized].
    cbn [fst snd] in Hv, Hp, Hok'.
    destruct (nearest_member (palette q) (rgb r g b) Hne) as (p & Hp_in & Hnear).
    rewrite Hnear in Hv. subst quantized.
    destruct (proj1 (Forall_forall _ _) Hbytes p Hp_in)
      as (pr & pg & pb & -> & Hpr & Hpg & Hpb).
    cbn [ColorQuantizer.r ColorQuantizer.g ColorQuantizer.b rgb from_option id].
    pose proof (typedSet_app_middle done (g :: b :: rest) [] 0 r pr eq_refl Hpr)
      as S1. cbn [app] in S1. change (Z.of_nat 0) with 0 in S1.
    rewrite Z.add_0_r in S1. rewrite S1.
    pose proof (typedSet_app_middle done (b :: rest) [pr] 1 g pg eq_refl Hpg)
      as S2. cbn [app] in S2. change (Z.of_nat 1) with 1 in S2. rewrite S2.
    pose proof (typedSet_app_middle done rest [pr; pg] 2 b pb eq_refl Hpb)
      as S3. cbn [app] in S3. change (Z.of_nat 2) with 2 in S3. rewrite S3.
    destruct (IH rest (done ++ [pr; pg; pb]) fuel q1) as (q' & Hrun & Hpal & Hok'');
      try done; try (rewrite Hp; done); try (cbn in Hlen; lia).
    exists q'. rewrite length_app in Hrun. cbn [length] in Hrun.
    replace (Z.of_nat (length done + 3)) with (Z.of_nat (length done) + 3)
      in Hrun by lia.
    rewrite <- app_assoc in Hrun. cbn [app] in Hrun. rewrite Hrun, Hp.
    split; [|split; [congruence|done]].
    cbn [cellColors mbind list_bind]. unfold snapCell at 2.
    rewrite Hnear. unfold channels. cbn [ColorQuantizer.r ColorQuantizer.g ColorQuantizer.b rgb from_option id].
    by rewrite <- app_assoc.
Qed.

Lemma cellColors_snap (palette : list RGB) (colors : list Z) (n : nat) :
  palette <> [] -> Forall byteColor palette -> length colors = (3 * n)%nat ->
  length (cellColors colors ≫= snapCell palette) = length colors /\
  Forall2 (fun c x => nearest palette c = Some x /\ x ∈ palette)
    (cellColors colors) (cellColors (cellColors colors ≫= snapCell palette)).
Proof.
  intros Hne Hbytes. revert colors.
  induction n as [|n IH]; intros colors Hlen.
  - destruct colors; [|done]. split; [done|constructor].
  - destruct colors as [|r [|g [|b rest]]]; try (cbn in Hlen; lia).
    destruct (IH rest) as [Hl HF]; [cbn in Hlen; lia|].
    cbn [cellColors mbind list_bind]. unfold snapCell at 1 3.
    destruct (nearest_member palette (rgb r g b) Hne) as (p & Hp_in & Hnear).
    rewrite Hnear. rewrite Forall_forall in Hbytes.
    destruct (Hbytes p Hp_in) as (pr & pg & pb & -> & _).
    unfold channels. cbn [ColorQuantizer.r ColorQuantizer.g ColorQuantizer.b rgb from_option id app cellColors length].
    split; [cbn [mbind list_bind] in Hl; rewrite Hl; done|].
    constructor; [done|exact HF].
Qed.

End QuantizeFacts.

Section QuantizeFuel.
Import JS ColorQuantizer.

Lemma typedSet_length (buf : list Z) (i v : Z) :
  length (typedSet buf i v) = length buf.
Proof.
  unfold typedSet. destruct (_ && _); [apply length_insert|done].
Qed.

Lemma quantizeLoop_fuel (fuel : nat) :
  forall (q : Quantizer) (colors : list Z) (i : Z) (k : nat),
  Z.of_nat (length colors) - i <= Z.of_nat fuel ->
  Main.quantizeLoop (fuel + k) q colors i = Main.quantizeLoop fuel q colors i.
Proof.
  induction fuel as [|fuel IH]; intros q colors i k Hi.
  - destruct k; cbn [Nat.add Main.quantizeLoop]; [done|].
    destruct (_ <? _) eqn:Hc; [apply Z.ltb_lt in Hc; lia|done].
  - cbn [Nat.add Main.quantizeLoop].
    destruct (_ <? _); [|done].
    destruct (snapToPalette q _) as [q1 [quantized|]]; [|done].
    apply IH. rewrite !typedSet_length. lia.
Qed.

Lemma quantizeLoop_empty_palette (fuel : nat) (q : Quantizer)
    (colors : list Z) :
  cacheOk q -> palette q = [] -> colors <> [] ->
  Main.quantizeLoop (S fuel) q colors 0 = None.
Proof.
  intros Hok Hpal Hne. cbn [Main.quantizeLoop].
  destruct colors as [|c colors]; [done|].
  change (0 <? Z.of_nat (length (c :: colors))) with true. cbv iota.
  match goal with |- context [snapToPalette q ?col] =>
    destruct (snapToPalette_spec q col Hok) as (Hv & _);
    destruct (snapToPalette q col) as [q1 quantized] end.
  cbn [snd] in Hv. rewrite Hpal in Hv. by rewrite Hv.
Qed.

End QuantizeFuel.

(** ** The performance manager and the colour quantizer *)

(** X22.  The performance manager keeps its column count in range.
    After the constructor and any sequence of calls ([measureFrame],
    [frameEnd], [getRecommendedCols], [setCols] and [setTargetFPS] with any
    integers, [getMetrics], [reset]), whatever the times measured: the
    column count lies between 40 and the maximum (100 on a low-end device,
    160 otherwise), the target FPS between 15 and 60, at most 60 frame
    times are held, and [getRecommendedCols] returns a column count in
    that range, the one it leaves in the manager. *)
Theorem X22_manager_keeps_cols_in_range
    (d : PerformanceManager.Device) (cs : list ManagerCall) :
  let m := managerCalls cs (PerformanceManager.construct d) in
  let top := if PerformanceManager.isLowEnd d then 100 else 160 in
  40 <= PerformanceManager.currentCols m <= top /\
  15 <= PerformanceManager.targetFPS m <= 60 /\
  (length (PerformanceManager.frameTimes m) <= 60)%nat /\
  40 <= (PerformanceManager.getRecommendedCols m).2 <= top /\
  (PerformanceManager.getRecommendedCols m).2
  = PerformanceManager.currentCols (PerformanceManager.getRecommendedCols m).1.
Proof.
  intros m top.
  pose proof (managerOk_calls _ cs _ (managerOk_construct d)) as Hm.
  fold m in Hm.
  pose proof (managerOk_call _ m GetRecommendedCols Hm) as Hr.
  cbn [managerCall] in Hr.
  assert (Hret : (PerformanceManager.getRecommendedCols m).2
                 = PerformanceManager.currentCols
                     (PerformanceManager.getRecommendedCols m).1).
  { unfold PerformanceManager.getRecommendedCols.
    by destruct (_ <? _)%nat. }
  destruct Hm as (Hmin & Hmax & Hc & Hf & Hl).
  destruct Hr as (Hmin' & Hmax' & Hc' & _).
  subst top. rewrite Hret. repeat split; try done; lia.
Qed.

(** X23.  The frame times are a sliding window of 60.  On a manager that
    holds at most 60 frame times (every manager does), after measuring the
    durations [ds] one after the other the manager holds the last 60 of
    the old times followed by [ds], in order, all of them when there are
    fewer; the column count and the target FPS are untouched. *)
Theorem X23_frame_times_are_the_last_60
    (m : PerformanceManager.Manager) (ds : list Num.num) :
  (length (PerformanceManager.frameTimes m) <= 60)%nat ->
  let m' := fold_left PerformanceManager.measureFrame ds m in
  PerformanceManager.frameTimes m'
  = lastN 60 (PerformanceManager.frameTimes m ++ ds) /\
  PerformanceManager.currentCols m' = PerformanceManager.currentCols m /\
  PerformanceManager.targetFPS m' = PerformanceManager.targetFPS m.
Proof. intros Hlen m'. by apply measureFrames_window. Qed.

Lemma X23_window_witness :
  PerformanceManager.frameTimes
    (fold_left PerformanceManager.measureFrame
       (map Num.ofZ (seqZ 1 70)) (PerformanceManager.construct desktop))
  = map Num.ofZ (seqZ 11 60).
Proof.
  refine (eq_trans
    (proj1 (X23_frame_times_are_the_last_60
       (PerformanceManager.construct desktop)
       (map Num.ofZ (seqZ 1 70)) _)) _).
  - cbn. lia.
  - vm_compute. reflexivity.
Defined.

(** X24.  The cache of the colour quantizer never changes an answer.
    After the constructor and any sequence of calls ([setPalette] with
    any palette, [useANSIPalette], [useDefaultPalette], [snapToPalette],
    [quantizeColors]), [snapToPalette] returns for every colour what the
    search over the current palette gives, whether the colour is cached or
    not, and leaves the palette alone; [quantizeColors] does so for every
    colour of its list.  The value is a colour of the palette, or
    [undefined] when the palette is empty. *)
Theorem X24_snap_ignores_the_cache
    (cs : list QuantizerCall) (color : ColorQuantizer.RGB)
    (colors : list ColorQuantizer.RGB) :
  let q := quantizerCalls cs ColorQuantizer.construct in
  (ColorQuantizer.snapToPalette q color).2
  = ColorQuantizer.nearest (ColorQuantizer.palette q) color /\
  ColorQuantizer.palette (ColorQuantizer.snapToPalette q color).1
  = ColorQuantizer.palette q /\
  (ColorQuantizer.quantizeColors q colors).2
  = map (ColorQuantizer.nearest (ColorQuantizer.palette q)) colors /\
  match ColorQuantizer.palette q with
  | [] => (ColorQuantizer.snapToPalette q color).2 = None
  | _ => exists p, p ∈ ColorQuantizer.palette q /\
                   (ColorQuantizer.snapToPalette q color).2 = Some p
  end.
Proof.
  intros q.
  assert (Hok : cacheOk q)
    by (apply cacheOk_calls, (cacheOk_empty ColorQuantizer.DEFAULT_PALETTE)).
  destruct (snapToPalette_spec q color Hok) as (Hv & Hp & _).
  destruct (quantizeColors_spec colors q Hok) as (Hvs & _).
  split; [done|]. split; [done|]. split; [done|].
  rewrite Hv. destruct (ColorQuantizer.palette q) as [|p ps] eqn:Hpal;
    [done|].
  by apply nearest_member.
Qed.

(** X25.  The colour the search returns is a nearest one: it is a colour
    of the palette, and no colour of the palette has a distance to the
    input, as [colorDistance] computes it, that is strictly smaller. *)
Theorem X25_snapped_colour_is_a_nearest_one
    (palette : list ColorQuantizer.RGB) (color x : ColorQuantizer.RGB) :
  ColorQuantizer.nearest palette color = Some x ->
  x ∈ palette /\
  forall p, p ∈ palette ->
    Num.ltb (ColorQuantizer.colorDistance color p)
      (ColorQuantizer.colorDistance color x) = false.
Proof. apply nearest_min. Qed.

Lemma X25_default_palette_witness :
  ColorQuantizer.rgb 170 85 85 ∈ ColorQuantizer.DEFAULT_PALETTE /\
  forall p, p ∈ ColorQuantizer.DEFAULT_PALETTE ->
    Num.ltb
      (ColorQuantizer.colorDistance (ColorQuantizer.rgb 200 100 50) p)
      (ColorQuantizer.colorDistance (ColorQuantizer.rgb 200 100 50)
         (ColorQuantizer.rgb 170 85 85)) = false.
Proof.
  apply (X25_snapped_colour_is_a_nearest_one ColorQuantizer.DEFAULT_PALETTE
           (ColorQuantizer.rgb 200 100 50)).
  vm_compute. reflexivity.
Defined.

(** X26.  Palette mode leaves only palette colours in a frame.  For a
    quantizer in any state reached from the constructor, with a non-empty
    palette of byte colours, and a colour buffer of [3 * n] entries:
    [applyPaletteQuantization] completes, keeps the length of the buffer
    and the palette, and replaces the colour of every cell by the palette
    colour the search gives for it.  The loop has ended by itself: more
    iterations allowed give the same result. *)
Theorem X26_quantized_frame_uses_palette_colours
    (cs : list QuantizerCall) (colors : list Z) (n : nat) :
  let q := quantizerCalls cs ColorQuantizer.construct in
  ColorQuantizer.palette q <> [] ->
  Forall byteColor (ColorQuantizer.palette q) ->
  length colors = (3 * n)%nat ->
  exists q' out,
    Main.applyPaletteQuantization q colors = Some (q', out) /\
    ColorQuantizer.palette q' = ColorQuantizer.palette q /\
    length out = length colors /\
    Forall2 (fun c x =>
               ColorQuantizer.nearest (ColorQuantizer.palette q) c = Some x /\
               x ∈ ColorQuantizer.palette q)
      (cellColors colors) (cellColors out) /\
    forall k,
      Main.quantizeLoop (length colors + k) q colors 0 = Some (q', out).
Proof.
  intros q Hne Hbytes Hlen.
  assert (Hok : cacheOk q)
    by (apply cacheOk_calls, (cacheOk_empty ColorQuantizer.DEFAULT_PALETTE)).
  destruct (quantizeLoop_cells n colors [] (length colors) q)
    as (q' & Hrun & Hpal & _); try done; [lia|].
  cbn [app length] in Hrun. change (Z.of_nat 0) with 0 in Hrun.
  exists q', (cellColors colors ≫= snapCell (ColorQuantizer.palette q)).
  destruct (cellColors_snap (ColorQuantizer.palette q) colors n)
    as [Hl HF]; try done.
  repeat split; try done.
  intros k. rewrite quantizeLoop_fuel by lia. exact Hrun.
Qed.

Lemma X26_ansi_frame_witness :
  exists q' out,
    Main.applyPaletteQuantization
      (quantizerCalls [UseANSIPalette] ColorQuantizer.construct)
      [250; 10; 10; 3; 4; 200] = Some (q', out) /\
    out = [255; 0; 0; 0; 0; 255].
Proof.
  destruct (X26_quantized_frame_uses_palette_colours [UseANSIPalette]
              [250; 10; 10; 3; 4; 200] 2) as (q' & out & Hrun & _).
  - done.
  - repeat (constructor;
      [eexists _, _, _; split; [reflexivity|unfold isByte; lia]|]).
    constructor.
  - reflexivity.
  - exists q', out. split; [exact Hrun|].
    vm_compute in Hrun. by injection Hrun as _ <-.
Defined.

(** X27.  An empty palette.  After [setPalette([])] the search has
    nothing to return: for a quantizer in any state reached from the
    constructor whose palette is empty, [snapToPalette] returns
    [undefined] for every colour, and [applyPaletteQuantization] on a
    frame that has colours throws the TypeError of reading a channel of
    [undefined]; the cache does not hide it. *)
Theorem X27_empty_palette_has_no_answer
    (cs : list QuantizerCall) (color : ColorQuantizer.RGB) (colors : list Z) :
  let q := quantizerCalls cs ColorQuantizer.construct in
  ColorQuantizer.palette q = [] ->
  (ColorQuantizer.snapToPalette q color).2 = None /\
  (colors <> [] -> Main.applyPaletteQuantization q colors = None).
Proof.
  intros q Hpal.
  assert (Hok : cacheOk q)
    by (apply cacheOk_calls, (cacheOk_empty ColorQuantizer.DEFAULT_PALETTE)).
  split.
  - destruct (snapToPalette_spec q color Hok) as (-> & _). by rewrite Hpal.
  - intros Hne. unfold Main.applyPaletteQuantization.
    destruct colors as [|c colors]; [done|].
    by apply quantizeLoop_empty_palette.
Qed.

Lemma X27_emptied_palette_witness :
  (ColorQuantizer.snapToPalette
     (quantizerCalls
        [SnapToPalette (ColorQuantizer.rgb 1 2 3); SetPalette []]
        ColorQuantizer.construct)
     (ColorQuantizer.rgb 1 2 3)).2 = None /\
  Main.applyPaletteQuantization
    (quantizerCalls
       [SnapToPalette (ColorQuantizer.rgb 1 2 3); SetPalette []]
       ColorQuantizer.construct) [1; 2; 3] = None.
Proof.
  destruct (X27_empty_palette_has_no_answer
              [SnapToPalette (ColorQuantizer.rgb 1 2 3); SetPalette []]
              (ColorQuantizer.rgb 1 2 3) [1; 2; 3] eq_refl) as [H1 H2].
  split; [exact H1|]. by apply H2.
Defined.
